(** * Clip sequencing, transition planning and loop trimming

    A shallow embedding of the scripts
    - [scripts/sequence_and_assemble_verbose.py] and
      [scripts/sequence_and_assemble.py] (metadata normalisation),
    - [scripts/smart_sequence_clips.py] (transition scoring, greedy ordering),
    - [scripts/smart_loop_trimmer.py] (loop boundary detection, refinement),
    - [scripts/stitch_from_manifest.py] (concatenation from a manifest),
    - [scripts/make_meta_from_videos.py] and
      [scripts/refine_manifest_margins.py] (metadata stubs, clip margins),
    followed by the properties established about them.

    Conventions of the embedding.
    - A Python [float] is a rational of [Q].  The modules of the scripts
      compute on it exactly, and equalities between floats are stated with
      [Qeq] ([==]).  Where a property depends on rounding, the function is
      given a second time in a submodule [Rounded], with the rounding
      [rnd] of every float operation and literal as a parameter:
      [rnd := Binary64.round] is the arithmetic of Python, [rnd := id] the
      exact one.  Infinities and NaN are outside the model.
    - A Python [str] is a [string] of bytes; [strip], [lower], [split] and
      the digit class of the regular expression act on ASCII.
    - Raised exceptions and calls to [sys.exit] are explicit results.
    - Calls to ffmpeg, ffprobe, OpenCV and the file system are oracles
      passed as arguments. *)

From Stdlib Require Import Ascii String QArith Qminmax Qround Lqa Permutation Sorted.
From Stdlib Require SpecFloat.
From stdpp Require Import base option list strings gmap.

Local Open Scope string_scope.
Local Open Scope Q_scope.
Local Open Scope list_scope.

#[local] Set Warnings "-register-all".

(** ** Python primitives shared by the scripts *)

Module Py.

(** [x < y] on floats. *)
Definition Qltb (x y : Q) : bool := negb (Qle_bool y x).

(** [min(a, b)]: the second argument only when it is strictly smaller. *)
Definition min (a b : Q) : Q := if Qltb b a then b else a.

(** [max(a, b)]: the second argument only when it is strictly larger. *)
Definition max (a b : Q) : Q := if Qltb a b then b else a.

(** [float(n)] for a length or a count. *)
Definition of_nat (n : nat) : Q := inject_Z (Z.of_nat n).

(** The running time [t] after [k] rounds of [t += d], from [t = 0.0];
    [rnd] rounds the result of a float operation. *)
Definition running (rnd : Q -> Q) (d : Q) (k : nat) : Q :=
  Nat.iter k (fun t => rnd (t + d)) (rnd 0.0).

(** [c.isspace()] for an ASCII character. *)
Definition is_space (c : ascii) : bool :=
  let n := nat_of_ascii c in
  (Nat.leb 9 n && Nat.leb n 13) || (Nat.leb 28 n && Nat.leb n 32).

Definition is_digit (c : ascii) : bool :=
  let n := nat_of_ascii c in Nat.leb 48 n && Nat.leb n 57.

Definition lower_char (c : ascii) : ascii :=
  let n := nat_of_ascii c in
  if Nat.leb 65 n && Nat.leb n 90 then ascii_of_nat (n + 32) else c.

(** [s.lower()] *)
Fixpoint lower (s : string) : string :=
  match s with
  | EmptyString => EmptyString
  | String c s' => String (lower_char c) (lower s')
  end.

Fixpoint lstrip (s : string) : string :=
  match s with
  | String c s' => if is_space c then lstrip s' else s
  | EmptyString => EmptyString
  end.

Fixpoint rstrip (s : string) : string :=
  match s with
  | EmptyString => EmptyString
  | String c s' =>
      match rstrip s' with
      | EmptyString => if is_space c then EmptyString else String c EmptyString
      | r => String c r
      end
  end.

(** [s.strip()] *)
Definition strip (s : string) : string := rstrip (lstrip s).

(** [s.split()]: the maximal runs of non-blank characters.  [cur] is the
    word being read, in reverse. *)
Fixpoint split_from (cur : list ascii) (s : string) : list string :=
  let flush := match cur with
               | [] => []
               | _ => [string_of_list_ascii (rev cur)]
               end in
  match s with
  | EmptyString => flush
  | String c s' =>
      if is_space c then flush ++ split_from [] s'
      else split_from (c :: cur) s'
  end.

Definition split (s : string) : list string := split_from [] s.

(** [bool(s)] for a string. *)
Definition truthy (s : string) : bool :=
  match s with EmptyString => false | _ => true end.

(** [s.endswith(suf)] together with the slice [s[:-len(suf)]]. *)
Fixpoint drop_suffix (suf s : string) : option string :=
  if String.eqb s suf then Some EmptyString
  else match s with
       | EmptyString => None
       | String c s' => String c <$> drop_suffix suf s'
       end.

(** A stable insertion sort on a key, as [sorted(xs, key=...)] is: equal
    keys keep their input order. *)
Section Sorted.
Context {A : Type} (leb : A -> A -> bool).

Fixpoint insert_sorted (x : A) (l : list A) : list A :=
  match l with
  | [] => [x]
  | y :: l' => if leb x y then x :: l else y :: insert_sorted x l'
  end.

Fixpoint sorted (l : list A) : list A :=
  match l with
  | [] => []
  | x :: l' => insert_sorted x (sorted l')
  end.

End Sorted.

End Py.

(** ** The floats of Python *)

(** IEEE 754 binary64 with rounding to nearest, ties to even, on the
    operations of [SpecFloat]. *)
Module Binary64.

Definition prec : Z := 53.
Definition emax : Z := 1024.

(** The rational that a finite double stands for; an infinity or a NaN,
    which the floats of this development never reach, reads as [0]. *)
Definition to_Q (x : SpecFloat.spec_float) : Q :=
  match x with
  | SpecFloat.S754_finite s m e =>
      Qred (inject_Z (SpecFloat.cond_Zopp s (Zpos m)) * 2 ^ e)
  | _ => 0
  end.

(** [Some k] when [p] is [2 ^ k]. *)
Fixpoint log2_exact (p : positive) : option Z :=
  match p with
  | xH => Some 0%Z
  | xO p => Z.succ <$> log2_exact p
  | xI _ => None
  end.

(** The double of an integer. *)
Definition of_Z (n : Z) : SpecFloat.spec_float :=
  SpecFloat.binary_normalize prec emax n 0 false.

(** The double nearest to [q], for [q] a decimal literal of a script or
    the exact sum, difference, product or quotient of two doubles: a
    dyadic rational is rounded as it is, any other one is the rounded
    quotient of its numerator and denominator, which are doubles then. *)
Definition round (q : Q) : Q :=
  let q := Qred q in
  match log2_exact (Qden q) with
  | Some k => to_Q (SpecFloat.binary_normalize prec emax (Qnum q) (- k) false)
  | None =>
      to_Q (SpecFloat.SFdiv prec emax (of_Z (Qnum q)) (of_Z (Zpos (Qden q))))
  end.

End Binary64.

(** ** JSON values and [float(str)] *)

Module Json.

(** What [json.load] returns.  An object keeps the order of its keys, and
    its keys are distinct. *)
Inductive jval :=
| JNull
| JBool (b : bool)
| JNum (q : Q)
| JStr (s : string)
| JList (l : list jval)
| JObj (kv : list (string * jval)).

(** [d.get(k)] on the key-value list of an object; an absent key gives
    [None], as a [null] value does. *)
Fixpoint get {A} (k : string) (kv : list (string * A)) : option A :=
  match kv with
  | [] => None
  | (k', v) :: kv' => if String.eqb k k' then Some v else get k kv'
  end.

(** The longest prefix of decimal digits, and what follows it. *)
Fixpoint span_digits (s : string) : string * string :=
  match s with
  | String c s' =>
      if Py.is_digit c
      then let '(d, r) := span_digits s' in (String c d, r)
      else (EmptyString, s)
  | EmptyString => (EmptyString, EmptyString)
  end.

(** The number written by a string of decimal digits, read after [acc]. *)
Fixpoint digits_value (acc : Z) (s : string) : Z :=
  match s with
  | EmptyString => acc
  | String c s' =>
      digits_value (10 * acc + (Z.of_nat (nat_of_ascii c) - 48))%Z s'
  end.

Definition split_sign (s : string) : bool * string :=
  match s with
  | String "-" s' => (true, s')
  | String "+" s' => (false, s')
  | _ => (false, s)
  end.

(** The exponent part of a literal: empty, or [e], a sign and digits. *)
Definition exponent (s : string) : option Z :=
  match s with
  | EmptyString => Some 0%Z
  | String c s' =>
      if Ascii.eqb c "e" || Ascii.eqb c "E" then
        let '(neg, s'') := split_sign s' in
        let '(d, r) := span_digits s'' in
        match d, r with
        | String _ _, EmptyString =>
            Some (if neg then - digits_value 0 d else digits_value 0 d)%Z
        | _, _ => None
        end
      else None
  end.

(** [float(s)] on a decimal literal: blanks around it, a sign, digits
    with an optional fraction, an optional exponent.  [None] is
    [ValueError].  The spellings of infinity and NaN and digits grouped
    with underscores are not covered. *)
Definition py_float (s : string) : option Q :=
  let '(neg, s1) := split_sign (Py.strip s) in
  let '(ip, r1) := span_digits s1 in
  let '(fp, r2) :=
    match r1 with
    | String "." r => span_digits r
    | _ => (EmptyString, r1)
    end in
  match (String.length ip + String.length fp)%nat with
  | O => None
  | _ =>
      e ← exponent r2;
      let mant := digits_value (digits_value 0 ip) fp in
      let q := inject_Z mant * Qpower 10 (e - Z.of_nat (String.length fp)) in
      Some (if neg then - q else q)
  end.

End Json.

(** ** sequence_and_assemble_verbose.py *)

Module Verbose.
Import Json.

(** One alternative of [TIME_RE]: the group [(\d+):]. *)
Definition re_hours (s : string) : option (string * string) :=
  match span_digits s with
  | (String c d, String ":" r) => Some (String c d, r)
  | _ => None
  end.

(** The group [(\d{1,2}):]. *)
Definition re_minutes (s : string) : option (string * string) :=
  match span_digits s with
  | (String c d, String ":" r) =>
      if Nat.leb (String.length d) 1 then Some (String c d, r) else None
  | _ => None
  end.

(** [$]: the end of the string, or a line feed that ends it. *)
Definition re_end (s : string) : bool :=
  match s with
  | EmptyString => true
  | String c EmptyString => Ascii.eqb c "010"
  | _ => false
  end.

(** The group [(\d+(?:\.\d+)?)] followed by [$]. *)
Definition re_seconds (s : string) : option string :=
  match span_digits s with
  | (String c d, r) =>
      if re_end r then Some (String c d)
      else match r with
           | String "." r' =>
               match span_digits r' with
               | (String c' d', r'') =>
                   if re_end r''
                   then Some (String c d +:+ "." +:+ String c' d') else None
               | _ => None
               end
           | _ => None
           end
  | _ => None
  end.

(** [(?:(\d{1,2}):)?(\d+(?:\.\d+)?)$]: the optional group is tried first. *)
Definition re_tail (s : string) : option (option string * string) :=
  match re_minutes s with
  | Some (m_, r) =>
      match re_seconds r with
      | Some s_ => Some (Some m_, s_)
      | None => (fun s_ => (None, s_)) <$> re_seconds s
      end
  | None => (fun s_ => (None, s_)) <$> re_seconds s
  end.

(** [TIME_RE.match(s).groups()]: each optional group is tried before it is
    skipped, the leftmost one first. *)
Definition TIME_RE (s : string) : option (option string * option string * string) :=
  match re_hours s with
  | Some (h, r) =>
      match re_tail r with
      | Some (m_, s_) => Some (Some h, m_, s_)
      | None => (fun '(m_, s_) => (None, m_, s_)) <$> re_tail s
      end
  | None => (fun '(m_, s_) => (None, m_, s_)) <$> re_tail s
  end.

(** The string branch of [parse_time]. *)
Definition parse_time_str (v : string) : option Q :=
  let s := Py.lower (Py.strip v) in
  match Py.drop_suffix "ms" s with
  | Some body => (fun x => x / 1000.0) <$> py_float body
  | None =>
      let by_suffix := Py.drop_suffix "s" s ≫= py_float in
      match by_suffix with
      | Some x => Some x
      | None =>
          match py_float s with
          | Some x => Some x
          | None =>
              '(h, m_, s_) ← TIME_RE s;
              secs ← py_float s_;
              secs ← match m_ with
                     | Some m_ => (fun x => secs + 60.0 * x) <$> py_float m_
                     | None => Some secs
                     end;
              match h with
              | Some h => (fun x => secs + 3600.0 * x) <$> py_float h
              | None => Some secs
              end
          end
      end
  end.

Definition time_keys : list string :=
  ["value"; "val"; "sec"; "secs"; "second"; "seconds"; "s"; "ms"; "start";
   "end"; "t0"; "t1"; "time"; "timestamp"; "duration"].

(** The first result that is not [None]. *)
Fixpoint first_some {A} (l : list (option A)) : option A :=
  match l with
  | [] => None
  | Some x :: _ => Some x
  | None :: l' => first_some l'
  end.

(** The dictionary branch of [parse_time], on the key-value list whose
    values have been parsed already ([pv] pairs each key with
    [parse_time] of its value). *)
Definition parse_time_dict (pv : list (string * option Q)) : option Q :=
  match first_some ((fun k => mjoin (get k pv)) <$> time_keys) with
  | Some out => Some out
  | None =>
      match pv with
      | [(_, out)] => out
      | _ => first_some (snd <$> pv)
      end
  end.

Fixpoint parse_time (v : jval) : option Q :=
  match v with
  | JNull => None
  | JBool b => Some (if b then 1 else 0)
  | JNum q => Some q
  | JStr s => parse_time_str s
  | JObj kv =>
      parse_time_dict
        ((fix each (kv : list (string * jval)) :=
            match kv with
            | [] => []
            | (k, x) :: kv' => (k, parse_time x) :: each kv'
            end) kv)
  | JList [] => None
  | JList (x :: _) => parse_time x
  end.

(** [parse_time(d.get(k))] *)
Definition parse_time_at (k : string) (d : list (string * jval)) : option Q :=
  get k d ≫= parse_time.

Definition replace_char (a b : ascii) (c : ascii) : ascii :=
  if Ascii.eqb c a then b else c.

Fixpoint map_chars (f : ascii -> ascii) (s : string) : string :=
  match s with
  | EmptyString => EmptyString
  | String c s' => String (f c) (map_chars f s')
  end.

Definition norm_key (k : string) : string :=
  Py.lower (map_chars (replace_char " " "_")
                      (map_chars (replace_char "-" "_") k)).

(** [{norm_key(k): v for k, v in raw.items()}]: a later key overwrites an
    earlier one with the same normal form. *)
Definition normalise (raw : list (string * jval)) : gmap string jval :=
  foldl (fun norm '(k, v) => <[norm_key k := v]> norm) ∅ raw.

Definition NESTED_HINT_KEYS : list string :=
  ["base"; "timing"; "meta"; "embedding"; "range"; "clip"].

Section Environment.

(** [str(p)] for a JSON value, [str(Path(VIDEOS_IN) / p)] and
    [Path(p).name]: library functions of the host. *)
Variable py_str : jval -> string.
Variable join_videos_in : string -> string.
Variable path_name : string -> string.

(** [DEFAULT_CLIP_SECS], read from the environment, [2.0] when unset. *)
Variable DEFAULT_DUR : Q.

Definition nth_char (n : nat) (s : string) : option ascii := String.get n s.

Definition resolve_path (norm : gmap string jval) : option string :=
  let p := match norm !! "path" with
           | Some JNull | None => norm !! "file"
           | p => p
           end in
  match p with
  | None | Some JNull => None
  | Some p =>
      let p := py_str p in
      if (Nat.ltb 2 (String.length p)
          && bool_decide (nth_char 1 p = Some ":"%char))
         || String.prefix "\\" p
      then Some p
      else Some (join_videos_in p)
  end.

(** The scan of one hinted container in [pull_time_any]. *)
Definition pull_nested (which alt literal : string) (cont : jval) : option Q :=
  match cont with
  | JObj cont =>
      match first_some ((fun k => parse_time_at k cont) <$>
                          [which; alt; literal; "start"; "end"; "time";
                           "timestamp"]) with
      | Some t => Some t
      | None => first_some ((fun '(_, cv) => parse_time cv) <$> cont)
      end
  | _ => None
  end.

(** [pull_time_any(raw, norm, which)], without the label of the source. *)
Definition pull_time_any (raw : list (string * jval))
    (norm : gmap string jval) (which : string) : option Q :=
  let alt := if String.eqb which "emb_start" then "t0" else "t1" in
  let literal := if String.eqb which "emb_start" then "start" else "end" in
  first_some
    ([norm !! which ≫= parse_time; norm !! alt ≫= parse_time;
      parse_time_at literal raw]
     ++ ((fun cont_key => get cont_key raw ≫= pull_nested which alt literal)
           <$> NESTED_HINT_KEYS)
     ++ ((fun '(_, cv) => parse_time cv) <$> raw)).

(** An entry of [raw_items]; the labels [src0] and [src1] are left out. *)
Record item := {
  meta : string;
  path : option string;
  t0 : option Q;
  t1 : option Q
}.

(** The [for jp in paths] loop of [load_items] on the metadata files in
    sorted order, each with the object it holds, or [None] when
    [json.load] fails: the records and the files reported as problems.
    A file that holds a JSON value other than an object, on which
    [raw.items()] raises, is not among these files. *)
Fixpoint load_loop (files : list (string * option (list (string * jval))))
    : list item * list string :=
  match files with
  | [] => ([], [])
  | (jp, None) :: files' =>
      let '(raw_items, problems) := load_loop files' in
      (raw_items, jp :: problems)
  | (jp, Some raw) :: files' =>
      let '(raw_items, problems) := load_loop files' in
      let norm := normalise raw in
      ({| meta := jp; path := resolve_path norm;
          t0 := pull_time_any raw norm "emb_start";
          t1 := pull_time_any raw norm "emb_end" |} :: raw_items, problems)
  end.

(** [load_items]: a directory without any [.json] file is the one
    problem ["*"]. *)
Definition load_items (files : list (string * option (list (string * jval))))
    : list item * list string :=
  match files with
  | [] => ([], ["*"])
  | _ => load_loop files
  end.

(** [bool(it["path"])] *)
Definition has_path (it : item) : bool :=
  match path it with
  | Some p => Py.truthy p
  | None => false
  end.

Definition lacks_time (i : item) : bool :=
  bool_decide (t0 i = None) || bool_decide (t1 i = None).

(** Both times of the item are set. *)
Definition timed (it : item) : Prop := is_Some (t0 it) /\ is_Some (t1 it).

(** The sort key of the fallback. *)
Definition fallback_key (i : item) : string :=
  match path i with
  | Some p => if Py.truthy p then path_name p else meta i
  | None => meta i
  end.

(** Items in the order of their sort keys. *)
Definition key_order (a b : item) : Prop :=
  String.leb (fallback_key a) (fallback_key b) = true.

(** What identifies a record of a batch: its metadata file and its path. *)
Definition ident (i : item) : string * option string := (meta i, path i).

(** The [for it in items_sorted] loop, from the running time [t], in
    exact arithmetic; [Rounded.assign_slots] has the rounding. *)
Fixpoint assign_slots (t : Q) (items_sorted : list item) : list item :=
  match items_sorted with
  | [] => []
  | it :: rest =>
      {| meta := meta it; path := path it;
         t0 := Some t; t1 := Some (t + DEFAULT_DUR) |}
        :: assign_slots (t + DEFAULT_DUR) rest
  end.

Definition apply_sequential_fallback (items : list item) : list item * bool :=
  let need_fallback := existsb lacks_time items in
  if negb need_fallback then (items, false)
  else
    let items_sorted :=
      Py.sorted (fun a b => String.leb (fallback_key a) (fallback_key b))
                items in
    (assign_slots 0.0 items_sorted, true).

(** Tuple comparison of [(t0, t1)] keys.  [analyze] runs after the
    fallback, when every time is a float; a missing time reads as [0]. *)
Definition time_key (i : item) : Q * Q := (default 0 (t0 i), default 0 (t1 i)).

Definition key_leb (a b : Q * Q) : bool :=
  Py.Qltb (fst a) (fst b)
  || (Qeq_bool (fst a) (fst b) && Qle_bool (snd a) (snd b)).

(** The order of two items by [(t0, t1)], as tuples compare. *)
Definition time_order (a b : item) : Prop :=
  (time_key a).1 < (time_key b).1
  \/ ((time_key a).1 == (time_key b).1 /\ (time_key a).2 <= (time_key b).2).

(** [analyze(items)[0]]: the items in time order.  The lists of gaps and
    overlaps are only printed. *)
Definition analyze (items : list item) : list item :=
  Py.sorted (fun a b => key_leb (time_key a) (time_key b)) items.

(** The loop of [analyze] over the sorted items that follow the first
    one: [prev] is the item before, [prev_end] the latest end so far.  A
    gap is recorded as [(meta, meta, t1, t0, t0 - t1)], an overlap as
    [(meta, meta, t0 - prev_end)]. *)
Fixpoint gap_scan (prev : item) (prev_end : Q) (items : list item)
    : list (string * string * Q * Q * Q) * list (string * string * Q) :=
  match items with
  | [] => ([], [])
  | it :: rest =>
      let start := default 0 (t0 it) in
      let '(gaps, overlaps) :=
        gap_scan it (Py.max prev_end (default 0 (t1 it))) rest in
      if Py.Qltb prev_end start
      then ((meta prev, meta it, default 0 (t1 prev), start,
             start - default 0 (t1 prev)) :: gaps, overlaps)
      else if Py.Qltb start prev_end
      then (gaps, (meta prev, meta it, start - prev_end) :: overlaps)
      else (gaps, overlaps)
  end.

(** [analyze(items)[1:]]: the gaps and the overlaps of the sorted items. *)
Definition gaps_and_overlaps (items : list item)
    : list (string * string * Q * Q * Q) * list (string * string * Q) :=
  match analyze items with
  | [] => ([], [])
  | first :: rest =>
      gap_scan first
        (Py.max (default 0 (t0 first)) (default 0 (t1 first))) rest
  end.

(** How [main] ends. *)
Inductive run :=
| ExitMissingPath (listed : list string) (more : nat)
| RaiseIndexError
| WroteManifest (manifest : list item).

Definition main_items (raw_items : list item) : run :=
  let '(items, used_fallback) := apply_sequential_fallback raw_items in
  let missing_path := filter (fun it => has_path it = false) items in
  match missing_path with
  | _ :: _ =>
      ExitMissingPath (meta <$> take 10 missing_path)
                      (length missing_path - 10)%nat
  | [] =>
      match analyze items with
      | [] => RaiseIndexError
      | items => WroteManifest items
      end
  end.

Definition main (files : list (string * option (list (string * jval)))) : run :=
  main_items (fst (load_items files)).

End Environment.

(** The sequential fallback with the rounding of its additions. *)
Module Rounded.
Section Rounding.

Variable rnd : Q -> Q.
Variable path_name : string -> string.
Variable DEFAULT_DUR : Q.

(** The [for it in items_sorted] loop, from the running time [t]. *)
Fixpoint assign_slots (t : Q) (items_sorted : list item) : list item :=
  match items_sorted with
  | [] => []
  | it :: rest =>
      {| meta := meta it; path := path it;
         t0 := Some t; t1 := Some (rnd (t + DEFAULT_DUR)) |}
        :: assign_slots (rnd (t + DEFAULT_DUR)) rest
  end.

Definition apply_sequential_fallback (items : list item) : list item * bool :=
  let need_fallback := existsb lacks_time items in
  if negb need_fallback then (items, false)
  else
    let items_sorted :=
      Py.sorted (fun a b => String.leb (fallback_key path_name a)
                                       (fallback_key path_name b))
                items in
    (assign_slots (rnd 0.0) items_sorted, true).

End Rounding.
End Rounded.

End Verbose.

(** ** sequence_and_assemble.py *)

Module Assemble.
Import Json.

Definition float_keys : list string :=
  ["value"; "val"; "sec"; "secs"; "second"; "seconds"; "s"; "start"; "end"].

(** The dictionary branch of [coerce_float], on the key-value list whose
    values have been coerced already. *)
Definition coerce_float_dict (f : option Q) (pv : list (string * option Q))
    : option Q :=
  match Verbose.first_some ((fun k => mjoin (get k pv)) <$> float_keys) with
  | Some out => Some out
  | None =>
      match pv with
      | [(_, out)] => out
      | _ => f
      end
  end.

Fixpoint coerce_float (f : option Q) (v : jval) : option Q :=
  match v with
  | JNull => f
  | JBool b => Some (if b then 1 else 0)
  | JNum q => Some q
  | JStr s =>
      match py_float (Py.strip s) with
      | Some x => Some x
      | None => f
      end
  | JList (x :: _) => coerce_float f x
  | JList [] => f
  | JObj kv =>
      coerce_float_dict f
        ((fix each (kv : list (string * jval)) :=
            match kv with
            | [] => []
            | (k, x) :: kv' => (k, coerce_float f x) :: each kv'
            end) kv)
  end.

(** [round(x)] to an integer: a tie goes to the even neighbour. *)
Definition py_round (x : Q) : Z :=
  let lo := Qfloor x in
  let r := x - inject_Z lo in
  if Py.Qltb r 0.5 then lo
  else if Py.Qltb 0.5 r then (lo + 1)%Z
  else if Z.even lo then lo else (lo + 1)%Z.

Definition coerce_int (f : option Z) (v : jval) : option Z :=
  match coerce_float None v with
  | Some x => Some (py_round x)
  | None => f
  end.

Definition norm_key (k : string) : string :=
  let k := Verbose.map_chars (Verbose.replace_char " " "_")
             (Verbose.map_chars (Verbose.replace_char "-" "_") k) in
  let kl := Py.lower k in
  if bool_decide (kl ∈ ["emb_end"; "embend"; "end_emb"; "end"]) then "emb_end"
  else if bool_decide (kl ∈ ["emb_start"; "embstart"; "start_emb"; "start";
                              "t0"]) then "emb_start"
  else if bool_decide (kl ∈ ["fps"; "frame_rate"; "framerate"]) then "fps"
  else if bool_decide (kl ∈ ["frames"; "n_frames"; "frame_count"]) then "frames"
  else if bool_decide (kl ∈ ["duration"; "duration_s"; "secs"; "seconds"])
  then "duration"
  else if bool_decide (kl ∈ ["path"; "file"; "filepath"; "file_path"])
  then "path"
  else kl.

Definition normalise (raw : list (string * jval)) : gmap string jval :=
  foldl (fun norm '(k, v) => <[norm_key k := v]> norm) ∅ raw.

(** [norm.get(k)], where an absent key and [null] both read as [None]. *)
Definition field (norm : gmap string jval) (k : string) : jval :=
  default JNull (norm !! k).

Record item := {
  path : string;
  emb_start : Q;
  emb_end : Q;
  fps : option Q;
  frames : option Z;
  duration : option Q
}.

Section Environment.

(** [str(path)] for a JSON value. *)
Variable py_str : jval -> string.

(** The body of the [for jp in jps] loop for one parsed object: the item,
    or the list [miss] of what could not be read. *)
Definition load_one (raw : list (string * jval)) : item + list string :=
  let norm := normalise raw in
  let path_str := match field norm "path" with
                  | JNull => None
                  | p => Some (py_str p)
                  end in
  let t0 := coerce_float None (field norm "emb_start") in
  let t1 := coerce_float None (field norm "emb_end") in
  let fps_f := coerce_float None (field norm "fps") in
  let frames_i := coerce_int None (field norm "frames") in
  let dur_f := coerce_float None (field norm "duration") in
  let t1 :=
    match t1 with
    | Some t1 => Some t1
    | None =>
        match dur_f, t0, frames_i, fps_f with
        | Some dur_f, Some t0, _, _ => Some (t0 + dur_f)
        | _, Some t0, Some frames_i, Some fps_f =>
            if Qeq_bool fps_f 0 then None
            else Some (t0 + inject_Z frames_i / fps_f)
        | _, _, _, _ => None
        end
    end in
  let miss :=
    (if path_str is None then ["path"] else [])
    ++ (if t0 is None then ["emb_start"] else [])
    ++ (if t1 is None then ["emb_end (or frames+fps/duration)"] else []) in
  match path_str, t0, t1 with
  | Some path_str, Some t0, Some t1 =>
      inl {| path := path_str; emb_start := t0; emb_end := t1;
             fps := fps_f; frames := frames_i; duration := dur_f |}
  | _, _, _ => inr miss
  end.

(** The loop of [load_meta_files]: the items and the files with a problem. *)
Fixpoint load_loop (files : list (string * option (list (string * jval))))
    : list item * list string :=
  match files with
  | [] => ([], [])
  | (jp, raw) :: files' =>
      let '(items, problems) := load_loop files' in
      match raw with
      | None => (items, jp :: problems)
      | Some raw =>
          match load_one raw with
          | inl it => (it :: items, problems)
          | inr _ => (items, jp :: problems)
          end
      end
  end.

(** How [load_meta_files] ends: [SystemExit] with one of its three
    messages, or the list of items. *)
Inductive loaded :=
| ExitNoFiles
| ExitProblems (listed : list string) (more : nat)
| ExitAllInvalid
| Items (items : list item).

Definition load_meta_files
    (files : list (string * option (list (string * jval)))) : loaded :=
  match files with
  | [] => ExitNoFiles
  | _ =>
      let '(items, problems) := load_loop files in
      match problems, items with
      | _ :: _, _ =>
          ExitProblems (take 12 problems) (length problems - 12)%nat
      | [], [] => ExitAllInvalid
      | [], _ => Items items
      end
  end.

End Environment.
End Assemble.

(** ** smart_sequence_clips.py *)

Module Sequencer.

(** The analysis of one frame, as [analyze_clip.py] writes it: each
    attribute may be absent. *)
Record frame := {
  subject : option string;
  scene_type : option string;
  lighting : option string;
  motion : option string;
  dominant_colors : option (list string)
}.

(** An entry of [self.clips]. *)
Record clip := {
  file : string;
  path : option string;
  start_frame : frame;
  end_frame : frame;
  base : string
}.

(** [d.get(key, '')] *)
Definition get_str (o : option string) : string := default "" o.

(** [d.get('dominant_colors', [])] *)
Definition get_list (o : option (list string)) : list string := default [] o.

Definition _similar_subjects (subj_a subj_b : string) : bool :=
  if negb (Py.truthy subj_a) || negb (Py.truthy subj_b) then false
  else
    let words_a : gset string := list_to_set (Py.split (Py.lower subj_a)) in
    let words_b : gset string := list_to_set (Py.split (Py.lower subj_b)) in
    bool_decide (0 < size (words_a ∩ words_b))%nat.

Definition bright : gset string :=
  {[ "bright"; "daylight"; "sunny"; "well-lit" ]}.

Definition dim : gset string :=
  {[ "dim"; "dark"; "low-light"; "evening"; "night" ]}.

Definition _compatible_lighting (light_a light_b : string) : bool :=
  if bool_decide (light_a ∈ bright) && bool_decide (light_b ∈ bright) then true
  else if bool_decide (light_a ∈ dim) && bool_decide (light_b ∈ dim) then true
  else false.

Definition slow_motions : gset string :=
  {[ "slow"; "gentle"; "calm"; "still"; "steady" ]}.

Definition fast_motions : gset string :=
  {[ "fast"; "quick"; "rapid"; "dynamic"; "energetic" ]}.

Definition _motion_compatibility (motion_a motion_b : string) : Q :=
  if negb (Py.truthy motion_a) || negb (Py.truthy motion_b) then 0.5
  else if String.eqb motion_a motion_b then 1.0
  else if bool_decide (motion_a ∈ slow_motions)
          && bool_decide (motion_b ∈ slow_motions) then 0.8
  else if bool_decide (motion_a ∈ fast_motions)
          && bool_decide (motion_b ∈ fast_motions) then 0.8
  else if (bool_decide (motion_a ∈ slow_motions)
           && bool_decide (motion_b ∈ fast_motions))
          || (bool_decide (motion_a ∈ fast_motions)
              && bool_decide (motion_b ∈ slow_motions)) then 0.2
  else 0.5.

Definition _color_harmony (colors_a colors_b : list string) : Q :=
  match colors_a, colors_b with
  | [], _ | _, [] => 0.5
  | _, _ =>
      let matches :=
        size ((list_to_set colors_a : gset string) ∩ list_to_set colors_b) in
      let max_possible := Nat.min (length colors_a) (length colors_b) in
      if Nat.eqb max_possible 0 then 0.5
      else Py.of_nat matches / Py.of_nat max_possible
  end.

(** The five increments of [calculate_transition_score], in source order. *)

Definition subject_term (end_a start_b : frame) : Q :=
  if String.eqb (get_str (subject end_a)) (get_str (subject start_b)) then 0.3
  else if _similar_subjects (get_str (subject end_a))
                            (get_str (subject start_b)) then 0.15
  else 0.

Definition scene_term (end_a start_b : frame) : Q :=
  if String.eqb (get_str (scene_type end_a)) (get_str (scene_type start_b))
  then 0.25 else 0.

Definition lighting_term (end_a start_b : frame) : Q :=
  if String.eqb (get_str (lighting end_a)) (get_str (lighting start_b)) then 0.2
  else if _compatible_lighting (get_str (lighting end_a))
                               (get_str (lighting start_b)) then 0.1
  else 0.

Definition motion_term (end_a start_b : frame) : Q :=
  _motion_compatibility (get_str (motion end_a)) (get_str (motion start_b))
  * 0.15.

Definition color_term (end_a start_b : frame) : Q :=
  _color_harmony (get_list (dominant_colors end_a))
                 (get_list (dominant_colors start_b)) * 0.1.

Definition calculate_transition_score (clip_a clip_b : clip) : Q :=
  let end_a := end_frame clip_a in
  let start_b := start_frame clip_b in
  let score := 0.0 in
  let score := score + subject_term end_a start_b in
  let score := score + scene_term end_a start_b in
  let score := score + lighting_term end_a start_b in
  let score := score + motion_term end_a start_b in
  let score := score + color_term end_a start_b in
  Py.min 1.0 score.

(** The [for i, candidate in enumerate(remaining)] scan: the state is
    [(best_score, best_clip, best_idx)], [best_clip = None] and
    [best_idx = -1] before any candidate has won. *)
Definition scan_state : Type := Q * option clip * Z.

Fixpoint scan (current_clip : clip) (i : nat) (remaining : list clip)
    (st : scan_state) : scan_state :=
  match remaining with
  | [] => st
  | candidate :: rest =>
      let '(best_score, _, _) := st in
      let score := calculate_transition_score current_clip candidate in
      let st' := if Py.Qltb best_score score
                 then (score, Some candidate, Z.of_nat i) else st in
      scan current_clip (S i) rest st'
  end.

(** The [while remaining] loop.  A clip dictionary always has its five
    keys, so [if best_clip] tests for [None].  [None] as a result means
    the loop did not finish within [fuel] rounds or [sequence[-1]] failed. *)
Fixpoint sequence_loop (fuel : nat) (sequence remaining : list clip)
    : option (list clip) :=
  match remaining with
  | [] => Some sequence
  | first :: others =>
      match fuel with
      | O => None
      | S fuel' =>
          current_clip ← last sequence;
          let '(_, best_clip, best_idx) :=
            scan current_clip 0%nat remaining (-1, None, (-1)%Z) in
          match best_clip with
          | Some best =>
              sequence_loop fuel' (sequence ++ [best])
                            (delete (Z.to_nat best_idx) remaining)
          | None => sequence_loop fuel' (sequence ++ [first]) others
          end
      end
  end.

Definition find_optimal_sequence (clips : list clip) : option (list clip) :=
  if Nat.leb (length clips) 1 then Some clips
  else match clips with
       | [] => Some clips
       | c0 :: rest => sequence_loop (length rest) [c0] rest
       end.

Inductive transition_type := cut | crossfade | fade_black.

Record transition := {
  from_clip : string;
  to_clip : string;
  type : transition_type;
  duration : Q;
  score : Q
}.

Definition make_transition (current next_clip : clip) : transition :=
  let score := calculate_transition_score current next_clip in
  let '(transition_type, duration) :=
    if Py.Qltb 0.8 score then (cut, 0.0)
    else if Py.Qltb 0.5 score then (crossfade, 0.5)
    else (fade_black, 0.3) in
  {| from_clip := base current; to_clip := base next_clip;
     type := transition_type; duration := duration; score := score |}.

(** [for i in range(len(sequence) - 1)]: one transition per adjacent pair. *)
Fixpoint generate_transitions (sequence : list clip) : list transition :=
  match sequence with
  | current :: (next_clip :: _) as tail =>
      make_transition current next_clip :: generate_transitions tail
  | _ => []
  end.

(** An item of the smart manifest. *)
Record manifest_item := {
  item_path : string;
  t0 : Q;
  t1 : Q;
  item_base : string;
  transition_in : option transition
}.

(** The document that [create_smart_manifest] dumps. *)
Record smart_manifest := {
  version : string;
  items : list manifest_item;
  transitions : list transition;
  total_duration : Q;
  total_clips : nat;
  avg_transition_score : Q
}.

(** [np.mean] of a non-empty list. *)
Definition mean (xs : list Q) : Q :=
  foldr Qplus 0 xs / Py.of_nat (length xs).

Section Manifest.

(** [str(Path(p).resolve())] *)
Variable resolve : string -> string.

(** The [for i, clip in enumerate(optimal_sequence)] loop from index [i]
    and running time [current_time]: the items and the final running
    time.  [None] is the [IndexError] of [transitions[i-1]]. *)
Fixpoint manifest_loop (transitions : list transition) (i : nat)
    (current_time : Q) (clips : list clip)
    : option (list manifest_item * Q) :=
  match clips with
  | [] => Some ([], current_time)
  | clip :: rest =>
      let clip_duration := 5.0 in
      incoming ← (if Nat.ltb 0 i then Some <$> transitions !! (i - 1)%nat
                  else Some None);
      let current_time :=
        match incoming with
        | Some transition =>
            match type transition with
            | crossfade => current_time - duration transition
            | _ => current_time
            end
        | None => current_time
        end in
      let item :=
        {| item_path := match path clip with
                        | Some p => if Py.truthy p then resolve p
                                    else file clip
                        | None => file clip
                        end;
           t0 := current_time;
           t1 := current_time + clip_duration;
           item_base := base clip;
           transition_in := incoming |} in
      '(items, total) ← manifest_loop transitions (S i)
                          (current_time + clip_duration) rest;
      Some (item :: items, total)
  end.

Definition create_smart_manifest (clips : list clip) : option smart_manifest :=
  optimal_sequence ← find_optimal_sequence clips;
  let transitions := generate_transitions optimal_sequence in
  '(manifest_items, current_time) ←
     manifest_loop transitions 0 0.0 optimal_sequence;
  Some {| version := "smart_v1";
          items := manifest_items;
          transitions := transitions;
          total_duration := current_time;
          total_clips := length optimal_sequence;
          avg_transition_score :=
            match transitions with
            | [] => 0.0
            | _ => mean (score <$> transitions)
            end |}.

End Manifest.

(** The time by which an item starts before the end of the item before
    it: the duration of its incoming transition when that is a crossfade. *)
Definition overlap_in (item : manifest_item) : Q :=
  match transition_in item with
  | Some transition =>
      match type transition with
      | crossfade => duration transition
      | _ => 0
      end
  | None => 0
  end.

(** Each clip of [placed] scores at least as high against the clip before
    it, starting from [current], as every clip placed after it. *)
Fixpoint greedy_from (current : clip) (placed : list clip) : Prop :=
  match placed with
  | [] => True
  | next_clip :: rest =>
      Forall (fun later => calculate_transition_score current later
                           <= calculate_transition_score current next_clip)
             rest
      /\ greedy_from next_clip rest
  end.

End Sequencer.

(** ** smart_loop_trimmer.py *)

Module LoopTrimmer.
Import Json.

(** What the frame probes of one video do.  A probe at a time stamp is
    [None] when [extract_frame] raises, [Some None] when the frame cannot
    be read or compared, and [Some (Some c)] when [cv2.compareHist]
    returns the correlation [c]. *)
Record probes := {
  first_frame_ok : bool;
  start_probe : Q -> option (option Q);
  end_probe : Q -> option (option Q);
  cleanup_ok : bool
}.

Definition calculate_frame_similarity (compared : option Q) : Q :=
  match compared with
  | Some similarity => Py.max 0.0 similarity
  | None => 0.0
  end.

(** [np.arange(start, stop, step)] in exact arithmetic:
    [ceil((stop - start) / step)] values [start + i * step].
    [Rounded.arange] has the rounding, which can add a value. *)
Definition arange (start stop step : Q) : list Q :=
  (fun i => start + Py.of_nat i * step)
    <$> seq 0 (Z.to_nat (Qceiling ((stop - start) / step))).

Section Segment.
Variable env : probes.
Variable duration : Q.

(** The scan for the start of the motion; [motion_start] is its default. *)
Fixpoint start_scan (motion_start : Q) (ladder : list Q) : Q :=
  match ladder with
  | [] => motion_start
  | check_time :: rest =>
      if Qle_bool (duration * 0.8) check_time then motion_start
      else match start_probe env check_time with
           | Some compared =>
               if Py.Qltb (calculate_frame_similarity compared) 0.85
               then check_time
               else start_scan motion_start rest
           | None => start_scan motion_start rest
           end
  end.

(** The scan for the peak of the motion; the state is
    [(motion_end, max_difference)]. *)
Fixpoint end_scan (st : Q * Q) (times : list Q) : Q * Q :=
  match times with
  | [] => st
  | check_time :: rest =>
      let '(motion_end, max_difference) := st in
      match end_probe env check_time with
      | Some compared =>
          let difference := 1.0 - calculate_frame_similarity compared in
          if Py.Qltb max_difference difference
          then end_scan (check_time + 0.2, difference) rest
          else end_scan st rest
      | None => end_scan st rest
      end
  end.

(** The [except Exception] result. *)
Definition fallback_segment : Q * Q * Q :=
  (duration * 0.2, duration * 0.6, 0.0).

Definition find_clean_motion_segment : Q * Q * Q :=
  if negb (first_frame_ok env) then fallback_segment
  else
    let motion_start := start_scan (duration * 0.1) [0.2; 0.4; 0.6; 0.8; 1.0] in
    let '(motion_end, max_difference) :=
      end_scan (duration * 0.7, 0.0)
               (arange (motion_start + 0.5) (duration * 0.85) 0.15) in
    let motion_start := Py.max motion_start (duration * 0.05) in
    let motion_end := Py.min motion_end (duration * 0.85) in
    let motion_end := Py.max motion_end (motion_start + 1.0) in
    let clean_duration := motion_end - motion_start in
    if cleanup_ok env then (motion_start, clean_duration, max_difference)
    else fallback_segment.

End Segment.

(** The detector with the rounding of its operations and literals. *)
Module Rounded.
Section Segment.

Variable rnd : Q -> Q.
Variable env : probes.
Variable duration : Q.

Definition calculate_frame_similarity (compared : option Q) : Q :=
  match compared with
  | Some similarity => Py.max (rnd 0.0) similarity
  | None => rnd 0.0
  end.

(** [np.arange(start, stop, step)] on floats: the length is the ceiling
    of the float [(stop - start) / step]; the first two values are [start]
    and [start + step], and the value at [i >= 2] is [start + i * delta]
    for [delta] the difference of the first two. *)
Definition arange (start stop step : Q) : list Q :=
  let length := Z.to_nat (Qceiling (rnd (rnd (stop - start) / step))) in
  let next := rnd (start + step) in
  let delta := rnd (next - start) in
  (fun i => match i with
            | O => start
            | S O => next
            | _ => rnd (start + rnd (Py.of_nat i * delta))
            end) <$> seq 0 length.

(** The scan for the start of the motion; [motion_start] is its default. *)
Fixpoint start_scan (motion_start : Q) (ladder : list Q) : Q :=
  match ladder with
  | [] => motion_start
  | check_time :: rest =>
      if Qle_bool (rnd (duration * rnd 0.8)) check_time then motion_start
      else match start_probe env check_time with
           | Some compared =>
               if Py.Qltb (calculate_frame_similarity compared) (rnd 0.85)
               then check_time
               else start_scan motion_start rest
           | None => start_scan motion_start rest
           end
  end.

(** The scan for the peak of the motion; the state is
    [(motion_end, max_difference)]. *)
Fixpoint end_scan (st : Q * Q) (times : list Q) : Q * Q :=
  match times with
  | [] => st
  | check_time :: rest =>
      let '(motion_end, max_difference) := st in
      match end_probe env check_time with
      | Some compared =>
          let difference :=
            rnd (rnd 1.0 - calculate_frame_similarity compared) in
          if Py.Qltb max_difference difference
          then end_scan (rnd (check_time + rnd 0.2), difference) rest
          else end_scan st rest
      | None => end_scan st rest
      end
  end.

(** The [except Exception] result. *)
Definition fallback_segment : Q * Q * Q :=
  (rnd (duration * rnd 0.2), rnd (duration * rnd 0.6), rnd 0.0).

Definition find_clean_motion_segment : Q * Q * Q :=
  if negb (first_frame_ok env) then fallback_segment
  else
    let motion_start :=
      start_scan (rnd (duration * rnd 0.1))
                 [rnd 0.2; rnd 0.4; rnd 0.6; rnd 0.8; rnd 1.0] in
    let '(motion_end, max_difference) :=
      end_scan (rnd (duration * rnd 0.7), rnd 0.0)
               (arange (rnd (motion_start + rnd 0.5))
                       (rnd (duration * rnd 0.85)) (rnd 0.15)) in
    let motion_start := Py.max motion_start (rnd (duration * rnd 0.05)) in
    let motion_end := Py.min motion_end (rnd (duration * rnd 0.85)) in
    let motion_end := Py.max motion_end (rnd (motion_start + rnd 1.0)) in
    let clean_duration := rnd (motion_end - motion_start) in
    if cleanup_ok env then (motion_start, clean_duration, max_difference)
    else fallback_segment.

End Segment.
End Rounded.

(** A manifest read by [json.load]: its list of items, each a dictionary,
    and the other top-level keys ([version], [transitions], ...). *)
Record manifest := {
  items : list (gmap string jval);
  others : gmap string jval
}.

(** How [process_smart_manifest_with_loop_detection] ends: [die], an
    exception inside the loop (an item whose [path] is not a string or
    whose [t0] is not a number), the manifest written and returned, or the
    manifest written and [ZeroDivisionError] raised by the summary. *)
Inductive processed :=
| Died
| RaisedInLoop
| Returned (written : manifest)
| RaisedAfterWrite (written : manifest).

Section Process.

(** [os.path.exists], the duration printed by ffprobe ([None] when it
    cannot be read as a float) and the frame probes, per video path. *)
Variable path_exists : string -> bool.
Variable ffprobe_duration : string -> option Q.
Variable video_probes : string -> probes.

Definition get_video_duration (video_path : string) : Q :=
  default 5.0 (ffprobe_duration video_path).

(** The body of the loop for an item that is kept. *)
Definition refine_item (item : gmap string jval) (video_path : string)
    (t0 : Q) : gmap string jval * Q :=
  let original_duration := get_video_duration video_path in
  let '(start_trim, clean_duration, motion_strength) :=
    find_clean_motion_segment (video_probes video_path) original_duration in
  let new_item := item in
  let new_item := <["original_duration" := JNum original_duration]> new_item in
  let new_item := <["start_trim" := JNum start_trim]> new_item in
  let new_item := <["clean_duration" := JNum clean_duration]> new_item in
  let new_item := <["motion_strength" := JNum motion_strength]> new_item in
  let new_item := <["t1" := JNum (t0 + clean_duration)]> new_item in
  (new_item, original_duration - clean_duration).

(** What the loop body makes of one item: nothing when the item is
    skipped by [continue], the refined copy when it is kept. *)
Definition refine_or_drop (item : gmap string jval)
    : option (gmap string jval) :=
  match item !! "path", item !! "t0" with
  | Some (JStr video_path), Some (JNum t0) =>
      if Py.truthy video_path && path_exists video_path
      then Some (refine_item item video_path t0).1
      else None
  | _, _ => None
  end.

(** An item the loop body handles without raising: its [path] is absent,
    [null] or a string, and its [t0] is a number when the path names an
    existing file. *)
Definition well_formed (item : gmap string jval) : Prop :=
  match item !! "path" with
  | None | Some JNull => True
  | Some (JStr video_path) =>
      Py.truthy video_path && path_exists video_path = true ->
      exists t0, item !! "t0" = Some (JNum t0)
  | Some _ => False
  end.



(** [not video_path] for a path that is not a string. *)
Definition falsy (v : jval) : bool :=
  match v with
  | JNull | JBool false | JList [] | JObj [] => true
  | JNum q => Qeq_bool q 0
  | _ => false
  end.

(** The [for i, item in enumerate(items)] loop: [processed_items] and
    [total_saved_time], or [None] when an item raises.  A path that is
    not a string is skipped when it is falsy; any other one raises
    [TypeError], in [os.path.exists] or in [Path]. *)
Fixpoint process_items (items : list (gmap string jval))
    (acc : list (gmap string jval) * Q)
    : option (list (gmap string jval) * Q) :=
  match items with
  | [] => Some acc
  | item :: rest =>
      let '(processed_items, total_saved_time) := acc in
      match item !! "path" with
      | None | Some JNull => process_items rest acc
      | Some (JStr video_path) =>
          if negb (Py.truthy video_path) || negb (path_exists video_path)
          then process_items rest acc
          else match item !! "t0" with
               | Some (JNum t0) =>
                   let '(new_item, total_trimmed) :=
                     refine_item item video_path t0 in
                   process_items rest
                     (processed_items ++ [new_item],
                      total_saved_time + total_trimmed)
               | _ => None
               end
      | Some v => if falsy v then process_items rest acc else None
      end
  end.

Definition process_smart_manifest_with_loop_detection (manifest_data : manifest)
    : processed :=
  match items manifest_data with
  | [] => Died
  | items =>
      match process_items items ([], 0.0) with
      | None => RaisedInLoop
      | Some (processed_items, total_saved_time) =>
          let loop_detection :=
            JObj [("total_clips", JNum (Py.of_nat (length processed_items)));
                  ("total_time_saved", JNum total_saved_time);
                  ("trimming_method", JStr "start_and_end")] in
          let written :=
            {| items := processed_items;
               others :=
                 <["loop_detection" := loop_detection]> (others manifest_data)
            |} in
          match processed_items with
          | [] => RaisedAfterWrite written
          | _ => Returned written
          end
      end
  end.

(** [create_trimmed_video] up to the ffmpeg command: the inputs in the
    order of the [concat] filter, each with its [trim] start and
    duration; [None] is [die]. *)
Definition create_trimmed_video (manifest_data : manifest)
    : option (list (option jval * jval * jval)) :=
  match items manifest_data with
  | [] => None
  | items =>
      Some ((fun item =>
               (item !! "path",
                default (JNum 0.0) (item !! "start_trim"),
                default (JNum 5.0) (item !! "clean_duration"))) <$> items)
  end.

End Process.
End LoopTrimmer.

(** ** stitch_from_manifest.py *)

Module Stitch.
Import Json.

(** [float(x)] for a JSON value; [None] is [TypeError] or [ValueError]. *)
Definition to_float (v : jval) : option Q :=
  match v with
  | JNum q => Some q
  | JBool b => Some (if b then 1 else 0)
  | JStr s => py_float s
  | _ => None
  end.

(** [keyf(it)] *)
Definition keyf (it : gmap string jval) : option (Q * Q) :=
  a ← to_float (default (JNum 0.0) (it !! "t0"));
  b ← to_float (default (JNum 0.0) (it !! "t1"));
  Some (a, b).

(** [bool(p)] for [p = it.get("path")]. *)
Definition truthy (p : option jval) : bool :=
  match p with
  | None | Some JNull | Some (JBool false) | Some (JList [])
  | Some (JObj []) => false
  | Some (JNum q) => negb (Qeq_bool q 0)
  | Some (JStr s) => Py.truthy s
  | Some _ => true
  end.

Inductive stitched :=
| Die
| RaisedInKey
| Concat (files : list string).

Section Main.

Variable py_str : jval -> string.
Variable path_exists : string -> bool.

(** [sorted(items, key=keyf)], on items paired with their keys. *)
Definition sort_items (items : list (gmap string jval))
    : option (list (gmap string jval)) :=
  keyed ← mapM (fun it => (fun k => (k, it)) <$> keyf it) items;
  Some (snd <$> Py.sorted (fun a b => Verbose.key_leb (fst a) (fst b)) keyed).

(** The paths of the items that have one, in the order of the items. *)
Definition listed_paths (items : list (gmap string jval)) : list string :=
  omap (fun it => if truthy (it !! "path")
                  then py_str <$> it !! "path" else None) items.

(** [main] with [TRIM_MODE = 0], from the list read from [manifest.json]
    to the lines of [concat.txt]. *)
Definition main (items : list (gmap string jval)) : stitched :=
  match items with
  | [] => Die
  | _ =>
      match sort_items items with
      | None => RaisedInKey
      | Some items =>
          let paths := listed_paths items in
          let files := filter (fun p => path_exists p = true) paths in
          let missing := filter (fun p => path_exists p = false) paths in
          match missing, files with
          | _ :: _, _ => Die
          | [], [] => Die
          | [], _ => Concat files
          end
      end
  end.

(** How [main] ends with [TRIM_MODE] set: [die], an exception of
    [float], or the ffmpeg inputs in the order of the [concat] filter,
    each with the start and the duration of its [trim] when the item has
    a [clip_end]. *)
Inductive trimmed :=
| TrimDie
| TrimRaised
| TrimInputs (inputs : list (string * option (Q * Q))).

(** [os.path.exists(p)] in the trim mode, where [p] is the value of the
    manifest as it was loaded and not its [str]: a string is a path, an
    integer is taken for a file descriptor, and any other value raises
    [TypeError], which is [None]. *)
Variable exists_raw : jval -> option bool.

(** The [for it in items] loop of the trim mode. *)
Fixpoint trim_loop (items : list (gmap string jval)) : trimmed :=
  match items with
  | [] => TrimInputs []
  | it :: rest =>
      let p := it !! "path" in
      let s := default (JNum 0.0) (it !! "clip_start") in
      if negb (truthy p) then trim_loop rest
      else
        match exists_raw (default JNull p) with
        | None => TrimRaised
        | Some false => TrimDie
        | Some true =>
            match it !! "clip_end" with
            | None | Some JNull =>
                match trim_loop rest with
                | TrimInputs inputs =>
                    TrimInputs ((py_str (default JNull p), None) :: inputs)
                | stop => stop
                end
            | Some e =>
                match to_float e, to_float s with
                | Some e, Some s =>
                    let dur := e - s in
                    if Qle_bool dur 0 then TrimDie
                    else match trim_loop rest with
                         | TrimInputs inputs =>
                             TrimInputs ((py_str (default JNull p), Some (s, dur))
                                           :: inputs)
                         | stop => stop
                         end
                | _, _ => TrimRaised
                end
            end
        end
  end.

(** [main] with [TRIM_MODE] set. *)
Definition main_trim (items : list (gmap string jval)) : trimmed :=
  match main items with
  | Die => TrimDie
  | RaisedInKey => TrimRaised
  | Concat _ =>
      match sort_items items with
      | Some items => trim_loop items
      | None => TrimRaised
      end
  end.

End Main.
End Stitch.

(** ** refine_manifest_margins.py *)

Module Margins.
Import Json.

Section Main.

(** [SAFE_LEAD_SEC], [SAFE_TAIL_SEC] and [MIN_DUR_SEC]. *)
Variable LEAD : Q.
Variable TAIL : Q.
Variable MIN_DUR : Q.

(** The body of the loop for one item: [None] when [float] raises,
    [Some None] when the item is left out, [Some (Some it)] when it is
    kept with its margins. *)
Definition refine_one (it : gmap string jval)
    : option (option (gmap string jval)) :=
  match it !! "t0", it !! "t1" with
  | None, _ | Some JNull, _ | _, None | _, Some JNull => Some None
  | Some t0, Some t1 =>
      t0 ← Stitch.to_float t0;
      t1 ← Stitch.to_float t1;
      let start := t0 + LEAD in
      let end_ := t1 - TAIL in
      if Qle_bool MIN_DUR (end_ - start)
      then Some (Some (<["clip_end" := JNum end_]>
                         (<["clip_start" := JNum start]> it)))
      else Some None
  end.

(** The [for it in items] loop: the list [refined]. *)
Fixpoint refine (items : list (gmap string jval))
    : option (list (gmap string jval)) :=
  match items with
  | [] => Some []
  | it :: rest =>
      kept ← refine_one it;
      refined ← refine rest;
      Some (match kept with
            | Some it => it :: refined
            | None => refined
            end)
  end.

(** The path of the item, when it is set, is a string. *)
Definition path_is_string (it : gmap string jval) : Prop :=
  Stitch.truthy (it !! "path") = true ->
  exists p, it !! "path" = Some (JStr p).

(** An item with its two margins, at least [MIN_DUR] apart. *)
Definition has_margins (it : gmap string jval) : Prop :=
  exists start end_,
    it !! "clip_start" = Some (JNum start)
    /\ it !! "clip_end" = Some (JNum end_)
    /\ MIN_DUR <= end_ - start.

End Main.
End Margins.

(** ** make_meta_from_videos.py *)

Module MakeMeta.
Import Json.

Section Main.

(** The rounding of the float additions, the duration per clip,
    [--force], the path of the metadata file of a stem
    ([meta_dir / f"{name}.json"]) and whether that file exists. *)
Variable rnd : Q -> Q.
Variable dur : Q.
Variable force : bool.
Variable meta_path : string -> string.
Variable meta_exists : string -> bool.

(** The object written for a video. *)
Definition meta_object (file_name stem : string) (t : Q)
    : list (string * jval) :=
  [("file", JStr file_name);
   ("start", JObj [("seconds", JNum t)]);
   ("end", JObj [("seconds", JNum (rnd (t + dur)))]);
   ("base", JStr stem)].

(** The [for p in paths] loop from the running time [t], over the videos
    as pairs of [p.name] and [p.stem]: the files written, each with its
    object, in the order of the writes.  [jp_exists] is [jp.exists()] as
    the loop finds it: a file written for an earlier video exists for the
    later ones. *)
Fixpoint write_metas (t : Q) (jp_exists : string -> bool)
    (videos : list (string * string))
    : list (string * list (string * jval)) :=
  match videos with
  | [] => []
  | (file_name, stem) :: rest =>
      let jp := meta_path stem in
      if jp_exists jp && negb force then write_metas t jp_exists rest
      else (jp, meta_object file_name stem t)
             :: write_metas (rnd (t + dur))
                  (fun p => String.eqb p jp || jp_exists p) rest
  end.

(** [main], for a directory that holds videos: the metadata files
    written, in the order of the sorted videos. *)
Definition main (videos : list (string * string))
    : list (string * list (string * jval)) :=
  write_metas (rnd 0.0) meta_exists videos.

End Main.
End MakeMeta.

(** ** From one script to the next *)

Module Pipeline.
Import Json.

Definition number_or_null (x : option Q) : jval :=
  match x with Some q => JNum q | None => JNull end.

(** An item of [manifest.json] as [sequence_and_assemble_verbose.py]
    dumps it and the stitching scripts load it; [labels] gives the two
    strings [src0] and [src1] of the item. *)
Definition dump_item (labels : Verbose.item -> string * string)
    (it : Verbose.item) : gmap string jval :=
  <["meta" := JStr (Verbose.meta it)]>
    (<["path" := match Verbose.path it with
                 | Some p => JStr p
                 | None => JNull
                 end]>
       (<["t0" := number_or_null (Verbose.t0 it)]>
          (<["t1" := number_or_null (Verbose.t1 it)]>
             (<["src0" := JStr (labels it).1]>
                {[ "src1" := JStr (labels it).2 ]})))).

End Pipeline.

(** ** Sample records *)

Module Scenario.
Import Sequencer.

(** A frame described by subject, scene type and lighting only. *)
Definition described (s t l : string) : frame :=
  {| subject := Some s; scene_type := Some t; lighting := Some l;
     motion := None; dominant_colors := None |}.

(** A clip whose first and last frame carry the same description. *)
Definition uniform_clip (name : string) (f : frame) : clip :=
  {| file := name; path := Some name; start_frame := f; end_frame := f;
     base := name |}.

Definition clip_A : clip := uniform_clip "A" (described "person" "bedroom" "bright").
Definition clip_B : clip := uniform_clip "B" (described "person" "bedroom" "dim").
Definition clip_C : clip := uniform_clip "C" (described "object" "kitchen" "bright").

(** A frame with no attribute at all. *)
Definition blank : frame :=
  {| subject := None; scene_type := None; lighting := None; motion := None;
     dominant_colors := None |}.

(** Every attribute present, the same colour listed twice. *)
Definition twice_red : frame :=
  {| subject := Some "person"; scene_type := Some "bedroom";
     lighting := Some "bright"; motion := Some "slow";
     dominant_colors := Some ["red"; "red"] |}.

(** Every attribute present, three distinct colours. *)
Definition three_colors : frame :=
  {| subject := Some "person"; scene_type := Some "bedroom";
     lighting := Some "bright"; motion := Some "slow";
     dominant_colors := Some ["red"; "green"; "blue"] |}.

(** One attribute is missing or empty and the other is not. *)
Definition one_missing (x y : string) : Prop :=
  (x = "" /\ y <> "") \/ (x <> "" /\ y = "").

(** Stand-ins for the host functions, for the sample batches: [str] on
    JSON strings, the join with [VIDEOS_IN], and the last component of a
    path that has no separator. *)
Definition sample_str (v : Json.jval) : string :=
  match v with Json.JStr s => s | _ => "" end.

Definition sample_join (p : string) : string :=
  "E:\n8n-docker\videos_in\" +:+ p.

Definition sample_name (p : string) : string := p.

(** Two metadata files; the second one names no video. *)
Definition batch_one_without_path
    : list (string * option (list (string * Json.jval))) :=
  [("a.json", Some [("path", Json.JStr "a.mp4"); ("start", Json.JNum 0);
                    ("end", Json.JNum 2)]);
   ("b.json", Some [("start", Json.JNum 2); ("end", Json.JNum 4)])].

(** Two records with paths; the first one has no end time. *)
Definition batch_one_without_time : list Verbose.item :=
  [{| Verbose.meta := "z.json"; Verbose.path := Some "z.mp4";
      Verbose.t0 := Some 7; Verbose.t1 := None |};
   {| Verbose.meta := "a.json"; Verbose.path := Some "a.mp4";
      Verbose.t0 := Some 1; Verbose.t1 := Some 3 |}].

(** Seven records with paths and without times. *)
Definition untimed (name : string) : Verbose.item :=
  {| Verbose.meta := name +:+ ".json"; Verbose.path := Some (name +:+ ".mp4");
     Verbose.t0 := None; Verbose.t1 := None |}.

Definition seven_untimed : list Verbose.item :=
  untimed <$> ["a"; "b"; "c"; "d"; "e"; "f"; "g"].

(** Probes of a clip that never moves: every frame correlates fully with
    the reference frame. *)
Definition still_probes : LoopTrimmer.probes :=
  {| LoopTrimmer.first_frame_ok := true;
     LoopTrimmer.start_probe := fun _ => Some (Some 1);
     LoopTrimmer.end_probe := fun _ => Some (Some 1);
     LoopTrimmer.cleanup_ok := true |}.

(** Probes of a clip whose motion starts between 0.2 s and 0.4 s and
    whose frames all differ from the reference frame by the same amount
    from there on, so that the peak is the first frame of the end scan. *)
Definition early_peak_probes : LoopTrimmer.probes :=
  {| LoopTrimmer.first_frame_ok := true;
     LoopTrimmer.start_probe :=
       fun t => if Py.Qltb t 0.3 then Some (Some 1) else Some (Some 0.5);
     LoopTrimmer.end_probe := fun _ => Some (Some 0.5);
     LoopTrimmer.cleanup_ok := true |}.

(** A manifest item with a path and its two time bounds. *)
Definition timed_item (p : string) (a b : Q) : gmap string Json.jval :=
  {[ "path" := Json.JStr p; "t0" := Json.JNum a; "t1" := Json.JNum b ]}.

(** A manifest of two items with one transition; only [a.mp4] exists. *)
Definition manifest_of_two : LoopTrimmer.manifest :=
  {| LoopTrimmer.items := [timed_item "gone.mp4" 0 5; timed_item "a.mp4" 5 10];
     LoopTrimmer.others :=
       {[ "version" := Json.JStr "smart_v1";
          "transitions" := Json.JList [Json.JStr "gone-to-a"] ]} |}.

Definition only_a_exists (p : string) : bool := String.eqb p "a.mp4".

(** Two takes of a manifest, the second one half a second long, and the
    first one with margins of 0.3 seconds on both sides. *)
Definition two_takes : list (gmap string Json.jval) :=
  [timed_item "a.mp4" 0 2; timed_item "b.mp4" 2 2.5].

(** The existence check on a loaded value when every named file is
    there. *)
Definition sample_exists_raw (v : Json.jval) : option bool :=
  match v with
  | Json.JStr _ => Some true
  | _ => None
  end.

Definition refined_take : gmap string Json.jval :=
  <["clip_end" := Json.JNum 1.7]>
    (<["clip_start" := Json.JNum 0.3]> (timed_item "a.mp4" 0 2)).

(** A manifest whose only item names a file that is not there. *)
Definition manifest_of_missing_file : LoopTrimmer.manifest :=
  {| LoopTrimmer.items := [timed_item "gone.mp4" 0 5];
     LoopTrimmer.others :=
       {[ "version" := Json.JStr "smart_v1";
          "transitions" := Json.JList [] ]} |}.

End Scenario.

(** * Properties *)

(** ** Comparisons and arithmetic of the Python primitives *)

Section PyFacts.

Lemma Qltb_true (x y : Q) : Py.Qltb x y = true <-> x < y.
Proof.
  unfold Py.Qltb. rewrite negb_true_iff, <- not_true_iff_false, Qle_bool_iff.
  split; [apply Qnot_le_lt | apply Qlt_not_le].
Qed.

Lemma Qltb_false (x y : Q) : Py.Qltb x y = false <-> y <= x.
Proof.
  unfold Py.Qltb. rewrite negb_false_iff. apply Qle_bool_iff.
Qed.

Lemma min_cases (a b : Q) :
  (Py.min a b = b /\ b < a) \/ (Py.min a b = a /\ a <= b).
Proof.
  unfold Py.min. destruct (Py.Qltb b a) eqn:E.
  - left. split; [reflexivity | now apply Qltb_true].
  - right. split; [reflexivity | now apply Qltb_false].
Qed.

Lemma max_cases (a b : Q) :
  (Py.max a b = b /\ a < b) \/ (Py.max a b = a /\ b <= a).
Proof.
  unfold Py.max. destruct (Py.Qltb a b) eqn:E.
  - left. split; [reflexivity | now apply Qltb_true].
  - right. split; [reflexivity | now apply Qltb_false].
Qed.

Lemma of_nat_nonneg (n : nat) : 0 <= Py.of_nat n.
Proof.
  unfold Py.of_nat. change 0 with (inject_Z 0). rewrite <- Zle_Qle. lia.
Qed.

Lemma of_nat_pos (n : nat) : n <> O -> 0 < Py.of_nat n.
Proof.
  intros Hn. unfold Py.of_nat. change 0 with (inject_Z 0).
  rewrite <- Zlt_Qlt. lia.
Qed.

Lemma of_nat_0 : Py.of_nat 0 == 0.
Proof. reflexivity. Qed.

Lemma of_nat_S (n : nat) : Py.of_nat (S n) == Py.of_nat n + 1.
Proof.
  unfold Py.of_nat. rewrite Nat2Z.inj_succ. unfold Z.succ.
  now rewrite inject_Z_plus.
Qed.

Lemma of_nat_le (n m : nat) : (n <= m)%nat -> Py.of_nat n <= Py.of_nat m.
Proof. intros H. unfold Py.of_nat. rewrite <- Zle_Qle. lia. Qed.

End PyFacts.

(** ** The greedy ordering of [smart_sequence_clips.py] *)

Module SequencerFacts.
Import Sequencer.

(** The scan either leaves its state alone or elects a candidate that
    sits at the elected index. *)
Lemma scan_elects current_clip remaining : forall i st,
  let '(_, best_clip, best_idx) := scan current_clip i remaining st in
  (best_clip = st.1.2 /\ best_idx = st.2)
  \/ exists c k, best_clip = Some c /\ best_idx = Z.of_nat (i + k)
                 /\ remaining !! k = Some c.
Proof.
  induction remaining as [|candidate rest IH]; intros i [[bs bc] bi]; simpl.
  - left. split; reflexivity.
  - destruct (Py.Qltb bs (calculate_transition_score current_clip candidate)).
    + specialize (IH (S i)
        (calculate_transition_score current_clip candidate, Some candidate,
         Z.of_nat i)).
      destruct (scan _ _ _ _) as [[s' c'] i']. simpl in IH.
      right. destruct IH as [[-> ->] | (c & k & -> & -> & Hk)].
      * exists candidate, O. rewrite Nat.add_0_r. repeat split.
      * exists c, (S k). replace (i + S k)%nat with (S i + k)%nat by lia.
        repeat split. exact Hk.
    + specialize (IH (S i) (bs, bc, bi)).
      destruct (scan _ _ _ _) as [[s' c'] i']. simpl in IH.
      destruct IH as [[-> ->] | (c & k & -> & -> & Hk)].
      * left. split; reflexivity.
      * right. exists c, (S k).
        replace (i + S k)%nat with (S i + k)%nat by lia.
        repeat split. exact Hk.
Qed.

(** The loop finishes within [length remaining] rounds, keeps what is
    already placed as a prefix and places every remaining clip once. *)
Lemma sequence_loop_ok : forall fuel sequence remaining,
  sequence <> [] -> (length remaining <= fuel)%nat ->
  exists placed,
    sequence_loop fuel sequence remaining = Some (sequence ++ placed)
    /\ Permutation remaining placed.
Proof.
  induction fuel as [|fuel IH]; intros sequence remaining Hne Hlen.
  - destruct remaining as [|c r]; [|simpl in Hlen; lia].
    exists []. simpl. rewrite app_nil_r. split; [reflexivity | constructor].
  - destruct remaining as [|first others].
    { exists []. simpl. rewrite app_nil_r. split; [reflexivity | constructor]. }
    cbn [sequence_loop].
    destruct (last sequence) as [current_clip|] eqn:Hlast;
      [|apply last_None in Hlast; contradiction].
    cbn [mbind option_bind].
    pose proof (scan_elects current_clip (first :: others) 0%nat
                  (-1, None, (-1)%Z)) as Hscan.
    destruct (scan _ _ _ _) as [[bs bc] bi]. cbn [fst snd] in Hscan.
    simpl in Hlen.
    destruct Hscan as [[-> ->] | (c & k & -> & -> & Hk)].
    + destruct (IH (sequence ++ [first]) others) as (placed & Hrun & Hperm).
      { intros H. apply app_eq_nil in H. destruct H; discriminate. }
      { lia. }
      exists (first :: placed). rewrite Hrun, <- app_assoc. split.
      * reflexivity.
      * now constructor.
    + rewrite Nat.add_0_l, Nat2Z.id.
      destruct (IH (sequence ++ [c]) (delete k (first :: others)))
        as (placed & Hrun & Hperm).
      { intros H. apply app_eq_nil in H. destruct H; discriminate. }
      { rewrite length_delete by eauto. simpl. lia. }
      exists (c :: placed). rewrite Hrun, <- app_assoc. split.
      * reflexivity.
      * rewrite (delete_Permutation _ _ _ Hk). now constructor.
Qed.

Lemma generate_transitions_length sequence :
  length (generate_transitions sequence) = (length sequence - 1)%nat.
Proof.
  induction sequence as [|a [|b rest] IH]; try reflexivity.
  change (S (length (generate_transitions (b :: rest)))
          = (length (a :: b :: rest) - 1)%nat).
  rewrite IH. simpl. lia.
Qed.

(** The optimizer returns on every input, with a rearrangement of it. *)
Lemma find_optimal_sequence_total (clips : list clip) :
  exists sequence,
    find_optimal_sequence clips = Some sequence /\ Permutation clips sequence.
Proof.
  unfold find_optimal_sequence.
  destruct (Nat.leb (length clips) 1) eqn:Hn; [now exists clips|].
  destruct clips as [|c0 rest]; [discriminate|].
  destruct (sequence_loop_ok (length rest) [c0] rest) as (placed & Hrun & Hp);
    [discriminate | lia |].
  exists (c0 :: placed). split; [exact Hrun | now constructor].
Qed.

(** C3.  On any list of [N] clips the optimizer returns: its result is a
    permutation of the input (each clip placed once, none left out), it
    starts with the first input clip, and [generate_transitions] gives
    [N - 1] transitions for it ([0] when [N <= 1]). *)
Theorem find_optimal_sequence_permutation (clips : list clip) :
  exists sequence,
    find_optimal_sequence clips = Some sequence
    /\ Permutation clips sequence
    /\ head sequence = head clips
    /\ length (generate_transitions sequence) = (length clips - 1)%nat.
Proof.
  assert (Hcount : forall sequence, Permutation clips sequence ->
            length (generate_transitions sequence) = (length clips - 1)%nat).
  { intros s Hp. rewrite generate_transitions_length.
    now rewrite (Permutation_length Hp). }
  unfold find_optimal_sequence.
  destruct (Nat.leb (length clips) 1) eqn:Hn.
  - exists clips. repeat split; auto.
  - destruct clips as [|c0 rest]; [discriminate|].
    destruct (sequence_loop_ok (length rest) [c0] rest) as (placed & Hrun & Hp);
      [discriminate | lia |].
    exists (c0 :: placed). rewrite Hrun.
    assert (Permutation (c0 :: rest) (c0 :: placed)) by now constructor.
    repeat split; auto.
Qed.

End SequencerFacts.

(** ** The transition score *)

Module ScoreFacts.
Import Sequencer Scenario.

Lemma truthy_false (s : string) : Py.truthy s = false <-> s = "".
Proof. destruct s; simpl; split; congruence. Qed.

Lemma subject_term_nonneg a b : 0 <= subject_term a b.
Proof.
  unfold subject_term.
  destruct (String.eqb _ _); [lra|]. destruct (_similar_subjects _ _); lra.
Qed.

Lemma scene_term_nonneg a b : 0 <= scene_term a b.
Proof. unfold scene_term. destruct (String.eqb _ _); lra. Qed.

Lemma lighting_term_nonneg a b : 0 <= lighting_term a b.
Proof.
  unfold lighting_term.
  destruct (String.eqb _ _); [lra|]. destruct (_compatible_lighting _ _); lra.
Qed.

Lemma motion_compatibility_nonneg x y : 0 <= _motion_compatibility x y.
Proof.
  unfold _motion_compatibility.
  repeat match goal with |- context [if ?c then _ else _] => destruct c end;
    lra.
Qed.

Lemma color_harmony_nonneg x y : 0 <= _color_harmony x y.
Proof.
  unfold _color_harmony.
  destruct x as [|cx x]; [lra|]. destruct y as [|cy y]; [lra|].
  destruct (Nat.eqb _ _) eqn:E; [lra|].
  apply Nat.eqb_neq in E.
  apply Qle_shift_div_l; [now apply of_nat_pos|].
  rewrite Qmult_0_l. apply of_nat_nonneg.
Qed.

Lemma score_bounds (clip_a clip_b : clip) :
  0 <= calculate_transition_score clip_a clip_b
  /\ calculate_transition_score clip_a clip_b <= 1.
Proof.
  unfold calculate_transition_score.
  set (end_a := end_frame clip_a). set (start_b := start_frame clip_b).
  pose proof (subject_term_nonneg end_a start_b).
  pose proof (scene_term_nonneg end_a start_b).
  pose proof (lighting_term_nonneg end_a start_b).
  pose proof (motion_compatibility_nonneg (get_str (motion end_a))
                (get_str (motion start_b))).
  pose proof (color_harmony_nonneg (get_list (dominant_colors end_a))
                (get_list (dominant_colors start_b))).
  unfold motion_term, color_term.
  match goal with |- context [Py.min ?a ?b] =>
    destruct (min_cases a b) as [[-> Hlt] | [-> Hle]] end.
  - split; [nra | lra].
  - split; lra.
Qed.

(** A non-empty list without repetition is in full harmony with itself. *)
Lemma color_harmony_self (colors : list string) :
  colors <> [] -> NoDup colors -> _color_harmony colors colors == 1.
Proof.
  intros Hne Hnd. unfold _color_harmony.
  destruct colors as [|c colors]; [contradiction|].
  rewrite Nat.min_id.
  rewrite (intersection_idemp_L (list_to_set (c :: colors) : gset string)).
  rewrite size_list_to_set by exact Hnd.
  destruct (Nat.eqb _ _) eqn:E; [discriminate|].
  apply Qmult_inv_r. intros H.
  pose proof (of_nat_pos (length (c :: colors)) ltac:(discriminate)) as Hp.
  rewrite H in Hp. lra.
Qed.

(** Whether an attribute of the claim is there: present and not empty. *)
Lemma get_str_nonempty (o : option string) :
  get_str o <> "" -> Py.truthy (get_str o) = true.
Proof. destruct (get_str o); [contradiction | reflexivity]. Qed.

(** C8, as stated, fails: every attribute of this clip is present and its
    colour list is not empty, yet the clip scores [0.95] against itself,
    because the colour listed twice counts once in the intersection and
    twice in the length. *)
Lemma self_score_repeated_color :
  let c := uniform_clip "red" twice_red in
  get_str (subject (end_frame c)) <> ""
  /\ get_str (scene_type (end_frame c)) <> ""
  /\ get_str (lighting (end_frame c)) <> ""
  /\ get_str (motion (end_frame c)) <> ""
  /\ get_list (dominant_colors (end_frame c)) <> []
  /\ calculate_transition_score c c == 0.95
  /\ ~ calculate_transition_score c c == 1.0.
Proof.
  cbv zeta. do 5 (split; [cbn; discriminate|]).
  split; vm_compute; [reflexivity | discriminate].
Qed.

(** C8, amended.  The score of any ordered pair lies in [[0, 1]]; a clip
    whose last frame carries the attributes of its first frame, all four
    textual attributes non-empty and the colour list non-empty and free of
    repetitions, scores exactly [1.0] against itself. *)
Theorem score_range_and_self_score (clip_a clip_b : clip) :
  (0 <= calculate_transition_score clip_a clip_b
   /\ calculate_transition_score clip_a clip_b <= 1)
  /\ (end_frame clip_a = start_frame clip_a ->
      get_str (subject (end_frame clip_a)) <> "" ->
      get_str (scene_type (end_frame clip_a)) <> "" ->
      get_str (lighting (end_frame clip_a)) <> "" ->
      get_str (motion (end_frame clip_a)) <> "" ->
      get_list (dominant_colors (end_frame clip_a)) <> [] ->
      NoDup (get_list (dominant_colors (end_frame clip_a))) ->
      calculate_transition_score clip_a clip_a == 1.0).
Proof.
  split; [apply score_bounds|].
  intros Hsame _ _ _ Hmotion Hcolors Hnodup.
  unfold calculate_transition_score. rewrite <- Hsame.
  set (f := end_frame clip_a) in *.
  unfold subject_term, scene_term, lighting_term, motion_term, color_term.
  rewrite !String.eqb_refl.
  unfold _motion_compatibility.
  rewrite (get_str_nonempty _ Hmotion), String.eqb_refl. cbn [negb orb].
  pose proof (color_harmony_self _ Hcolors Hnodup) as Hc.
  match goal with |- Py.min ?a ?b == _ =>
    destruct (min_cases a b) as [[-> Hlt] | [-> Hle]] end.
  - rewrite Hc in Hlt |- *. lra.
  - reflexivity.
Qed.

Lemma score_range_and_self_score_witness :
  calculate_transition_score (uniform_clip "rgb" three_colors)
                             (uniform_clip "rgb" three_colors) == 1.0.
Proof.
  apply (proj2 (score_range_and_self_score (uniform_clip "rgb" three_colors)
                  (uniform_clip "rgb" three_colors)));
    try reflexivity; try (cbn; discriminate).
  refine (bool_decide_unpack _ _). vm_compute. exact I.
Defined.

(** C5, as stated, fails for the subject factor (and likewise for the
    scene type and the lighting): when both subjects are missing the two
    defaults are equal strings and the factor gives its full weight. *)
Lemma missing_subjects_full_weight :
  get_str (subject blank) = ""
  /\ subject_term blank blank == 0.3
  /\ ~ subject_term blank blank == 0.15.
Proof.
  split; [reflexivity|].
  split; vm_compute; [reflexivity | discriminate].
Qed.

Lemma one_missing_eqb x y : one_missing x y -> String.eqb x y = false.
Proof.
  intros [[-> H] | [H ->]]; apply String.eqb_neq; congruence.
Qed.

Lemma one_missing_truthy x y :
  one_missing x y -> negb (Py.truthy x) || negb (Py.truthy y) = true.
Proof.
  intros [[-> _] | [_ ->]]; [reflexivity|]. apply orb_true_r.
Qed.

(** C5, amended.  Scoring is a total function.  A missing or empty motion
    value on either side makes the motion factor contribute [0.075], and a
    missing or empty colour list on either side makes the colour factor
    contribute [0.05]: half of their weights.  The subject, scene-type and
    lighting factors have no midpoint: each contributes its full weight
    ([0.30], [0.25], [0.20]) when both values are missing or empty, and
    nothing when exactly one of them is. *)
Theorem missing_attribute_contributions (end_a start_b : frame) :
  (get_str (motion end_a) = "" \/ get_str (motion start_b) = "" ->
   motion_term end_a start_b == 0.075)
  /\ (get_list (dominant_colors end_a) = []
      \/ get_list (dominant_colors start_b) = [] ->
      color_term end_a start_b == 0.05)
  /\ (get_str (subject end_a) = "" /\ get_str (subject start_b) = "" ->
      subject_term end_a start_b == 0.30)
  /\ (get_str (scene_type end_a) = "" /\ get_str (scene_type start_b) = "" ->
      scene_term end_a start_b == 0.25)
  /\ (get_str (lighting end_a) = "" /\ get_str (lighting start_b) = "" ->
      lighting_term end_a start_b == 0.20)
  /\ (one_missing (get_str (subject end_a)) (get_str (subject start_b)) ->
      subject_term end_a start_b == 0)
  /\ (one_missing (get_str (scene_type end_a)) (get_str (scene_type start_b)) ->
      scene_term end_a start_b == 0)
  /\ (one_missing (get_str (lighting end_a)) (get_str (lighting start_b)) ->
      lighting_term end_a start_b == 0).
Proof.
  repeat apply conj.
  - intros H. unfold motion_term, _motion_compatibility.
    destruct H as [-> | ->]; cbn [Py.truthy negb orb];
      rewrite ?orb_true_r; reflexivity.
  - intros H. unfold color_term, _color_harmony.
    destruct H as [-> | ->]; [reflexivity|].
    destruct (get_list (dominant_colors end_a)); reflexivity.
  - intros [Ha Hb]. unfold subject_term. rewrite Ha, Hb. reflexivity.
  - intros [Ha Hb]. unfold scene_term. rewrite Ha, Hb. reflexivity.
  - intros [Ha Hb]. unfold lighting_term. rewrite Ha, Hb. reflexivity.
  - intros H. unfold subject_term, _similar_subjects.
    rewrite (one_missing_eqb _ _ H), (one_missing_truthy _ _ H). reflexivity.
  - intros H. unfold scene_term. rewrite (one_missing_eqb _ _ H). reflexivity.
  - intros H. unfold lighting_term, _compatible_lighting.
    rewrite (one_missing_eqb _ _ H).
    destruct H as [[-> _] | [_ ->]].
    + change (bool_decide ("" ∈ bright)) with false.
      change (bool_decide ("" ∈ dim)) with false. reflexivity.
    + change (bool_decide ("" ∈ bright)) with false.
      change (bool_decide ("" ∈ dim)) with false.
      rewrite !andb_false_r. reflexivity.
Qed.

Lemma missing_attribute_contributions_witness :
  motion_term blank three_colors == 0.075
  /\ color_term three_colors blank == 0.05
  /\ subject_term blank blank == 0.30
  /\ scene_term blank blank == 0.25
  /\ lighting_term blank blank == 0.20
  /\ subject_term blank three_colors == 0
  /\ scene_term three_colors blank == 0
  /\ lighting_term blank three_colors == 0.
Proof.
  pose proof (missing_attribute_contributions blank three_colors)
    as (Hm & _ & _ & _ & _ & Hs & _ & Hl).
  pose proof (missing_attribute_contributions three_colors blank)
    as (_ & Hc & _ & _ & _ & _ & Hsc & _).
  pose proof (missing_attribute_contributions blank blank)
    as (_ & _ & Hs2 & Hsc2 & Hl2 & _).
  repeat apply conj.
  - apply Hm. left. reflexivity.
  - apply Hc. right. reflexivity.
  - apply Hs2. split; reflexivity.
  - apply Hsc2. split; reflexivity.
  - apply Hl2. split; reflexivity.
  - apply Hs. left. split; [reflexivity | discriminate].
  - apply Hsc. right. split; [discriminate | reflexivity].
  - apply Hl. left. split; [reflexivity | discriminate].
Defined.

(** C7.  From the batch A, B, C (in either input order of B and C) the
    optimizer seeded at A returns [A, B, C]; the two transitions are a
    crossfade from A to B, with a score of [0.675 > 0.5], and a fade to
    black from B to C, with a score of [0.125 <= 0.5]. *)
Theorem three_clip_scenario :
  find_optimal_sequence [clip_A; clip_B; clip_C]
    = Some [clip_A; clip_B; clip_C]
  /\ find_optimal_sequence [clip_A; clip_C; clip_B]
     = Some [clip_A; clip_B; clip_C]
  /\ exists ab bc,
       generate_transitions [clip_A; clip_B; clip_C] = [ab; bc]
       /\ type ab = crossfade /\ 0.5 < score ab /\ score ab == 0.675
       /\ type bc = fade_black /\ score bc <= 0.5 /\ score bc == 0.125.
Proof.
  split; [vm_compute; reflexivity|].
  split; [vm_compute; reflexivity|].
  eexists _, _. split; [reflexivity|].
  repeat split; try (vm_compute; reflexivity).
  vm_compute. discriminate.
Qed.

End ScoreFacts.

(** ** The stable sort *)

Section SortFacts.
Context {A : Type} (leb : A -> A -> bool).

Lemma insert_sorted_perm x l : Permutation (x :: l) (Py.insert_sorted leb x l).
Proof.
  induction l as [|y l IH]; simpl; [reflexivity|].
  destruct (leb x y); [reflexivity|].
  rewrite perm_swap. now constructor.
Qed.

Lemma sorted_perm l : Permutation l (Py.sorted leb l).
Proof.
  induction l as [|x l IH]; simpl; [constructor|].
  rewrite <- insert_sorted_perm. now constructor.
Qed.

Hypothesis leb_total : forall x y, leb x y = false -> leb y x = true.
Hypothesis leb_trans :
  forall x y z, leb x y = true -> leb y z = true -> leb x z = true.

Lemma insert_sorted_sorted x l :
  StronglySorted (fun a b => leb a b = true) l ->
  StronglySorted (fun a b => leb a b = true) (Py.insert_sorted leb x l).
Proof.
  induction 1 as [|y l Hs IH Hall]; simpl.
  - repeat constructor.
  - destruct (leb x y) eqn:E.
    + constructor; [now constructor|].
      constructor; [exact E|].
      eapply Forall_impl; [exact Hall|]. intros z Hz. eauto.
    + constructor; [exact IH|].
      rewrite <- (insert_sorted_perm x l). constructor; auto.
Qed.

Lemma sorted_sorted l :
  StronglySorted (fun a b => leb a b = true) (Py.sorted leb l).
Proof.
  induction l as [|x l IH]; simpl; [constructor|].
  now apply insert_sorted_sorted.
Qed.

End SortFacts.

(** A list whose neighbours are in order is left as it is. *)
Lemma sorted_id {A} (leb : A -> A -> bool) (l : list A) :
  Sorted (fun a b => leb a b = true) l -> Py.sorted leb l = l.
Proof.
  induction 1 as [|x l Hs IH Hhd]; simpl; [reflexivity|].
  rewrite IH. destruct Hhd as [|y l Hxy]; simpl; [reflexivity|].
  now rewrite Hxy.
Qed.

(** The order of strings is transitive. *)
Lemma ascii_compare_lt_trans a b c :
  Ascii.compare a b = Lt -> Ascii.compare b c = Lt -> Ascii.compare a c = Lt.
Proof. unfold Ascii.compare. rewrite !N.compare_lt_iff. lia. Qed.

Lemma string_compare_trans : forall s1 s2 s3,
  String.compare s1 s2 <> Gt -> String.compare s2 s3 <> Gt ->
  String.compare s1 s3 <> Gt.
Proof.
  induction s1 as [|a s1 IH]; intros [|b s2] [|c s3]; simpl; try congruence.
  destruct (Ascii.compare a b) eqn:Eab; try congruence.
  - apply Ascii.compare_eq_iff in Eab. subst b.
    destruct (Ascii.compare a c); try congruence. apply IH.
  - destruct (Ascii.compare b c) eqn:Ebc; try congruence.
    + apply Ascii.compare_eq_iff in Ebc. subst c. rewrite Eab. congruence.
    + rewrite (ascii_compare_lt_trans _ _ _ Eab Ebc). congruence.
Qed.

Lemma string_leb_trans s1 s2 s3 :
  String.leb s1 s2 = true -> String.leb s2 s3 = true -> String.leb s1 s3 = true.
Proof.
  unfold String.leb. intros H1 H2.
  pose proof (string_compare_trans s1 s2 s3) as H.
  destruct (String.compare s1 s2); try discriminate;
    destruct (String.compare s2 s3); try discriminate;
    destruct (String.compare s1 s3); try reflexivity;
    exfalso; apply H; congruence.
Qed.

Lemma string_leb_total s1 s2 :
  String.leb s1 s2 = false -> String.leb s2 s1 = true.
Proof. intros H. destruct (String.leb_total s1 s2); congruence. Qed.

(** ** Time values in [sequence_and_assemble_verbose.py] *)

Module TimeFacts.
Import Json Verbose.

Lemma parse_time_number (q : Q) : parse_time (JNum q) = Some q.
Proof. reflexivity. Qed.

(** A one-element collection stands for its element. *)
Lemma parse_time_singleton_list (v : jval) :
  parse_time (JList [v]) = parse_time v.
Proof. reflexivity. Qed.

(** Looking the keys up in a single-key object finds its value or
    nothing. *)
Lemma first_some_single_key (keys : list string) (k : string) (o : option Q) :
  first_some ((fun key => mjoin (get key [(k, o)])) <$> keys) = None
  \/ first_some ((fun key => mjoin (get key [(k, o)])) <$> keys) = o.
Proof.
  induction keys as [|key keys IH]; [now left|].
  rewrite fmap_cons. unfold get at 1 3.
  destruct (String.eqb key k); [|exact IH].
  destruct o as [x|]; [right; reflexivity | exact IH].
Qed.

(** A single-key object stands for its value, whatever the key. *)
Lemma parse_time_single_key (k : string) (v : jval) :
  parse_time (JObj [(k, v)]) = parse_time v.
Proof.
  cbn [parse_time]. unfold parse_time_dict.
  destruct (first_some_single_key time_keys k (parse_time v)) as [-> | ->].
  - reflexivity.
  - now destruct (parse_time v).
Qed.

(** The representations of sixty-two and a half seconds that resolve to
    that value: a number, a numeric string, a string with a unit, a
    nested object, a one-element list, and a clock string with all three
    fields. *)
Lemma parse_time_representations_agree :
  Forall (fun v => exists secs, parse_time v = Some secs /\ secs == 62.5)
    [JNum 62.5; JStr "62.5"; JStr " 62.5S "; JStr "62500ms";
     JObj [("seconds", JNum 62.5)]; JObj [("value", JStr "62.5s")];
     JList [JNum 62.5]; JStr "0:01:02.5"; JStr "0:1:2.5"].
Proof.
  repeat constructor; eexists; (split; [vm_compute; reflexivity|]);
    vm_compute; reflexivity.
Qed.

(** The examples of the specification other than the clock string. *)
Lemma parse_time_examples :
  (exists secs, parse_time (JStr "12.5s") = Some secs /\ secs == 12.5)
  /\ parse_time (JObj [("seconds", JNum 3)]) = Some 3.
Proof.
  split; [|reflexivity].
  eexists. split; vm_compute; reflexivity.
Qed.

(** The groups that [TIME_RE] captures on a two-field clock string: the
    first field is taken by the hours group, the minutes group is empty. *)
Lemma TIME_RE_two_fields :
  TIME_RE "1:02.5" = Some (Some "1", None, "02.5").
Proof. reflexivity. Qed.

(** C1, at the input where the code departs from it: ["1:02.5"] resolves
    to [3602.5] seconds, one hour and two and a half seconds, where the
    claim has [62.5]. *)
Theorem parse_time_two_field_clock :
  exists secs, parse_time (JStr "1:02.5") = Some secs
               /\ secs == 3602.5 /\ ~ secs == 62.5.
Proof.
  eexists. split; [vm_compute; reflexivity|].
  split; vm_compute; [reflexivity | discriminate].
Qed.

(** [coerce_float] of the other normalizer reads neither units nor clock
    strings. *)
Lemma coerce_float_plain_only :
  Assemble.coerce_float None (JStr "62.5") = Some 62.5
  /\ Assemble.coerce_float None (JStr "12.5s") = None
  /\ Assemble.coerce_float None (JStr "1:02.5") = None.
Proof. repeat split; vm_compute; reflexivity. Qed.

End TimeFacts.

(** ** The sequential fallback and the path check of [main] *)

(** The records of [load_items] are those of its loop. *)
Lemma load_items_records py_str join_videos_in
    (files : list (string * option (list (string * Json.jval)))) :
  (Verbose.load_items py_str join_videos_in files).1
  = (Verbose.load_loop py_str join_videos_in files).1.
Proof. destruct files; reflexivity. Qed.

Module FallbackFacts.
Import Json Verbose.

Section Environment.
Variable path_name : string -> string.
Variable DEFAULT_DUR : Q.

Lemma lacks_time_true (i : item) :
  lacks_time i = true <-> t0 i = None \/ t1 i = None.
Proof.
  unfold lacks_time. rewrite orb_true_iff, !bool_decide_eq_true. tauto.
Qed.

Lemma need_fallback_true (items : list item) :
  existsb lacks_time items = true
  <-> exists i, i ∈ items /\ (t0 i = None \/ t1 i = None).
Proof.
  rewrite existsb_exists. split; intros (i & Hin & H); exists i.
  - rewrite list_elem_of_In, <- lacks_time_true. tauto.
  - rewrite <- list_elem_of_In, lacks_time_true. tauto.
Qed.

Lemma assign_slots_ident t l :
  ident <$> assign_slots DEFAULT_DUR t l = ident <$> l.
Proof.
  revert t. induction l as [|it l IH]; intros t; simpl; [reflexivity|].
  now rewrite IH.
Qed.

Lemma assign_slots_key t l :
  fallback_key path_name <$> assign_slots DEFAULT_DUR t l
  = fallback_key path_name <$> l.
Proof.
  revert t. induction l as [|it l IH]; intros t; simpl; [reflexivity|].
  now rewrite IH.
Qed.

(** The record at position [k] gets the [k]-th window after [t]. *)
Lemma assign_slots_lookup l : forall t k it,
  assign_slots DEFAULT_DUR t l !! k = Some it ->
  exists a b, t0 it = Some a /\ t1 it = Some b
              /\ a == t + Py.of_nat k * DEFAULT_DUR
              /\ b == t + Py.of_nat (S k) * DEFAULT_DUR.
Proof.
  induction l as [|x l IH]; intros t k it H; [discriminate|].
  destruct k as [|k]; simpl in H.
  - injection H as <-. exists t, (t + DEFAULT_DUR).
    split; [reflexivity|]. split; [reflexivity|].
    rewrite of_nat_S, of_nat_0. split; lra.
  - destruct (IH _ _ _ H) as (a & b & Ha & Hb & Ea & Eb).
    exists a, b. split; [exact Ha|]. split; [exact Hb|].
    rewrite Ea, Eb, !of_nat_S. split; lra.
Qed.

Lemma strongly_sorted_by_key (l l' : list item) :
  fallback_key path_name <$> l' = fallback_key path_name <$> l ->
  StronglySorted (key_order path_name) l -> StronglySorted (key_order path_name) l'.
Proof.
  intros Hk Hs. revert l' Hk.
  induction Hs as [|x l Hs IH Hall]; intros [|x' l'] Hk; try discriminate.
  - constructor.
  - rewrite !fmap_cons in Hk. injection Hk as Hx Hl.
    constructor; [now apply IH|].
    apply Forall_forall. intros y' Hy'.
    apply (list_elem_of_fmap_2 (fallback_key path_name)) in Hy'.
    rewrite Hl in Hy'. apply list_elem_of_fmap in Hy' as (y & Ey & Hy).
    unfold key_order. rewrite Hx, Ey.
    rewrite Forall_forall in Hall. now apply Hall.
Qed.

Variable rnd : Q -> Q.

Lemma rounded_slots_ident t l :
  ident <$> Rounded.assign_slots rnd DEFAULT_DUR t l = ident <$> l.
Proof.
  revert t. induction l as [|it l IH]; intros t; simpl; [reflexivity|].
  now rewrite IH.
Qed.

Lemma rounded_slots_key t l :
  fallback_key path_name <$> Rounded.assign_slots rnd DEFAULT_DUR t l
  = fallback_key path_name <$> l.
Proof.
  revert t. induction l as [|it l IH]; intros t; simpl; [reflexivity|].
  now rewrite IH.
Qed.

(** The record at position [k] gets the window that starts after [k]
    additions of the duration to [t]. *)
Lemma rounded_slots_lookup l : forall t k it,
  Rounded.assign_slots rnd DEFAULT_DUR t l !! k = Some it ->
  t0 it = Some (Nat.iter k (fun t => rnd (t + DEFAULT_DUR)) t)
  /\ t1 it = Some (rnd (Nat.iter k (fun t => rnd (t + DEFAULT_DUR)) t
                         + DEFAULT_DUR)).
Proof.
  induction l as [|x l IH]; intros t k it H; [discriminate|].
  destruct k as [|k]; simpl in H.
  - injection H as <-. split; reflexivity.
  - rewrite Nat.iter_succ_r. exact (IH _ _ _ H).
Qed.

(** Without rounding, the rounded fallback is the exact one. *)
Lemma unrounded_fallback (items : list item) :
  Rounded.apply_sequential_fallback (fun q => q) path_name DEFAULT_DUR items
  = apply_sequential_fallback path_name DEFAULT_DUR items.
Proof.
  clear rnd.
  assert (H : forall l t, Rounded.assign_slots (fun q => q) DEFAULT_DUR t l
                          = assign_slots DEFAULT_DUR t l).
  { induction l as [|it l IH]; intros t; simpl; [reflexivity|].
    now rewrite IH. }
  unfold Rounded.apply_sequential_fallback, apply_sequential_fallback.
  now rewrite H.
Qed.

(** C2, amended.  When some record of the batch has no start or no end
    time, the whole batch is re-timed: the output holds the same records,
    ordered by the sort key (the file name of the resolved path, for a
    record that has one), and the record at position [k] gets the window
    from [t_k] to [t_k + D], where [t_0 = 0.0] and [t_(k+1) = t_k + D] in
    the arithmetic of the script, whatever its rounding: each window
    starts where the one before ends.  When every record has both times
    the batch is returned as it is. *)
Theorem sequential_fallback_whole_batch (items : list item) :
  ((exists i, i ∈ items /\ (t0 i = None \/ t1 i = None)) ->
   exists out,
     Rounded.apply_sequential_fallback rnd path_name DEFAULT_DUR items
     = (out, true)
     /\ Permutation (ident <$> items) (ident <$> out)
     /\ StronglySorted (key_order path_name) out
     /\ (forall it p, it ∈ out -> path it = Some p -> p <> "" ->
           fallback_key path_name it = path_name p)
     /\ (forall k it, out !! k = Some it ->
           t0 it = Some (Py.running rnd DEFAULT_DUR k)
           /\ t1 it = Some (rnd (Py.running rnd DEFAULT_DUR k + DEFAULT_DUR))
           /\ t1 it = Some (Py.running rnd DEFAULT_DUR (S k))))
  /\ ((forall i, i ∈ items -> is_Some (t0 i) /\ is_Some (t1 i)) ->
      Rounded.apply_sequential_fallback rnd path_name DEFAULT_DUR items
      = (items, false)).
Proof.
  split.
  - intros Hneed. apply need_fallback_true in Hneed.
    unfold Rounded.apply_sequential_fallback. rewrite Hneed. cbn [negb].
    eexists. split; [reflexivity|].
    set (leb := fun a b : item =>
           String.leb (fallback_key path_name a) (fallback_key path_name b)).
    split; [|split; [|split]].
    + rewrite rounded_slots_ident. apply fmap_Permutation, sorted_perm.
    + eapply strongly_sorted_by_key; [apply rounded_slots_key|].
      apply (sorted_sorted leb).
      * intros x y. apply string_leb_total.
      * intros x y z. apply string_leb_trans.
    + intros it p _ Hp Hne. unfold fallback_key. rewrite Hp.
      destruct p; [contradiction | reflexivity].
    + intros k it Hk.
      destruct (rounded_slots_lookup _ _ _ _ Hk) as [Ha Hb].
      split; [exact Ha|]. split; exact Hb.
  - intros Hall. unfold Rounded.apply_sequential_fallback.
    destruct (existsb lacks_time items) eqn:E; [|reflexivity].
    apply need_fallback_true in E as (i & Hin & Hi).
    destruct (Hall i Hin) as [[a Ha] [b Hb]]. destruct Hi; congruence.
Qed.

Lemma has_path_ident (a b : item) :
  ident a = ident b -> meta a = meta b /\ has_path a = has_path b.
Proof.
  unfold ident, has_path. intros H. injection H as Hm Hp.
  now rewrite Hm, Hp.
Qed.

(** Either branch of the fallback returns the records it was given. *)
Lemma fallback_ident (items : list item) :
  Permutation (ident <$> items)
    (ident <$> (apply_sequential_fallback path_name DEFAULT_DUR items).1).
Proof.
  unfold apply_sequential_fallback.
  destruct (existsb lacks_time items); cbn [negb fst]; [|reflexivity].
  rewrite assign_slots_ident. apply fmap_Permutation, sorted_perm.
Qed.

Lemma analyze_perm (items : list item) : Permutation items (analyze items).
Proof. apply sorted_perm. Qed.

(** Transport of a record along the permutation of identities. *)
Lemma ident_transport (l l' : list item) (x : item) :
  Permutation (ident <$> l) (ident <$> l') -> x ∈ l ->
  exists x', x' ∈ l' /\ ident x' = ident x.
Proof.
  intros Hp Hx. apply (list_elem_of_fmap_2 ident) in Hx.
  rewrite Hp in Hx. apply list_elem_of_fmap in Hx as (x' & E & Hx').
  exists x'. split; [exact Hx' | now symmetry].
Qed.

Lemma main_items_missing_path (raw_items : list item) :
  (exists it, it ∈ raw_items /\ has_path it = false) ->
  exists listed more,
    main_items path_name DEFAULT_DUR raw_items = ExitMissingPath listed more
    /\ listed <> []
    /\ forall m, m ∈ listed ->
         exists it, it ∈ raw_items /\ meta it = m /\ has_path it = false.
Proof.
  intros (bad & Hin & Hbad). unfold main_items.
  pose proof (fallback_ident raw_items) as Hperm.
  destruct (apply_sequential_fallback path_name DEFAULT_DUR raw_items)
    as [items used]. cbn [fst] in Hperm.
  destruct (ident_transport _ _ _ Hperm Hin) as (bad' & Hin' & E).
  apply has_path_ident in E as [_ E].
  assert (Hmiss : bad' ∈ filter (fun it => has_path it = false) items).
  { apply list_elem_of_filter. split; [congruence | exact Hin']. }
  destruct (filter (fun it => has_path it = false) items)
    as [|m0 missing] eqn:Hf; [inversion Hmiss|].
  eexists _, _. split; [reflexivity|]. split; [discriminate|].
  intros m Hm. apply list_elem_of_fmap in Hm as (x & -> & Hx).
  apply list_elem_of_lookup in Hx as (i & Hx).
  apply lookup_take_Some in Hx as [Hx _].
  apply list_elem_of_lookup_2 in Hx. rewrite <- Hf in Hx.
  apply list_elem_of_filter in Hx as [Hxp Hxin].
  symmetry in Hperm.
  destruct (ident_transport _ _ _ Hperm Hxin) as (it & Hit & E').
  apply has_path_ident in E' as [Em Ep].
  exists it. repeat split; congruence.
Qed.

Lemma main_items_all_paths (raw_items : list item) :
  (forall it, it ∈ raw_items -> has_path it = true) -> raw_items <> [] ->
  exists manifest,
    main_items path_name DEFAULT_DUR raw_items = WroteManifest manifest
    /\ Permutation (ident <$> raw_items) (ident <$> manifest).
Proof.
  intros Hall Hne. unfold main_items.
  pose proof (fallback_ident raw_items) as Hperm.
  destruct (apply_sequential_fallback path_name DEFAULT_DUR raw_items)
    as [items used]. cbn [fst] in Hperm.
  assert (Hnone : filter (fun it => has_path it = false) items = []).
  { destruct (filter _ items) as [|x l] eqn:Hf; [reflexivity|].
    assert (Hx : x ∈ filter (fun it => has_path it = false) items)
      by (rewrite Hf; left).
    apply list_elem_of_filter in Hx as [Hxp Hxin]. symmetry in Hperm.
    destruct (ident_transport _ _ _ Hperm Hxin) as (it & Hit & E).
    apply has_path_ident in E as [_ E]. specialize (Hall it Hit). congruence. }
  rewrite Hnone.
  pose proof (analyze_perm items) as Han.
  destruct (analyze items) as [|x l] eqn:Ea.
  - apply Permutation_sym, Permutation_nil in Han. subst items.
    apply Permutation_sym, Permutation_nil, fmap_nil_inv in Hperm.
    contradiction.
  - eexists. split; [reflexivity|].
    rewrite Hperm. now apply fmap_Permutation.
Qed.

Variable py_str : jval -> string.
Variable join_videos_in : string -> string.

(** A file whose object gives no path yields a record without a path. *)
Lemma load_items_unresolved files jp raw :
  (jp, Some raw) ∈ files -> resolve_path py_str join_videos_in (normalise raw) = None ->
  exists it, it ∈ (load_items py_str join_videos_in files).1
             /\ meta it = jp /\ has_path it = false.
Proof.
  intros Hin Hnone. rewrite load_items_records.
  induction files as [|[jp' raw'] files IH]; [inversion Hin|].
  simpl. destruct (load_loop py_str join_videos_in files) as [its probs] eqn:E.
  apply elem_of_cons in Hin as [Heq | Hin].
  - injection Heq as <- <-. cbn [fst]. eexists. split; [left|].
    split; [reflexivity|]. unfold has_path. cbn [path]. now rewrite Hnone.
  - destruct (IH Hin) as (it & Hit & Hm & Hp). cbn [fst] in Hit.
    exists it. destruct raw'; cbn [fst]; repeat split; auto. now right.
Qed.

(** The records without a path, through a permutation of the batch. *)
Lemma missing_path_perm (l l' : list item) :
  Permutation (ident <$> l) (ident <$> l') ->
  Permutation (ident <$> filter (fun it => has_path it = false) l)
              (ident <$> filter (fun it => has_path it = false) l').
Proof.
  clear path_name DEFAULT_DUR rnd.
  set (P := fun id : string * option string =>
              match id.2 with
              | Some p => Py.truthy p
              | None => false
              end = false).
  assert (Hf : forall l0 : list item,
            ident <$> filter (fun it => has_path it = false) l0
            = filter P (ident <$> l0)).
  { induction l0 as [|x l0 IH]; [reflexivity|].
    rewrite fmap_cons, !filter_cons.
    assert (Hx : has_path x = false <-> P (ident x)) by reflexivity.
    destruct (decide (has_path x = false)) as [Hy | Hn];
      destruct (decide (P (ident x))) as [Hy' | Hn']; try tauto.
    now rewrite fmap_cons, IH. }
  intros Hperm. rewrite !Hf. now rewrite Hperm.
Qed.

Lemma main_items_empty :
  main_items path_name DEFAULT_DUR [] = RaiseIndexError.
Proof. reflexivity. Qed.

(** C6, amended.  A batch with a record that has no resolvable path is
    not processed further: [main] reports the metadata files of the first
    ten such records, in the order in which the fallback leaves the batch
    (the order of the batch itself when every record has its times), with
    the number of the others, and exits with status 3 without writing a
    manifest, whatever the other records are.  A manifest is written
    exactly when the batch is not empty and every record has a path, and
    then from all the records; an empty batch ends in [IndexError]. *)
Theorem missing_path_aborts_batch
    (files : list (string * option (list (string * jval)))) :
  let raw_items := (load_items py_str join_videos_in files).1 in
  let missing :=
    filter (fun it => has_path it = false)
           (apply_sequential_fallback path_name DEFAULT_DUR raw_items).1 in
  ((exists it, it ∈ raw_items /\ has_path it = false) ->
   main py_str join_videos_in path_name DEFAULT_DUR files
   = ExitMissingPath (meta <$> take 10 missing) (length missing - 10)
   /\ missing <> []
   /\ Permutation (ident <$> missing)
        (ident <$> filter (fun it => has_path it = false) raw_items)
   /\ ((forall i, i ∈ raw_items -> is_Some (t0 i) /\ is_Some (t1 i)) ->
       missing = filter (fun it => has_path it = false) raw_items))
  /\ ((exists manifest,
         main py_str join_videos_in path_name DEFAULT_DUR files
         = WroteManifest manifest)
      <-> raw_items <> []
          /\ forall it, it ∈ raw_items -> has_path it = true)
  /\ (forall manifest,
        main py_str join_videos_in path_name DEFAULT_DUR files
        = WroteManifest manifest ->
        Permutation (ident <$> raw_items) (ident <$> manifest))
  /\ (raw_items = [] ->
      main py_str join_videos_in path_name DEFAULT_DUR files
      = RaiseIndexError).
Proof.
  clear rnd. cbv zeta. unfold main.
  set (raw_items := (load_items py_str join_videos_in files).1).
  assert (Hbad : (exists it, it ∈ raw_items /\ has_path it = false) ->
                 forall manifest,
                   main_items path_name DEFAULT_DUR raw_items
                   <> WroteManifest manifest).
  { intros H manifest.
    destruct (main_items_missing_path raw_items H) as (l & m & -> & _).
    discriminate. }
  split; [|split; [|split]].
  - intros Hex.
    pose proof (fallback_ident raw_items) as Hperm.
    assert (Hmiss : Permutation
              (ident <$> filter (fun it => has_path it = false)
                           (apply_sequential_fallback path_name DEFAULT_DUR
                              raw_items).1)
              (ident <$> filter (fun it => has_path it = false) raw_items))
      by (apply missing_path_perm; now symmetry).
    assert (Hne : filter (fun it => has_path it = false)
                    (apply_sequential_fallback path_name DEFAULT_DUR
                       raw_items).1 <> []).
    { intros Hnil. rewrite Hnil in Hmiss.
      apply Permutation_nil, fmap_nil_inv in Hmiss.
      destruct Hex as (it & Hin & Hp).
      assert (Hit : it ∈ filter (fun it => has_path it = false) raw_items)
        by (apply list_elem_of_filter; now split).
      rewrite Hmiss in Hit. inversion Hit. }
    split; [|split; [exact Hne|split; [exact Hmiss|]]].
    + unfold main_items.
      destruct (apply_sequential_fallback path_name DEFAULT_DUR raw_items)
        as [items used]. cbn [fst] in *.
      destruct (filter (fun it => has_path it = false) items) as [|x l];
        [contradiction | reflexivity].
    + intros Hall. unfold apply_sequential_fallback.
      destruct (existsb lacks_time raw_items) eqn:E; [|reflexivity].
      apply need_fallback_true in E as (i & Hin & Hi).
      destruct (Hall i Hin) as [[a Ha] [b Hb]]. destruct Hi; congruence.
  - split.
    + intros (manifest & Hrun).
      split.
      * intros Hnil. rewrite Hnil, main_items_empty in Hrun. discriminate.
      * intros it Hin. destruct (has_path it) eqn:Hp; [reflexivity|].
        exfalso. apply (Hbad (ex_intro _ it (conj Hin Hp)) manifest Hrun).
    + intros [Hne Hall].
      destruct (main_items_all_paths raw_items Hall Hne) as (m & Hm & _).
      now exists m.
  - intros manifest Hrun.
    assert (Hall : forall it, it ∈ raw_items -> has_path it = true).
    { intros it Hin. destruct (has_path it) eqn:Hp; [reflexivity|].
      exfalso. apply (Hbad (ex_intro _ it (conj Hin Hp)) manifest Hrun). }
    assert (Hne : raw_items <> []).
    { intros Hnil. rewrite Hnil, main_items_empty in Hrun. discriminate. }
    destruct (main_items_all_paths raw_items Hall Hne) as (m & Hm & Hperm).
    rewrite Hm in Hrun. injection Hrun as <-. exact Hperm.
  - intros ->. apply main_items_empty.
Qed.

End Environment.

Import Scenario.

Lemma sequential_fallback_whole_batch_witness :
  exists out,
    Rounded.apply_sequential_fallback Binary64.round sample_name 2.0
      batch_one_without_time
    = (out, true)
    /\ meta <$> out = ["a.json"; "z.json"]
    /\ forall k it, out !! k = Some it ->
         t0 it = Some (Py.running Binary64.round 2.0 k)
         /\ t1 it = Some (Binary64.round
                            (Py.running Binary64.round 2.0 k + 2.0))
         /\ t1 it = Some (Py.running Binary64.round 2.0 (S k)).
Proof.
  destruct (proj1 (sequential_fallback_whole_batch sample_name 2.0
                     Binary64.round batch_one_without_time))
    as (out & Hrun & _ & _ & _ & Htimes).
  - eexists. split; [left | right; reflexivity].
  - exists out. split; [exact Hrun|]. split; [|exact Htimes].
    vm_compute in Hrun. injection Hrun as <-. reflexivity.
Defined.

(** C2, as stated, fails in the arithmetic of Python: with a default
    duration of [1.1] the record at position [6] of a re-timed batch starts
    at the running sum [6.6], which is neither the product [6 * 1.1] as a
    float ([6.6000000000000005]) nor six times the duration as a real
    number. *)
Lemma fallback_slot_is_not_a_multiple :
  exists out it a,
    Rounded.apply_sequential_fallback Binary64.round sample_name
      (Binary64.round 1.1) seven_untimed
    = (out, true)
    /\ out !! 6%nat = Some it
    /\ t0 it = Some a
    /\ a == Binary64.round 6.6
    /\ ~ a == Binary64.round (6 * Binary64.round 1.1)
    /\ ~ a == 6 * Binary64.round 1.1.
Proof.
  eexists _, _, _. split; [vm_compute; reflexivity|].
  split; [reflexivity|]. split; [reflexivity|].
  split; [vm_compute; reflexivity|].
  split; vm_compute; discriminate.
Qed.

(** C6, as stated, fails: the first record of this batch has a path, the
    second has none, and [main] exits with status 3 after naming the
    second file; no manifest is written from the first record. *)
Lemma record_without_path_stops_main :
  (exists it, it ∈ (Verbose.load_items sample_str sample_join
                      batch_one_without_path).1
              /\ has_path it = true)
  /\ main sample_str sample_join sample_name 2.0 batch_one_without_path
     = ExitMissingPath ["b.json"] 0
  /\ forall manifest,
       main sample_str sample_join sample_name 2.0 batch_one_without_path
       <> WroteManifest manifest.
Proof.
  split; [|split].
  - eexists. split; [left | reflexivity].
  - vm_compute. reflexivity.
  - intros manifest. vm_compute. discriminate.
Qed.

Lemma missing_path_aborts_batch_witness :
  main sample_str sample_join sample_name 2.0 batch_one_without_path
  = ExitMissingPath
      (meta <$> take 10
         (filter (fun it => has_path it = false)
            (apply_sequential_fallback sample_name 2.0
               (load_items sample_str sample_join batch_one_without_path).1).1))
      (length
         (filter (fun it => has_path it = false)
            (apply_sequential_fallback sample_name 2.0
               (load_items sample_str sample_join batch_one_without_path).1).1)
       - 10).
Proof.
  apply (proj1 (missing_path_aborts_batch sample_name 2.0 sample_str
                  sample_join batch_one_without_path)).
  eexists. split; [right; left | reflexivity].
Defined.

End FallbackFacts.

(** ** The clean motion segment of [smart_loop_trimmer.py] *)

Module SegmentFacts.
Import LoopTrimmer Scenario.

(** C4, as stated, fails in the arithmetic of Python, in two ways.  For
    a one-second clip whose frames all match the reference frame the
    segment starts at [0.1] and ends at [1.1], beyond [0.85] of the clip.
    For a five-second clip whose motion starts at [0.4] and peaks at the
    first frame of the end scan, the end is raised to [0.4 + 1.0] and the
    clean duration is the float [(0.4 + 1.0) - 0.4], which is less than
    [1.0]. *)
Lemma segment_bounds_fail :
  (let '(motion_start, clean_duration, _) :=
     Rounded.find_clean_motion_segment Binary64.round still_probes 1 in
   motion_start == Binary64.round 0.1
   /\ ~ motion_start + clean_duration <= 0.85 * 1)
  /\ (let '(motion_start, clean_duration, _) :=
        Rounded.find_clean_motion_segment Binary64.round early_peak_probes 5 in
      motion_start == Binary64.round 0.4
      /\ clean_duration == 9007199254740991 # 9007199254740992
      /\ clean_duration < 1.0).
Proof.
  split; vm_compute.
  - split; [reflexivity|]. intros H. now apply H.
  - split; [reflexivity|]. split; reflexivity.
Qed.

(** C4, amended.  With the reference frame extracted and the temporary
    frames removed, the detector returns a start of at least
    [duration * 0.05] and a clean duration [motion_end - motion_start] for
    an end that is at least [motion_start + 1.0] and that is at most
    [duration * 0.85] unless it is [motion_start + 1.0] itself; otherwise
    it returns [(duration * 0.2, duration * 0.6, 0.0)].  Each operation is
    the float operation of the code, whatever its rounding [rnd]; when the
    rounding is monotone and the duration is not negative, the start is at
    least [duration * 0.05] in both cases. *)
Theorem clean_segment_bounds (rnd : Q -> Q) (env : probes) (d : Q) :
  let '(motion_start, clean_duration, motion_strength) :=
    Rounded.find_clean_motion_segment rnd env d in
  (first_frame_ok env = true -> cleanup_ok env = true ->
   rnd (d * rnd 0.05) <= motion_start
   /\ exists motion_end,
        clean_duration = rnd (motion_end - motion_start)
        /\ rnd (motion_start + rnd 1.0) <= motion_end
        /\ (motion_end <= rnd (d * rnd 0.85)
            \/ motion_end = rnd (motion_start + rnd 1.0)))
  /\ (first_frame_ok env = false \/ cleanup_ok env = false ->
      motion_start = rnd (d * rnd 0.2)
      /\ clean_duration = rnd (d * rnd 0.6)
      /\ motion_strength = rnd 0.0)
  /\ ((forall x y, x <= y -> rnd x <= rnd y) -> 0 <= d ->
      rnd (d * rnd 0.05) <= motion_start).
Proof.
  unfold Rounded.find_clean_motion_segment, Rounded.fallback_segment.
  assert (Hfall : (forall x y, x <= y -> rnd x <= rnd y) -> 0 <= d ->
                  rnd (d * rnd 0.05) <= rnd (d * rnd 0.2)).
  { intros Hmono Hd. apply Hmono.
    assert (H : rnd 0.05 <= rnd 0.2) by (apply Hmono; lra).
    nra. }
  destruct (first_frame_ok env); cbn [negb].
  2:{ split; [discriminate|]. split; [now intros _|exact Hfall]. }
  set (ms := Rounded.start_scan rnd env d (rnd (d * rnd 0.1))
               [rnd 0.2; rnd 0.4; rnd 0.6; rnd 0.8; rnd 1.0]).
  destruct (Rounded.end_scan rnd env _ _) as [me md].
  destruct (cleanup_ok env).
  2:{ split; [discriminate|]. split; [now intros _|exact Hfall]. }
  assert (Hstart : rnd (d * rnd 0.05) <= Py.max ms (rnd (d * rnd 0.05))).
  { destruct (max_cases ms (rnd (d * rnd 0.05))) as [[-> _] | [-> H]];
      [apply Qle_refl | exact H]. }
  split; [|split; [intros [H | H]; discriminate | intros _ _; exact Hstart]].
  intros _ _. split; [exact Hstart|].
  eexists. split; [reflexivity|].
  set (start := Py.max ms (rnd (d * rnd 0.05))).
  set (stop := Py.min me (rnd (d * rnd 0.85))).
  destruct (max_cases stop (rnd (start + rnd 1.0))) as [[-> H] | [-> H]].
  - split; [apply Qle_refl | now right].
  - split; [exact H|]. left. subst stop.
    destruct (min_cases me (rnd (d * rnd 0.85))) as [[-> _] | [-> Hle]];
      [apply Qle_refl | exact Hle].
Qed.

Lemma clean_segment_bounds_witness :
  (let '(motion_start, clean_duration, _) :=
     Rounded.find_clean_motion_segment Binary64.round early_peak_probes 5 in
   Binary64.round (5 * Binary64.round 0.05) <= motion_start
   /\ exists motion_end,
        clean_duration = Binary64.round (motion_end - motion_start)
        /\ Binary64.round (motion_start + Binary64.round 1.0) <= motion_end
        /\ (motion_end <= Binary64.round (5 * Binary64.round 0.85)
            \/ motion_end = Binary64.round (motion_start + Binary64.round 1.0)))
  /\ (let '(motion_start, _, _) :=
        Rounded.find_clean_motion_segment (fun q => q) still_probes 5 in
      0.25 <= motion_start).
Proof.
  split.
  - pose proof (clean_segment_bounds Binary64.round early_peak_probes 5) as H.
    destruct (Rounded.find_clean_motion_segment Binary64.round
                early_peak_probes 5) as [[s c] m].
    destruct H as (H & _ & _). apply H; reflexivity.
  - pose proof (clean_segment_bounds (fun q => q) still_probes 5) as H.
    destruct (Rounded.find_clean_motion_segment (fun q => q) still_probes 5)
      as [[s c] m].
    destruct H as (_ & _ & H).
    assert (Hs : 5 * 0.05 <= s)
      by (apply H; [intros x y Hxy; exact Hxy | discriminate]).
    lra.
Defined.

End SegmentFacts.

(** ** The playback order of the stitching scripts *)

Module StitchFacts.
Import Json Stitch Scenario.

Lemma keyed_items (items : list (gmap string jval)) : forall keys keyed,
  mapM keyf items = Some keys ->
  mapM (fun it => (fun k => (k, it)) <$> keyf it) items = Some keyed ->
  fst <$> keyed = keys /\ snd <$> keyed = items.
Proof.
  induction items as [|it items IH]; intros keys keyed Hk Hkd.
  - cbn in Hk, Hkd. injection Hk as <-. injection Hkd as <-. now split.
  - cbn in Hk, Hkd.
    destruct (keyf it) as [k|]; [|discriminate]. cbn in Hk, Hkd.
    destruct (mapM keyf items) as [ks|]; [|discriminate].
    destruct (mapM _ items) as [kd|]; [|discriminate].
    cbn in Hk, Hkd. injection Hk as <-. injection Hkd as <-.
    destruct (IH ks kd eq_refl eq_refl) as [<- <-]. now split.
Qed.

Lemma keyed_total (items : list (gmap string jval)) keys :
  mapM keyf items = Some keys ->
  exists keyed,
    mapM (fun it => (fun k => (k, it)) <$> keyf it) items = Some keyed.
Proof.
  revert keys. induction items as [|it items IH]; intros keys Hk.
  - now exists [].
  - cbn in Hk |- *. destruct (keyf it) as [k|]; [|discriminate]. cbn in Hk |- *.
    destruct (mapM keyf items) as [ks|]; [|discriminate].
    destruct (IH ks eq_refl) as (kd & ->). cbn. eauto.
Qed.

Lemma Sorted_fst {A B} (R : A -> A -> Prop) (l : list (A * B)) :
  Sorted R (fst <$> l) -> Sorted (fun a b => R (fst a) (fst b)) l.
Proof.
  induction l as [|x l IH]; intros H; [constructor|].
  rewrite fmap_cons in H. inversion H as [|? ? Hs Hhd]; subst.
  constructor; [now apply IH|].
  destruct l as [|y l]; constructor. now inversion Hhd.
Qed.

(** Every listed file exists when nothing is missing. *)
Lemma filter_none_missing (path_exists : string -> bool) (paths : list string) :
  filter (fun p => path_exists p = false) paths = [] ->
  filter (fun p => path_exists p = true) paths = paths.
Proof.
  induction paths as [|p paths IH]; [reflexivity|].
  rewrite !filter_cons.
  destruct (path_exists p) eqn:E; repeat case_decide; try congruence.
  intros Hrest. now rewrite IH.
Qed.

Lemma plan_paths (items : list (gmap string jval)) :
  (fun entry : option jval * jval * jval => entry.1.1)
    <$> ((fun item : gmap string jval =>
            (item !! "path", default (JNum 0.0) (item !! "start_trim"),
             default (JNum 5.0) (item !! "clean_duration"))) <$> items)
  = (fun item => item !! "path") <$> items.
Proof.
  induction items as [|item items IH]; [reflexivity|].
  rewrite !fmap_cons, IH. reflexivity.
Qed.

(** C9, as stated, fails for [stitch_from_manifest.py]: the manifest lists
    [b.mp4] before [a.mp4], and the concat list has [a.mp4] first, because
    the items are sorted by their time bounds. *)
Lemma stitch_reorders_by_time :
  let manifest := [timed_item "b.mp4" 2 4; timed_item "a.mp4" 0 2] in
  listed_paths sample_str manifest = ["b.mp4"; "a.mp4"]
  /\ main sample_str (fun _ => true) manifest = Concat ["a.mp4"; "b.mp4"].
Proof. split; vm_compute; reflexivity. Qed.

(** C9, amended.  [create_trimmed_video] feeds the items to the concat
    filter in the order of the manifest.  [stitch_from_manifest.py] first
    sorts the items by [(t0, t1)]: its concat list follows the manifest
    order when the items of the manifest are already in that time order. *)
Theorem playback_order_of_stitchers :
  (forall manifest_data plan,
     LoopTrimmer.create_trimmed_video manifest_data = Some plan ->
     (fun entry => entry.1.1) <$> plan
     = (fun item => item !! "path") <$> LoopTrimmer.items manifest_data)
  /\ (forall py_str path_exists items keys,
        mapM keyf items = Some keys ->
        Sorted (fun a b => Verbose.key_leb a b = true) keys ->
        sort_items items = Some items
        /\ forall files,
             main py_str path_exists items = Concat files ->
             files = listed_paths py_str items).
Proof.
  split.
  - intros manifest_data plan. unfold LoopTrimmer.create_trimmed_video.
    destruct (LoopTrimmer.items manifest_data) as [|item items] eqn:E;
      [discriminate|].
    intros H. injection H as <-. apply (plan_paths (item :: items)).
  - intros py_str path_exists items keys Hkeys Hsorted.
    assert (Hsort : sort_items items = Some items).
    { unfold sort_items. destruct (keyed_total items keys Hkeys) as (kd & Hkd).
      rewrite Hkd. cbn [mbind option_bind].
      destruct (keyed_items items keys kd Hkeys Hkd) as [Hfst Hsnd].
      rewrite sorted_id; [now rewrite Hsnd|].
      apply (Sorted_fst (fun a b => Verbose.key_leb a b = true)).
      now rewrite Hfst. }
    split; [exact Hsort|].
    intros files. unfold main. destruct items as [|it items]; [discriminate|].
    rewrite Hsort.
    set (paths := listed_paths py_str (it :: items)).
    destruct (filter (fun p => path_exists p = false) paths) eqn:Hmiss;
      [|discriminate].
    rewrite (filter_none_missing _ _ Hmiss).
    destruct paths; [discriminate|]. intros H. now injection H as <-.
Qed.

Lemma playback_order_of_stitchers_witness :
  let manifest := [timed_item "a.mp4" 0 2; timed_item "b.mp4" 2 4] in
  sort_items manifest = Some manifest.
Proof.
  cbv zeta.
  refine (proj1 (proj2 playback_order_of_stitchers sample_str (fun _ => true)
                   _ [(0, 2); (2, 4)] _ _)).
  - vm_compute. reflexivity.
  - repeat constructor.
Defined.

End StitchFacts.

(** ** The loop-refinement pass over a manifest *)

Module RefineFacts.
Import Json LoopTrimmer Scenario.

Section Environment.
Variable path_exists : string -> bool.
Variable ffprobe_duration : string -> option Q.
Variable video_probes : string -> probes.

(** The refined item: the four new fields, the new [t1], and every other
    field as it was. *)
Lemma refine_item_fields (item : gmap string jval) video_path t0 :
  let original_duration := get_video_duration ffprobe_duration video_path in
  let '(start_trim, clean_duration, motion_strength) :=
    find_clean_motion_segment (video_probes video_path) original_duration in
  let new_item :=
    (refine_item ffprobe_duration video_probes item video_path t0).1 in
  new_item !! "original_duration" = Some (JNum original_duration)
  /\ new_item !! "start_trim" = Some (JNum start_trim)
  /\ new_item !! "clean_duration" = Some (JNum clean_duration)
  /\ new_item !! "motion_strength" = Some (JNum motion_strength)
  /\ new_item !! "t1" = Some (JNum (t0 + clean_duration))
  /\ forall k,
       k ∉ ["original_duration"; "start_trim"; "clean_duration";
            "motion_strength"; "t1"] ->
       new_item !! k = item !! k.
Proof.
  cbv zeta. unfold refine_item.
  destruct (find_clean_motion_segment _ _) as [[start_trim clean] strength].
  cbn [fst].
  repeat split; try (by simplify_map_eq).
  intros k Hk. rewrite !lookup_insert_ne; [reflexivity|..];
    intros Heq; subst k; apply Hk; set_solver.
Qed.

(** When the loop finishes, its result is the refined copies of the
    kept items, in the order of the input, after what was there. *)
Lemma process_items_order (items : list (gmap string jval)) :
  forall acc out saved,
    process_items path_exists ffprobe_duration video_probes items acc
      = Some (out, saved) ->
    out = acc.1
          ++ omap (refine_or_drop path_exists ffprobe_duration video_probes)
                  items.
Proof.
  induction items as [|item items IH]; intros [done total] out saved H.
  - cbn in H. injection H as <- <-. cbn. now rewrite app_nil_r.
  - cbn [process_items] in H. cbn [omap list_omap]. unfold refine_or_drop at 1.
    destruct (item !! "path") as [[|b|q|video_path|l|kv]|];
      try (apply IH in H; exact H);
      try (destruct (falsy _); [apply IH in H; exact H | discriminate]).
    destruct (Py.truthy video_path && path_exists video_path) eqn:E.
    + apply andb_true_iff in E as [E1 E2]. rewrite E1, E2 in H.
      cbn [negb orb] in H.
      destruct (item !! "t0") as [[| |t0| | |]|]; try discriminate.
      destruct (refine_item _ _ item video_path t0) as [new_item trimmed].
      apply IH in H. cbn [fst] in H |- *. now rewrite <- app_assoc in H.
    + assert (negb (Py.truthy video_path) || negb (path_exists video_path)
              = true) as Hskip.
      { apply andb_false_iff in E as [E1 | E2]; [now rewrite E1|].
        rewrite E2. apply orb_true_r. }
      rewrite Hskip in H. apply IH in H.
      destruct (item !! "t0") as [[| | | | |]|]; exact H.
Qed.

(** The loop does not raise on well-formed items. *)
Lemma process_items_total (items : list (gmap string jval)) :
  Forall (well_formed path_exists) items ->
  forall acc,
    is_Some (process_items path_exists ffprobe_duration video_probes items acc).
Proof.
  induction 1 as [|item items Hwf _ IH]; intros [done total]; [now eexists|].
  cbn [process_items]. unfold well_formed in Hwf.
  destruct (item !! "path") as [[| | |video_path| |]|];
    try contradiction; try apply IH.
  destruct (Py.truthy video_path && path_exists video_path) eqn:E.
  - destruct (Hwf eq_refl) as (t0 & ->).
    apply andb_true_iff in E as [E1 E2]. rewrite E1, E2. cbn [negb orb].
    destruct (refine_item _ _ item video_path t0). apply IH.
  - replace (negb (Py.truthy video_path) || negb (path_exists video_path))
      with true; [apply IH|].
    apply andb_false_iff in E as [E1 | E2]; [now rewrite E1|].
    rewrite E2. now rewrite orb_true_r.
Qed.

End Environment.

(** C10, at the input where the code departs from it: the only item of
    the manifest names a file that does not exist.  The item is dropped
    and the manifest is written with its transitions untouched, but the
    pass then raises, dividing the saved time by the number of kept items,
    which is zero. *)
Theorem dropping_every_item_raises
    (ffprobe_duration : string -> option Q) (video_probes : string -> probes) :
  exists written,
    process_smart_manifest_with_loop_detection (fun _ => false)
      ffprobe_duration video_probes manifest_of_missing_file
    = RaisedAfterWrite written
    /\ items written = []
    /\ others written !! "transitions"
       = others manifest_of_missing_file !! "transitions".
Proof.
  eexists. split; [reflexivity|]. split; reflexivity.
Qed.

End RefineFacts.

(** ** The greedy choice and the smart manifest *)

Module GreedyFacts.
Import Sequencer.

(** The scan elects the first candidate among those with the highest
    score, provided that score beats the initial best score; otherwise it
    leaves its state alone. *)
Lemma scan_first_maximum current_clip remaining : forall i st,
  let '(best_score, best_clip, best_idx) :=
    scan current_clip i remaining st in
  (best_score = st.1.1 /\ best_clip = st.1.2 /\ best_idx = st.2
   /\ Forall (fun c => calculate_transition_score current_clip c <= st.1.1)
             remaining)
  \/ exists c k,
       best_clip = Some c /\ best_idx = Z.of_nat (i + k)
       /\ remaining !! k = Some c
       /\ best_score = calculate_transition_score current_clip c
       /\ st.1.1 < best_score
       /\ (forall k' c', (k' < k)%nat -> remaining !! k' = Some c' ->
             calculate_transition_score current_clip c' < best_score)
       /\ Forall (fun c' => calculate_transition_score current_clip c'
                            <= best_score) remaining.
Proof.
  induction remaining as [|candidate rest IH]; intros i [[bs bc] bi].
  - left. cbn. repeat split; constructor.
  - cbn [scan].
    destruct (Py.Qltb bs (calculate_transition_score current_clip candidate))
      eqn:E.
    + apply Qltb_true in E.
      specialize (IH (S i)
        (calculate_transition_score current_clip candidate, Some candidate,
         Z.of_nat i)).
      destruct (scan _ _ _ _) as [[s' c'] i']. cbn [fst snd] in IH |- *.
      right.
      destruct IH as [(-> & -> & -> & Hall)
                     | (c & k & -> & -> & Hk & -> & Hlt & Hearly & Hall)].
      * exists candidate, O. rewrite Nat.add_0_r.
        repeat split; auto; [intros k' c'; lia|].
        constructor; [apply Qle_refl | exact Hall].
      * exists c, (S k). replace (i + S k)%nat with (S i + k)%nat by lia.
        repeat split; auto.
        -- now apply Qlt_trans with (calculate_transition_score current_clip
                                       candidate).
        -- intros [|k'] c' Hk' Hc'.
           ++ injection Hc' as <-. exact Hlt.
           ++ apply (Hearly k'); [lia | exact Hc'].
        -- constructor; [now apply Qlt_le_weak | exact Hall].
    + apply Qltb_false in E. specialize (IH (S i) (bs, bc, bi)).
      destruct (scan _ _ _ _) as [[s' c'] i']. cbn [fst snd] in IH |- *.
      destruct IH as [(-> & -> & -> & Hall)
                     | (c & k & -> & -> & Hk & -> & Hlt & Hearly & Hall)].
      * left. repeat split. constructor; assumption.
      * right. exists c, (S k).
        replace (i + S k)%nat with (S i + k)%nat by lia.
        repeat split; auto.
        -- intros [|k'] c' Hk' Hc'.
           ++ injection Hc' as <-. now apply Qle_lt_trans with bs.
           ++ apply (Hearly k'); [lia | exact Hc'].
        -- constructor; [|exact Hall].
           apply Qlt_le_weak. now apply Qle_lt_trans with bs.
Qed.

(** From the initial state of the loop a non-empty scan always elects. *)
Lemma scan_from_start (current_clip first : clip)
    (others : list clip) :
  exists best_score c k,
    scan current_clip 0 (first :: others) (-1, None, (-1)%Z)
      = (best_score, Some c, Z.of_nat k)
    /\ (first :: others) !! k = Some c
    /\ best_score = calculate_transition_score current_clip c
    /\ (forall k' c', (k' < k)%nat -> (first :: others) !! k' = Some c' ->
          calculate_transition_score current_clip c' < best_score)
    /\ (forall c', c' ∈ first :: others ->
          calculate_transition_score current_clip c' <= best_score).
Proof.
  pose proof (scan_first_maximum current_clip (first :: others) 0%nat
                (-1, None, (-1)%Z)) as H.
  destruct (scan _ _ _ _) as [[bs bc] bi]. cbn [fst snd] in H.
  destruct H as [(_ & _ & _ & Hall)
                | (c & k & -> & -> & Hk & -> & _ & Hearly & Hall)].
  - exfalso. apply Forall_cons in Hall as [Hfirst _].
    pose proof (proj1 (ScoreFacts.score_bounds current_clip first)). lra.
  - exists (calculate_transition_score current_clip c), c, k.
    rewrite Nat.add_0_l. repeat split; auto.
    intros c' Hc'. rewrite Forall_forall in Hall. now apply Hall.
Qed.

(** Removing one clip keeps the bound on those that stay. *)
Lemma Forall_delete {A} (P : A -> Prop) (l : list A) (k : nat) :
  Forall P l -> Forall P (delete k l).
Proof.
  intros H. revert k. induction H as [|x l Hx Hl IH]; intros [|k]; cbn.
  - constructor.
  - constructor.
  - exact Hl.
  - constructor; [exact Hx | apply IH].
Qed.

(** A finished loop had fuel for every remaining clip. *)
Lemma sequence_loop_fuel : forall fuel sequence remaining out,
  sequence_loop fuel sequence remaining = Some out ->
  (length remaining <= fuel)%nat.
Proof.
  induction fuel as [|fuel IH]; intros s r out Hrun.
  - destruct r; [cbn; lia | discriminate].
  - destruct r as [|f o]; [cbn; lia|].
    cbn [sequence_loop] in Hrun.
    destruct (last s) as [cur|]; [|discriminate].
    cbn [mbind option_bind] in Hrun.
    pose proof (SequencerFacts.scan_elects cur (f :: o) 0%nat
                  (-1, None, (-1)%Z)) as Hs.
    destruct (scan _ _ _ _) as [[bs' bc'] bi']. cbn [fst snd] in Hs.
    destruct Hs as [[-> ->] | (c' & k' & -> & -> & Hk')].
    + apply IH in Hrun. cbn. lia.
    + rewrite Nat.add_0_l, Nat2Z.id in Hrun. apply IH in Hrun.
      rewrite length_delete in Hrun by eauto. cbn in Hrun |- *. lia.
Qed.

Lemma sequence_loop_greedy : forall fuel sequence current_clip remaining out,
  last sequence = Some current_clip ->
  sequence_loop fuel sequence remaining = Some out ->
  exists placed, out = sequence ++ placed /\ greedy_from current_clip placed.
Proof.
  induction fuel as [|fuel IH]; intros sequence current_clip remaining out
    Hlast Hrun.
  - destruct remaining; [|discriminate]. injection Hrun as <-.
    exists []. now rewrite app_nil_r.
  - destruct remaining as [|first others].
    { injection Hrun as <-. exists []. now rewrite app_nil_r. }
    cbn [sequence_loop] in Hrun. rewrite Hlast in Hrun.
    cbn [mbind option_bind] in Hrun.
    destruct (scan_from_start current_clip first others)
      as (bs & c & k & Hscan & Hk & -> & _ & Hall).
    rewrite Hscan, Nat2Z.id in Hrun.
    destruct (IH (sequence ++ [c]) c _ out (last_snoc _ _) Hrun)
      as (placed & -> & Hgreedy).
    exists (c :: placed). rewrite <- app_assoc. split; [reflexivity|].
    split; [|exact Hgreedy].
    assert (Hrest : Forall (fun later =>
              calculate_transition_score current_clip later
              <= calculate_transition_score current_clip c)
              (delete k (first :: others))).
    { apply Forall_delete, Forall_forall. exact Hall. }
    pose proof (SequencerFacts.sequence_loop_ok fuel (sequence ++ [c])
                  (delete k (first :: others))) as Hok.
    assert (Hperm : Permutation (delete k (first :: others)) placed).
    { destruct (SequencerFacts.sequence_loop_ok fuel (sequence ++ [c])
                  (delete k (first :: others))) as (placed' & Hrun' & Hp).
      - intros Hnil. apply app_eq_nil in Hnil as [_ ?]. discriminate.
      - exact (sequence_loop_fuel _ _ _ _ Hrun).
      - rewrite Hrun in Hrun'. injection Hrun' as Heq.
        apply app_inv_head in Heq. now subst placed'. }
    rewrite <- Hperm. exact Hrest.
Qed.

(** X2.  Among the remaining clips the inner loop elects the clip with
    the highest score against the current clip, and of several such clips
    the one that comes first: every earlier candidate scores strictly
    less, every candidate scores at most as much. *)
Theorem scan_elects_first_best (current_clip first : clip)
    (others : list clip) :
  exists best_score c k,
    scan current_clip 0 (first :: others) (-1, None, (-1)%Z)
      = (best_score, Some c, Z.of_nat k)
    /\ (first :: others) !! k = Some c
    /\ best_score = calculate_transition_score current_clip c
    /\ (forall k' c', (k' < k)%nat -> (first :: others) !! k' = Some c' ->
          calculate_transition_score current_clip c' < best_score)
    /\ (forall c', c' ∈ first :: others ->
          calculate_transition_score current_clip c' <= best_score).
Proof. apply scan_from_start. Qed.

(** X1.  The order returned by the optimizer is greedy: it starts with
    the first input clip, and each later clip scores at least as high
    against its predecessor as every clip that is placed after it. *)
Theorem find_optimal_sequence_greedy (seed : clip) (rest : list clip) :
  exists placed,
    find_optimal_sequence (seed :: rest) = Some (seed :: placed)
    /\ Permutation rest placed
    /\ greedy_from seed placed.
Proof.
  unfold find_optimal_sequence.
  destruct rest as [|c rest].
  - exists []. cbn. repeat split; constructor.
  - cbn [length Nat.leb].
    destruct (SequencerFacts.sequence_loop_ok (length (c :: rest)) [seed]
                (c :: rest)) as (placed & Hrun & Hperm);
      [discriminate | reflexivity |].
    destruct (sequence_loop_greedy _ [seed] seed _ _ eq_refl Hrun)
      as (placed' & Heq & Hgreedy).
    apply app_inv_head in Heq. subst placed'.
    exists placed. repeat split; assumption.
Qed.

End GreedyFacts.

(** ** Transitions and the smart manifest *)

Module TransitionFacts.
Import Sequencer Scenario.

Lemma size_list_to_set_le (l : list string) :
  (size (list_to_set l : gset string) <= length l)%nat.
Proof.
  induction l as [|x l IH]; [now rewrite list_to_set_nil, size_empty|].
  rewrite list_to_set_cons, size_union_alt, size_singleton. cbn [length].
  pose proof (subseteq_size (list_to_set l ∖ {[x]} : gset string)
                (list_to_set l) (subseteq_difference_l _ _ _ (reflexivity _))).
  lia.
Qed.

Lemma color_harmony_le_1 x y : _color_harmony x y <= 1.
Proof.
  unfold _color_harmony.
  destruct x as [|cx x]; [lra|]. destruct y as [|cy y]; [lra|].
  destruct (Nat.eqb _ _) eqn:E; [lra|]. apply Nat.eqb_neq in E.
  apply Qle_shift_div_r; [now apply of_nat_pos|]. rewrite Qmult_1_l.
  apply of_nat_le.
  set (A := list_to_set (cx :: x) : gset string).
  set (B := list_to_set (cy :: y) : gset string).
  pose proof (subseteq_size (A ∩ B) A (intersection_subseteq_l A B)).
  pose proof (subseteq_size (A ∩ B) B (intersection_subseteq_r A B)).
  pose proof (size_list_to_set_le (cx :: x)) as HA.
  pose proof (size_list_to_set_le (cy :: y)) as HB.
  fold A in HA. fold B in HB. lia.
Qed.

Lemma motion_compatibility_le_1 x y : _motion_compatibility x y <= 1.
Proof.
  unfold _motion_compatibility.
  repeat match goal with |- context [if ?c then _ else _] => destruct c end;
    lra.
Qed.

(** The score is the sum of the five terms, cut off at one. *)
Lemma score_below_sum (clip_a clip_b : clip) :
  calculate_transition_score clip_a clip_b
  <= subject_term (end_frame clip_a) (start_frame clip_b)
     + scene_term (end_frame clip_a) (start_frame clip_b)
     + lighting_term (end_frame clip_a) (start_frame clip_b)
     + 0.15 + 0.1.
Proof.
  unfold calculate_transition_score, motion_term, color_term.
  pose proof (motion_compatibility_le_1
                (get_str (motion (end_frame clip_a)))
                (get_str (motion (start_frame clip_b)))).
  pose proof (color_harmony_le_1
                (get_list (dominant_colors (end_frame clip_a)))
                (get_list (dominant_colors (start_frame clip_b)))).
  match goal with |- Py.min ?a ?b <= _ =>
    destruct (min_cases a b) as [[-> Hlt] | [-> Hle]] end; lra.
Qed.

Lemma lighting_term_le a b : lighting_term a b <= 0.2.
Proof.
  unfold lighting_term.
  destruct (String.eqb _ _); [lra|]. destruct (_compatible_lighting _ _); lra.
Qed.

Lemma subject_term_le a b : subject_term a b <= 0.3.
Proof.
  unfold subject_term.
  destruct (String.eqb _ _); [lra|]. destruct (_similar_subjects _ _); lra.
Qed.

Lemma scene_term_le a b : scene_term a b <= 0.25.
Proof. unfold scene_term. destruct (String.eqb _ _); lra. Qed.

(** The kind and the duration of a transition, read off its score. *)
Lemma make_transition_kind (a b : clip) :
  let tr := make_transition a b in
  score tr = calculate_transition_score a b
  /\ from_clip tr = base a /\ to_clip tr = base b
  /\ (0.8 < score tr -> type tr = cut /\ duration tr == 0)
  /\ (0.5 < score tr -> score tr <= 0.8 ->
      type tr = crossfade /\ duration tr == 0.5)
  /\ (score tr <= 0.5 -> type tr = fade_black /\ duration tr == 0.3).
Proof.
  cbv zeta. unfold make_transition.
  destruct (Py.Qltb 0.8 _) eqn:E1; [|destruct (Py.Qltb 0.5 _) eqn:E2];
    cbn [score from_clip to_clip type duration];
    rewrite ?Qltb_true, ?Qltb_false in *;
    (split; [reflexivity|]); (split; [reflexivity|]);
    (split; [reflexivity|]);
    repeat split; intros; try reflexivity; lra.
Qed.

(** X3.  The transition at position [i] joins the clips at positions [i]
    and [i + 1] of the sequence, carries their transition score, and its
    kind and duration follow from that score alone: a cut of no duration
    above 0.8, a crossfade of 0.5 s above 0.5, a fade to black of 0.3 s
    otherwise. *)
Theorem generate_transitions_lookup (sequence : list clip) (i : nat)
    (current next_clip : clip) :
  sequence !! i = Some current -> sequence !! S i = Some next_clip ->
  exists tr,
    generate_transitions sequence !! i = Some tr
    /\ from_clip tr = base current /\ to_clip tr = base next_clip
    /\ score tr = calculate_transition_score current next_clip
    /\ (0.8 < score tr -> type tr = cut /\ duration tr == 0)
    /\ (0.5 < score tr -> score tr <= 0.8 ->
        type tr = crossfade /\ duration tr == 0.5)
    /\ (score tr <= 0.5 -> type tr = fade_black /\ duration tr == 0.3).
Proof.
  revert i. induction sequence as [|a [|b rest] IH]; intros i Hi Hn;
    try discriminate.
  destruct i as [|i].
  - cbn in Hi, Hn. injection Hi as ->. injection Hn as ->.
    exists (make_transition current next_clip).
    pose proof (make_transition_kind current next_clip) as H.
    cbv zeta in H. destruct H as (Hs & Hf & Ht & H1 & H2 & H3).
    split; [reflexivity|]. do 5 (split; [assumption|]). exact H3.
  - change (generate_transitions (a :: b :: rest))
      with (make_transition a b :: generate_transitions (b :: rest)).
    exact (IH i Hi Hn).
Qed.

Lemma generate_transitions_lookup_witness :
  exists tr,
    generate_transitions [clip_A; clip_B; clip_C] !! 1%nat = Some tr
    /\ from_clip tr = "B" /\ to_clip tr = "C".
Proof.
  destruct (generate_transitions_lookup [clip_A; clip_B; clip_C] 1
              clip_B clip_C eq_refl eq_refl) as (tr & Htr & Hf & Ht & _).
  exists tr. repeat split; assumption.
Defined.

(** X4.  A hard cut is only planned between clips whose scene types are
    equal and whose subjects are equal or share a word: without either,
    the score cannot exceed 0.8. *)
Theorem cut_needs_scene_and_subject (clip_a clip_b : clip) :
  type (make_transition clip_a clip_b) = cut ->
  get_str (scene_type (end_frame clip_a))
  = get_str (scene_type (start_frame clip_b))
  /\ (get_str (subject (end_frame clip_a))
      = get_str (subject (start_frame clip_b))
      \/ _similar_subjects (get_str (subject (end_frame clip_a)))
                           (get_str (subject (start_frame clip_b))) = true).
Proof.
  intros Hcut.
  assert (Hhigh : 0.8 < calculate_transition_score clip_a clip_b).
  { unfold make_transition in Hcut.
    destruct (Py.Qltb 0.8 _) eqn:E; [now apply Qltb_true in E|].
    destruct (Py.Qltb 0.5 _); discriminate. }
  pose proof (score_below_sum clip_a clip_b) as Hsum.
  pose proof (subject_term_le (end_frame clip_a) (start_frame clip_b)).
  pose proof (scene_term_le (end_frame clip_a) (start_frame clip_b)).
  pose proof (lighting_term_le (end_frame clip_a) (start_frame clip_b)).
  split.
  - unfold scene_term in *.
    destruct (String.eqb _ _) eqn:E; [now apply String.eqb_eq in E | lra].
  - unfold subject_term in *.
    destruct (String.eqb _ _) eqn:E; [left; now apply String.eqb_eq in E|].
    destruct (_similar_subjects _ _); [now right | lra].
Qed.

Lemma cut_needs_scene_and_subject_witness :
  let c := uniform_clip "rgb" three_colors in
  type (make_transition c c) = cut
  /\ get_str (scene_type (end_frame c)) = get_str (scene_type (start_frame c))
  /\ (get_str (subject (end_frame c)) = get_str (subject (start_frame c))
      \/ _similar_subjects (get_str (subject (end_frame c)))
                           (get_str (subject (start_frame c))) = true).
Proof.
  cbv zeta. split; [vm_compute; reflexivity|].
  apply (cut_needs_scene_and_subject (uniform_clip "rgb" three_colors)
           (uniform_clip "rgb" three_colors)).
  vm_compute. reflexivity.
Defined.

(** X5.  Two clips whose subjects are different and share no word and
    whose scene types differ are joined by a fade to black of 0.3 s,
    whatever their lighting, motion and colours. *)
Theorem unrelated_clips_fade_to_black (clip_a clip_b : clip) :
  get_str (subject (end_frame clip_a))
  <> get_str (subject (start_frame clip_b)) ->
  _similar_subjects (get_str (subject (end_frame clip_a)))
                    (get_str (subject (start_frame clip_b))) = false ->
  get_str (scene_type (end_frame clip_a))
  <> get_str (scene_type (start_frame clip_b)) ->
  type (make_transition clip_a clip_b) = fade_black
  /\ duration (make_transition clip_a clip_b) == 0.3
  /\ calculate_transition_score clip_a clip_b <= 0.45.
Proof.
  intros Hsubj Hsim Hscene.
  pose proof (score_below_sum clip_a clip_b) as Hsum.
  pose proof (lighting_term_le (end_frame clip_a) (start_frame clip_b)).
  unfold subject_term, scene_term in Hsum.
  apply String.eqb_neq in Hsubj, Hscene. rewrite Hsubj, Hsim, Hscene in Hsum.
  assert (Hlow : calculate_transition_score clip_a clip_b <= 0.45) by lra.
  destruct (make_transition_kind clip_a clip_b) as (Hs & _ & _ & _ & _ & Hf).
  cbv zeta in Hs, Hf. rewrite Hs in Hf.
  destruct Hf as [Ht Hd]; [lra|]. repeat split; assumption.
Qed.

Lemma unrelated_clips_fade_to_black_witness :
  type (make_transition clip_B clip_C) = fade_black
  /\ duration (make_transition clip_B clip_C) == 0.3
  /\ calculate_transition_score clip_B clip_C <= 0.45.
Proof.
  apply (unrelated_clips_fade_to_black clip_B clip_C).
  - cbn. discriminate.
  - vm_compute. reflexivity.
  - cbn. discriminate.
Defined.

End TransitionFacts.

Module ManifestFacts.
Import Sequencer Scenario.

Section Resolve.
Variable resolve : string -> string.

(** The loop over the sequence, started at index [i] and time [t] with
    enough transitions for the clips that follow. *)
Lemma manifest_loop_spec (transitions : list transition) :
  forall clips i t,
    (i + length clips <= S (length transitions))%nat ->
    exists items total,
      manifest_loop resolve transitions i t clips = Some (items, total)
      /\ item_base <$> items = base <$> clips
      /\ Forall (fun item => t1 item == t0 item + 5) items
      /\ (forall k item, items !! k = Some item ->
            transition_in item
            = if Nat.ltb 0 (i + k) then transitions !! (i + k - 1)%nat
              else None)
      /\ (forall item, items !! 0%nat = Some item ->
            t0 item == t - overlap_in item)
      /\ (forall k item next, items !! k = Some item ->
            items !! S k = Some next ->
            t0 next == t1 item - overlap_in next)
      /\ total == default t (t1 <$> last items).
Proof.
  induction clips as [|clip rest IH]; intros i t Hlen.
  - exists [], t. cbn.
    repeat split; try constructor; try discriminate; try reflexivity.
  - cbn [manifest_loop]. cbn [length] in Hlen.
    assert (Hin : exists incoming,
              (if Nat.ltb 0 i then Some <$> transitions !! (i - 1)%nat
               else Some None) = Some incoming
              /\ incoming = if Nat.ltb 0 i then transitions !! (i - 1)%nat
                            else None).
    { destruct (Nat.ltb 0 i) eqn:Ei; [|eexists; split; reflexivity].
      apply Nat.ltb_lt in Ei.
      destruct (lookup_lt_is_Some_2 transitions (i - 1)) as [tr Htr]; [lia|].
      rewrite Htr. eexists; split; reflexivity. }
    destruct Hin as (incoming & -> & Hincoming). cbn [mbind option_bind].
    set (start := match incoming with
                  | Some transition =>
                      match type transition with
                      | crossfade => t - duration transition
                      | _ => t
                      end
                  | None => t
                  end).
    destruct (IH (S i) (start + 5.0)) as
      (items & total & -> & Hbase & Hdur & Hin & Hfirst & Hchain & Htotal);
      [lia|].
    cbn [mbind option_bind].
    eexists _, total. split; [reflexivity|].
    assert (Hstart : start == t - overlap_in
              {| item_path := match path clip with
                              | Some p => if Py.truthy p then resolve p
                                          else file clip
                              | None => file clip
                              end;
                 t0 := start; t1 := start + 5.0; item_base := base clip;
                 transition_in := incoming |}).
    { unfold overlap_in, start. cbn [transition_in].
      destruct incoming as [tr|]; [destruct (type tr)|]; lra. }
    repeat split.
    + rewrite !fmap_cons, Hbase. reflexivity.
    + constructor; [cbn; lra | exact Hdur].
    + intros [|k] item Hk.
      * injection Hk as <-. cbn [transition_in]. now rewrite Nat.add_0_r.
      * cbn in Hk. rewrite (Hin k item Hk).
        replace (i + S k)%nat with (S i + k)%nat by lia. reflexivity.
    + intros item Hk. injection Hk as <-. exact Hstart.
    + intros [|k] item next Hk Hn.
      * injection Hk as <-. cbn in Hn. cbn [t1]. exact (Hfirst next Hn).
      * cbn in Hk, Hn. exact (Hchain k item next Hk Hn).
    + rewrite Htotal, last_cons.
      destruct (last items) as [item'|]; cbn; reflexivity.
Qed.

(** X6.  [create_smart_manifest] always produces a manifest: one item
    per input clip, one transition fewer than items, the clips in the
    order chosen by the optimizer, every item five seconds long, and the
    first item starting at zero without an incoming transition. *)
Theorem create_smart_manifest_shape (clips : list clip) :
  exists m sequence,
    create_smart_manifest resolve clips = Some m
    /\ find_optimal_sequence clips = Some sequence
    /\ item_base <$> items m = base <$> sequence
    /\ length (items m) = length clips
    /\ total_clips m = length clips
    /\ length (transitions m) = (length (items m) - 1)%nat
    /\ Forall (fun item => t1 item == t0 item + 5) (items m)
    /\ Forall (fun item => t0 item == 0 /\ transition_in item = None)
              (take 1 (items m)).
Proof.
  destruct (SequencerFacts.find_optimal_sequence_total clips)
    as (sequence & Hseq & Hperm).
  unfold create_smart_manifest. rewrite Hseq. cbn [mbind option_bind].
  pose proof (SequencerFacts.generate_transitions_length sequence) as Hlen.
  destruct (manifest_loop_spec (generate_transitions sequence) sequence 0 0.0)
    as (its & total & -> & Hbase & Hdur & Hin & Hfirst & _ & _); [lia|].
  cbn [mbind option_bind].
  assert (Hn : length its = length sequence).
  { rewrite <- (length_fmap item_base), Hbase. apply length_fmap. }
  eexists _, sequence. split; [reflexivity|]. cbn [items transitions total_clips].
  split; [reflexivity|]. split; [exact Hbase|].
  rewrite Hn, Hlen, (Permutation_length Hperm).
  do 4 (split; [auto|]).
  destruct its as [|item its]; [constructor|]. cbn [take].
  constructor; [|constructor].
  specialize (Hfirst item eq_refl). specialize (Hin 0%nat item eq_refl).
  cbn in Hin. unfold overlap_in in Hfirst. rewrite Hin in Hfirst.
  split; [lra | exact Hin].
Qed.

(** X7.  In the smart manifest each later item comes in through the
    transition of its position, and starts where the item before it ends,
    or, when that transition is a crossfade, half a second earlier; the
    total duration is the end of the last item. *)
Theorem create_smart_manifest_timeline (clips : list clip) (m : smart_manifest) :
  create_smart_manifest resolve clips = Some m ->
  (forall k item next,
     items m !! k = Some item -> items m !! S k = Some next ->
     exists tr,
       transitions m !! k = Some tr
       /\ transition_in next = Some tr
       /\ t0 next == t1 item - match type tr with
                                | crossfade => 0.5
                                | _ => 0
                                end)
  /\ total_duration m == default 0 (t1 <$> last (items m)).
Proof.
  unfold create_smart_manifest.
  destruct (find_optimal_sequence clips) as [sequence|]; [|discriminate].
  cbn [mbind option_bind].
  pose proof (SequencerFacts.generate_transitions_length sequence) as Hlen.
  destruct (manifest_loop_spec (generate_transitions sequence) sequence 0 0.0)
    as (its & total & -> & Hbase & _ & Hin & _ & Hchain & Htotal); [lia|].
  cbn [mbind option_bind]. intros Hm. injection Hm as <-.
  cbn [items transitions total_duration].
  split; [|rewrite Htotal; destruct (last its); cbn; reflexivity].
  intros k item next Hk Hn.
  pose proof (Hin (S k) next Hn) as Htr. cbn in Htr.
  rewrite Nat.sub_0_r in Htr.
  assert (Hlt : (k < length (generate_transitions sequence))%nat).
  { apply lookup_lt_Some in Hn.
    rewrite <- (length_fmap item_base), Hbase, length_fmap in Hn. lia. }
  destruct (lookup_lt_is_Some_2 _ _ Hlt) as [tr Hk'].
  exists tr. split; [exact Hk'|]. rewrite Hk' in Htr. split; [exact Htr|].
  rewrite (Hchain k item next Hk Hn). unfold overlap_in. rewrite Htr.
  assert (Hd : type tr = crossfade -> duration tr == 0.5).
  { apply list_elem_of_lookup_2 in Hk'. clear -Hk'.
    induction sequence as [|a [|b rest] IH]; try (inversion Hk'; fail).
    change (generate_transitions (a :: b :: rest))
      with (make_transition a b :: generate_transitions (b :: rest)) in Hk'.
    apply elem_of_cons in Hk' as [-> | Hk']; [|now apply IH].
    unfold make_transition.
    destruct (Py.Qltb 0.8 _); [discriminate|].
    destruct (Py.Qltb 0.5 _); [reflexivity | discriminate]. }
  destruct (type tr); [reflexivity | now rewrite Hd | reflexivity].
Qed.

End Resolve.

Lemma create_smart_manifest_timeline_witness :
  exists m,
    create_smart_manifest sample_name [clip_A; clip_B; clip_C] = Some m
    /\ total_duration m == 14.5.
Proof.
  destruct (create_smart_manifest sample_name [clip_A; clip_B; clip_C])
    as [m|] eqn:E; [|vm_compute in E; discriminate].
  exists m. split; [reflexivity|].
  rewrite (proj2 (create_smart_manifest_timeline sample_name _ m E)).
  vm_compute in E. injection E as <-. vm_compute. reflexivity.
Defined.

End ManifestFacts.

(** ** The time order of the written manifest *)

Module AnalyzeFacts.
Import Json Verbose Scenario.

(** The order of [(t0, t1)] tuples. *)
Lemma key_leb_true (a b : Q * Q) :
  key_leb a b = true <-> a.1 < b.1 \/ (a.1 == b.1 /\ a.2 <= b.2).
Proof.
  unfold key_leb.
  rewrite orb_true_iff, andb_true_iff, Qltb_true, Qeq_bool_iff, Qle_bool_iff.
  reflexivity.
Qed.

Lemma key_leb_total (a b : Q * Q) : key_leb a b = false -> key_leb b a = true.
Proof.
  intros H. apply key_leb_true.
  destruct (Qlt_le_dec b.1 a.1) as [Hlt | Hle]; [now left|]. right.
  assert (Hn : ~ (a.1 < b.1 \/ (a.1 == b.1 /\ a.2 <= b.2))).
  { rewrite <- key_leb_true. congruence. }
  destruct (Qlt_le_dec a.1 b.1) as [Hlt' | Hle']; [tauto|].
  assert (Heq : a.1 == b.1) by lra.
  destruct (Qlt_le_dec b.2 a.2) as [H2 | H2]; [|tauto].
  split; lra.
Qed.

Lemma key_leb_trans (a b c : Q * Q) :
  key_leb a b = true -> key_leb b c = true -> key_leb a c = true.
Proof. rewrite !key_leb_true. intros [?|[? ?]] [?|[? ?]]; [left; lra..|right; split; lra]. Qed.

Section Environment.
Variable path_name : string -> string.
Variable DEFAULT_DUR : Q.

Lemma assign_slots_timed t l : Forall timed (assign_slots DEFAULT_DUR t l).
Proof.
  revert t. induction l as [|it l IH]; intros t; cbn; constructor; auto.
  split; eexists; reflexivity.
Qed.

Lemma fallback_timed (raw_items : list item) :
  Forall timed (apply_sequential_fallback path_name DEFAULT_DUR raw_items).1.
Proof.
  unfold apply_sequential_fallback.
  destruct (existsb lacks_time raw_items) eqn:E; cbn [negb fst].
  - apply assign_slots_timed.
  - apply Forall_forall. intros it Hit.
    destruct (t0 it) as [a|] eqn:E0, (t1 it) as [b|] eqn:E1;
      try (split; eexists; eassumption);
      exfalso; apply not_true_iff_false in E; apply E;
      apply existsb_exists; exists it;
      (split; [now apply list_elem_of_In|]);
      unfold lacks_time; rewrite E0, E1; reflexivity.
Qed.

Lemma StronglySorted_weaken {A} (R R' : A -> A -> Prop) (l : list A) :
  (forall a b, R a b -> R' a b) -> StronglySorted R l -> StronglySorted R' l.
Proof.
  intros Himpl. induction 1 as [|x l Hs IH Hall]; constructor; [exact IH|].
  eapply Forall_impl; [exact Hall|]. intros b. apply Himpl.
Qed.

Lemma analyze_sorted (items : list item) :
  StronglySorted time_order (analyze items).
Proof.
  apply (StronglySorted_weaken
           (fun a b => key_leb (time_key a) (time_key b) = true)).
  - intros a b H. now apply key_leb_true in H.
  - apply (sorted_sorted (fun a b => key_leb (time_key a) (time_key b))).
    + intros a b. apply key_leb_total.
    + intros a b c. apply key_leb_trans.
Qed.

(** What [main] has checked and done before it writes. *)
Lemma main_items_written (raw_items manifest : list item) :
  main_items path_name DEFAULT_DUR raw_items = WroteManifest manifest ->
  Permutation (ident <$> raw_items) (ident <$> manifest)
  /\ Forall (fun it => has_path it = true /\ timed it) manifest
  /\ StronglySorted (fun a b => key_leb (time_key a) (time_key b) = true)
                    manifest.
Proof.
  unfold main_items.
  pose proof (FallbackFacts.fallback_ident path_name DEFAULT_DUR raw_items)
    as Hperm.
  pose proof (fallback_timed raw_items) as Htimed.
  destruct (apply_sequential_fallback path_name DEFAULT_DUR raw_items)
    as [items used]. cbn [fst] in Hperm, Htimed.
  destruct (filter (fun it => has_path it = false) items) eqn:Hf;
    [|discriminate].
  pose proof (FallbackFacts.analyze_perm items) as Han.
  pose proof (sorted_sorted (fun a b => key_leb (time_key a) (time_key b))
                (fun a b => key_leb_total (time_key a) (time_key b))
                (fun a b c => key_leb_trans (time_key a) (time_key b)
                                (time_key c)) items) as Hsorted.
  fold (analyze items) in Hsorted.
  destruct (analyze items) as [|x l]; [discriminate|].
  intros H. injection H as <-. split; [|split].
  - rewrite Hperm. now apply fmap_Permutation.
  - rewrite <- Han. apply Forall_forall. intros it Hit. split.
    + destruct (has_path it) eqn:E; [reflexivity|].
      assert (Hin : it ∈ filter (fun it => has_path it = false) items)
        by (apply list_elem_of_filter; split; assumption).
      rewrite Hf in Hin. inversion Hin.
    + rewrite Forall_forall in Htimed. now apply Htimed.
  - exact Hsorted.
Qed.

(** X8.  A manifest written by [main] holds exactly the records of the
    batch; every record in it has a path and both times, and the records
    are in non-decreasing order of [(t0, t1)]. *)
Theorem written_manifest_is_timed_and_ordered (raw_items manifest : list item) :
  main_items path_name DEFAULT_DUR raw_items = WroteManifest manifest ->
  Permutation (ident <$> raw_items) (ident <$> manifest)
  /\ Forall (fun it => has_path it = true /\ timed it) manifest
  /\ StronglySorted time_order manifest.
Proof.
  intros Hrun. destruct (main_items_written _ _ Hrun) as (Hp & Hall & Hs).
  split; [exact Hp|]. split; [exact Hall|].
  apply (StronglySorted_weaken _ _ _ (fun a b H => proj1 (key_leb_true _ _) H)
           Hs).
Qed.

(** The fallback windows are in time order when the default duration is
    not negative. *)
Lemma assign_slots_sorted (l : list item) : forall t,
  0 <= DEFAULT_DUR ->
  Sorted (fun a b => key_leb (time_key a) (time_key b) = true)
         (assign_slots DEFAULT_DUR t l).
Proof.
  induction l as [|it l IH]; intros t Hd; cbn [assign_slots]; constructor.
  - now apply IH.
  - destruct l as [|it' l]; constructor.
    apply key_leb_true. unfold time_key. cbn.
    destruct (Qlt_le_dec t (t + DEFAULT_DUR)); [now left | right; split; lra].
Qed.

(** X9.  When some record lacks a time, every record has a path and the
    default duration is not negative, [main] writes the output of the
    sequential fallback as it is: the time sort of [analyze] does not
    reorder it, so the manifest is in the order of the file names with
    the synthetic windows. *)
Theorem fallback_manifest_in_name_order (raw_items : list item) :
  0 <= DEFAULT_DUR ->
  (exists i, i ∈ raw_items /\ (t0 i = None \/ t1 i = None)) ->
  (forall it, it ∈ raw_items -> has_path it = true) ->
  main_items path_name DEFAULT_DUR raw_items
  = WroteManifest
      (assign_slots DEFAULT_DUR 0.0
         (Py.sorted (fun a b => String.leb (fallback_key path_name a)
                                           (fallback_key path_name b))
                    raw_items)).
Proof.
  intros Hd Hlack Hpaths.
  destruct (FallbackFacts.main_items_all_paths path_name DEFAULT_DUR raw_items
              Hpaths) as (manifest & Hrun & _).
  { destruct Hlack as (i & Hi & _). intros ->. inversion Hi. }
  rewrite Hrun. revert Hrun. unfold main_items, apply_sequential_fallback.
  apply FallbackFacts.need_fallback_true in Hlack. rewrite Hlack.
  cbn [negb].
  destruct (filter _ _); [|discriminate].
  unfold analyze. rewrite sorted_id by now apply assign_slots_sorted.
  destruct (assign_slots _ _ _); [discriminate|]. congruence.
Qed.

Lemma gap_scan_assign_slots (l : list item) : forall prev prev_end t,
  0 <= DEFAULT_DUR -> prev_end == t ->
  gap_scan prev prev_end (assign_slots DEFAULT_DUR t l) = ([], []).
Proof.
  induction l as [|it l IH]; intros prev prev_end t Hd Heq; [reflexivity|].
  cbn [assign_slots gap_scan t0 t1 default meta].
  rewrite (IH _ _ (t + DEFAULT_DUR) Hd).
  - unfold id. assert (H1 : Py.Qltb prev_end t = false) by (apply Qltb_false; lra).
    assert (H2 : Py.Qltb t prev_end = false) by (apply Qltb_false; lra).
    now rewrite H1, H2.
  - unfold id.
    destruct (max_cases prev_end (t + DEFAULT_DUR)) as [[-> _] | [-> Hle]];
      [reflexivity | lra].
Qed.

(** X10.  The timeline of the sequential fallback is contiguous: with a
    default duration that is not negative, [analyze] finds no gap and no
    overlap in it. *)
Theorem fallback_has_no_gaps_or_overlaps (raw_items : list item) :
  0 <= DEFAULT_DUR ->
  (exists i, i ∈ raw_items /\ (t0 i = None \/ t1 i = None)) ->
  gaps_and_overlaps
    (apply_sequential_fallback path_name DEFAULT_DUR raw_items).1
  = ([], []).
Proof.
  intros Hd Hlack. unfold apply_sequential_fallback.
  apply FallbackFacts.need_fallback_true in Hlack. rewrite Hlack.
  cbn [negb fst]. unfold gaps_and_overlaps, analyze.
  rewrite sorted_id by now apply assign_slots_sorted.
  destruct (Py.sorted _ raw_items) as [|first rest]; [reflexivity|].
  cbn [assign_slots t0 t1 default]. unfold id.
  apply gap_scan_assign_slots; [exact Hd|].
  destruct (max_cases 0.0 (0.0 + DEFAULT_DUR)) as [[-> _] | [-> Hle]];
    [reflexivity | lra].
Qed.

(** X11.  When no metadata file can be read, [load_items] returns no
    record and reports every file as a problem, or the one problem ["*"]
    for a directory without files; [main], which only prints the
    problems, goes on with the empty list and raises [IndexError] at
    [items[0]]. *)
Theorem empty_batch_raises_index_error
    (py_str : jval -> string) (join_videos_in : string -> string)
    (files : list (string * option (list (string * jval)))) :
  Forall (fun file => file.2 = None) files ->
  load_items py_str join_videos_in files
  = ([], match files with [] => ["*"] | _ => files.*1 end)
  /\ main py_str join_videos_in path_name DEFAULT_DUR files = RaiseIndexError.
Proof.
  intros Hall.
  assert (Hloop : load_loop py_str join_videos_in files = ([], files.*1)).
  { induction Hall as [|[jp raw] files Hraw _ IH]; [reflexivity|].
    cbn in Hraw. subst raw. cbn [load_loop]. rewrite IH. reflexivity. }
  assert (Hload : load_items py_str join_videos_in files
                  = ([], match files with [] => ["*"] | _ => files.*1 end)).
  { destruct files; [reflexivity | exact Hloop]. }
  split; [exact Hload|]. unfold main. rewrite Hload. reflexivity.
Qed.

End Environment.

Lemma written_manifest_is_timed_and_ordered_witness :
  exists manifest,
    main_items sample_name 2.0 batch_one_without_time = WroteManifest manifest
    /\ StronglySorted time_order manifest.
Proof.
  destruct (main_items sample_name 2.0 batch_one_without_time)
    as [| |manifest] eqn:E; try (vm_compute in E; discriminate).
  exists manifest. split; [reflexivity|].
  apply (written_manifest_is_timed_and_ordered sample_name 2.0
           batch_one_without_time manifest E).
Defined.

Lemma fallback_manifest_in_name_order_witness :
  meta <$> match main_items sample_name 2.0 batch_one_without_time with
           | WroteManifest manifest => manifest
           | _ => []
           end
  = ["a.json"; "z.json"].
Proof.
  rewrite (fallback_manifest_in_name_order sample_name 2.0
             batch_one_without_time).
  - vm_compute. reflexivity.
  - discriminate.
  - eexists. split; [left | right; reflexivity].
  - intros it Hit. repeat (apply elem_of_cons in Hit as [-> | Hit];
                           [reflexivity|]). inversion Hit.
Defined.

Lemma fallback_has_no_gaps_or_overlaps_witness :
  gaps_and_overlaps
    (apply_sequential_fallback sample_name 2.0 batch_one_without_time).1
  = ([], []).
Proof.
  apply (fallback_has_no_gaps_or_overlaps sample_name 2.0
           batch_one_without_time).
  - discriminate.
  - eexists. split; [left | right; reflexivity].
Defined.

Lemma empty_batch_raises_index_error_witness :
  load_items sample_str sample_join [("broken.json", None)]
  = ([], ["broken.json"])
  /\ main sample_str sample_join sample_name 2.0 [("broken.json", None)]
     = RaiseIndexError.
Proof.
  apply (empty_batch_raises_index_error sample_name 2.0 sample_str sample_join
           [("broken.json", None)]).
  repeat constructor.
Defined.

End AnalyzeFacts.

(** ** What [stitch_from_manifest.py] plays *)

Module PlaybackFacts.
Import Json Stitch Scenario.

(** Items that are already in the order of their keys stay as they are. *)
Lemma sort_items_id (items : list (gmap string jval)) (keys : list (Q * Q)) :
  mapM keyf items = Some keys ->
  Sorted (fun a b => Verbose.key_leb a b = true) keys ->
  sort_items items = Some items.
Proof.
  intros Hkeys Hsorted. unfold sort_items.
  destruct (StitchFacts.keyed_total items keys Hkeys) as (kd & Hkd).
  rewrite Hkd. cbn [mbind option_bind].
  destruct (StitchFacts.keyed_items items keys kd Hkeys Hkd) as [Hfst Hsnd].
  rewrite sorted_id; [now rewrite Hsnd|].
  apply (StitchFacts.Sorted_fst (fun a b => Verbose.key_leb a b = true)).
  now rewrite Hfst.
Qed.

(** What sorting returns: the items rearranged, their keys in order. *)
Lemma sort_items_sorted (items sorted_items : list (gmap string jval)) :
  sort_items items = Some sorted_items ->
  Permutation items sorted_items
  /\ exists keys,
       mapM keyf sorted_items = Some keys
       /\ StronglySorted (fun a b => Verbose.key_leb a b = true) keys.
Proof.
  unfold sort_items.
  destruct (mapM (fun it => (fun k => (k, it)) <$> keyf it) items)
    as [keyed|] eqn:Hkd; [|discriminate].
  cbn [mbind option_bind]. intros H. injection H as <-.
  set (leb := fun a b : Q * Q * gmap string jval =>
                Verbose.key_leb a.1 b.1).
  assert (Hitems : snd <$> keyed = items
                   /\ Forall (fun p => keyf p.2 = Some p.1) keyed).
  { clear leb. revert keyed Hkd.
    induction items as [|it items IH]; intros keyed Hkd.
    - cbn in Hkd. injection Hkd as <-. split; [reflexivity | constructor].
    - cbn in Hkd. destruct (keyf it) as [k|] eqn:Ek; [|discriminate].
      cbn in Hkd. destruct (mapM _ items) as [kd|]; [|discriminate].
      cbn in Hkd. injection Hkd as <-.
      destruct (IH kd eq_refl) as [<- Hall]. split; [reflexivity|].
      constructor; [exact Ek | exact Hall]. }
  destruct Hitems as [Hsnd Hkeyf]. split.
  - rewrite <- Hsnd. apply fmap_Permutation, sorted_perm.
  - exists (fst <$> Py.sorted leb keyed). split.
    + apply mapM_Some. rewrite (sorted_perm leb keyed) in Hkeyf.
      induction Hkeyf as [|p l Hp _ IH]; cbn; constructor; assumption.
    + pose proof (sorted_sorted leb
                    (fun x y => AnalyzeFacts.key_leb_total x.1 y.1)
                    (fun x y z => AnalyzeFacts.key_leb_trans x.1 y.1 z.1)
                    keyed) as Hs.
      induction Hs as [|p l _ IH Hall]; cbn; constructor; [exact IH|].
      apply Forall_fmap. exact Hall.
Qed.

Section Main.
Variable py_str : jval -> string.
Variable path_exists : string -> bool.

Lemma concat_list_sound
    (items : list (gmap string jval)) (files : list string) :
  main py_str path_exists items = Concat files ->
  exists sorted_items,
    sort_items items = Some sorted_items
    /\ files = listed_paths py_str sorted_items
    /\ files <> []
    /\ Forall (fun p => path_exists p = true) files.
Proof.
  unfold main. destruct items as [|it items]; [discriminate|].
  destruct (sort_items (it :: items)) as [sorted_items|] eqn:Hsort;
    [|discriminate].
  destruct (filter (fun p => path_exists p = false)
              (listed_paths py_str sorted_items)) eqn:Hmiss; [|discriminate].
  pose proof (StitchFacts.filter_none_missing _ _ Hmiss) as Hall.
  rewrite Hall.
  destruct (listed_paths py_str sorted_items) as [|p paths'] eqn:Hp;
    [discriminate|].
  intros H. injection H as <-.
  exists sorted_items. split; [reflexivity|]. split; [now symmetry|].
  split; [discriminate|].
  rewrite <- Hall. apply Forall_forall. intros q Hq.
  now apply list_elem_of_filter in Hq as [Hq _].
Qed.

(** X12.  When [main] gets as far as the concat list, the list is not
    empty, holds the paths of the items that have one, taken in the order
    of a sort of the manifest by [(t0, t1)], and every file in it
    exists. *)
Theorem concat_list_is_sorted_and_present
    (items : list (gmap string jval)) (files : list string) :
  main py_str path_exists items = Concat files ->
  exists sorted_items keys,
    Permutation items sorted_items
    /\ mapM keyf sorted_items = Some keys
    /\ StronglySorted (fun a b => Verbose.key_leb a b = true) keys
    /\ files = listed_paths py_str sorted_items
    /\ files <> []
    /\ Forall (fun p => path_exists p = true) files.
Proof.
  intros Hrun.
  destruct (concat_list_sound items files Hrun)
    as (sorted_items & Hsort & Hfiles & Hne & Hall).
  destruct (sort_items_sorted _ _ Hsort) as (Hperm & keys & Hkeys & Hsorted).
  exists sorted_items, keys. repeat split; assumption.
Qed.

(** X13.  A listed file that does not exist stops the stitching: with
    such an item in the manifest, [main] never reaches the concat list. *)
Theorem missing_file_stops_stitching
    (items : list (gmap string jval)) (item : gmap string jval) :
  item ∈ items -> truthy (item !! "path") = true ->
  (forall p, item !! "path" = Some p -> path_exists (py_str p) = false) ->
  forall files, main py_str path_exists items <> Concat files.
Proof.
  intros Hin Htruthy Hgone files Hrun.
  destruct (concat_list_sound items files Hrun)
    as (sorted_items & Hsort & -> & _ & Hall).
  destruct (sort_items_sorted _ _ Hsort) as (Hperm & _).
  destruct (item !! "path") as [p|] eqn:Hp; [|discriminate].
  assert (Hlisted : py_str p ∈ listed_paths py_str sorted_items).
  { unfold listed_paths. apply list_elem_of_omap. exists item. split.
    - now rewrite <- Hperm.
    - now rewrite Hp, Htruthy. }
  rewrite Forall_forall in Hall. specialize (Hall _ Hlisted).
  rewrite (Hgone p eq_refl) in Hall. discriminate.
Qed.

End Main.

Lemma concat_list_is_sorted_and_present_witness :
  exists sorted_items keys,
    Permutation [timed_item "b.mp4" 2 4; timed_item "a.mp4" 0 2] sorted_items
    /\ mapM keyf sorted_items = Some keys
    /\ StronglySorted (fun a b => Verbose.key_leb a b = true) keys
    /\ ["a.mp4"; "b.mp4"] = listed_paths sample_str sorted_items
    /\ ["a.mp4"; "b.mp4"] <> []
    /\ Forall (fun p => (fun _ : string => true) p = true) ["a.mp4"; "b.mp4"].
Proof.
  apply (concat_list_is_sorted_and_present sample_str (fun _ => true)
           [timed_item "b.mp4" 2 4; timed_item "a.mp4" 0 2]).
  vm_compute. reflexivity.
Defined.

Lemma missing_file_stops_stitching_witness :
  main sample_str (fun _ => false) [timed_item "gone.mp4" 0 5]
  <> Concat ["gone.mp4"].
Proof.
  apply (missing_file_stops_stitching sample_str (fun _ => false)
           [timed_item "gone.mp4" 0 5] (timed_item "gone.mp4" 0 5)).
  - left.
  - reflexivity.
  - reflexivity.
Defined.

(** The sort key of a dumped item is the pair of its times. *)
Lemma keyf_dump_item labels (it : Verbose.item) :
  Verbose.timed it ->
  keyf (Pipeline.dump_item labels it) = Some (Verbose.time_key it).
Proof.
  intros [[a Ha] [b Hb]]. unfold keyf, Pipeline.dump_item, Verbose.time_key.
  rewrite Ha, Hb. simplify_map_eq. reflexivity.
Qed.

Lemma listed_paths_dump (py_str : jval -> string) labels
    (manifest : list Verbose.item) :
  (forall p, py_str (JStr p) = p) ->
  Forall (fun it => Verbose.has_path it = true) manifest ->
  listed_paths py_str (Pipeline.dump_item labels <$> manifest)
  = omap Verbose.path manifest.
Proof.
  intros Hstr. induction 1 as [|it manifest Hit _ IH]; [reflexivity|].
  rewrite fmap_cons.
  change (listed_paths py_str
            (Pipeline.dump_item labels it
             :: (Pipeline.dump_item labels <$> manifest)))
    with (match (if truthy (Pipeline.dump_item labels it !! "path")
                 then py_str <$> Pipeline.dump_item labels it !! "path"
                 else None) with
          | Some p => p :: listed_paths py_str
                             (Pipeline.dump_item labels <$> manifest)
          | None => listed_paths py_str
                      (Pipeline.dump_item labels <$> manifest)
          end).
  change (omap Verbose.path (it :: manifest))
    with (match Verbose.path it with
          | Some p => p :: omap Verbose.path manifest
          | None => omap Verbose.path manifest
          end).
  unfold Verbose.has_path in Hit.
  destruct (Verbose.path it) as [p|] eqn:Hp; [|discriminate].
  assert (Hlook : Pipeline.dump_item labels it !! "path" = Some (JStr p)).
  { unfold Pipeline.dump_item. rewrite Hp. now simplify_map_eq. }
  rewrite Hlook. cbn [truthy fmap option_fmap option_map]. rewrite Hit, Hstr.
  f_equal. exact IH.
Qed.

(** X14.  A manifest written by [sequence_and_assemble_verbose.py] is
    left in its order by the sort of [stitch_from_manifest.py], and the
    concat list, when the stitcher reaches it, is the list of the paths of
    the manifest in the order of the manifest. *)
Theorem written_manifest_is_stitched_in_order
    (path_name : string -> string) (DEFAULT_DUR : Q)
    (labels : Verbose.item -> string * string)
    (raw_items manifest : list Verbose.item) :
  Verbose.main_items path_name DEFAULT_DUR raw_items
  = Verbose.WroteManifest manifest ->
  sort_items (Pipeline.dump_item labels <$> manifest)
  = Some (Pipeline.dump_item labels <$> manifest)
  /\ forall py_str path_exists files,
       (forall p, py_str (JStr p) = p) ->
       main py_str path_exists (Pipeline.dump_item labels <$> manifest)
       = Concat files ->
       files = omap Verbose.path manifest.
Proof.
  intros Hrun.
  destruct (AnalyzeFacts.main_items_written _ _ _ _ Hrun)
    as (_ & Hall & Hsorted).
  assert (Hsort : sort_items (Pipeline.dump_item labels <$> manifest)
                  = Some (Pipeline.dump_item labels <$> manifest)).
  { apply (sort_items_id _ (Verbose.time_key <$> manifest)).
    - apply mapM_Some. clear Hsorted Hrun.
      induction Hall as [|it l [_ Ht] _ IH]; cbn; [constructor|].
      constructor; [now apply keyf_dump_item | exact IH].
    - apply StronglySorted_Sorted. clear Hall Hrun.
      induction Hsorted as [|it l _ IH Hfa]; cbn; [constructor|].
      constructor; [exact IH|]. apply Forall_fmap. exact Hfa. }
  split; [exact Hsort|].
  intros py_str path_exists files Hstr Hmain.
  destruct (concat_list_sound py_str path_exists _ files Hmain)
    as (sorted_items & Hsort' & -> & _).
  rewrite Hsort in Hsort'. injection Hsort' as <-.
  apply listed_paths_dump; [exact Hstr|].
  eapply Forall_impl; [exact Hall|]. now intros it [? _].
Qed.

Lemma written_manifest_is_stitched_in_order_witness :
  exists manifest,
    Verbose.main_items sample_name 2.0 batch_one_without_time
    = Verbose.WroteManifest manifest
    /\ sort_items (Pipeline.dump_item (fun _ => ("", "")) <$> manifest)
       = Some (Pipeline.dump_item (fun _ => ("", "")) <$> manifest).
Proof.
  destruct (Verbose.main_items sample_name 2.0 batch_one_without_time)
    as [| |manifest] eqn:E; try (vm_compute in E; discriminate).
  exists manifest. split; [reflexivity|].
  apply (written_manifest_is_stitched_in_order sample_name 2.0
           (fun _ => ("", "")) batch_one_without_time manifest E).
Defined.

End PlaybackFacts.

(** ** The refinement pass as a whole *)

Module PassFacts.
Import Json LoopTrimmer Scenario.

(** The end scan keeps the strength between zero and one. *)
Lemma end_scan_strength env (times : list Q) : forall motion_end strength,
  0 <= strength -> strength <= 1 ->
  0 <= (end_scan env (motion_end, strength) times).2
  /\ (end_scan env (motion_end, strength) times).2 <= 1.
Proof.
  induction times as [|t times IH]; intros motion_end strength H0 H1;
    [now split|].
  cbn [end_scan]. destruct (end_probe env t) as [compared|]; [|now apply IH].
  destruct (Py.Qltb strength _) eqn:E; [|now apply IH].
  apply Qltb_true in E. apply IH; [lra|].
  assert (0 <= calculate_frame_similarity compared); [|lra].
  unfold calculate_frame_similarity. destruct compared as [c|]; [|lra].
  destruct (max_cases 0.0 c) as [[-> ?] | [-> ?]]; lra.
Qed.

(** X15.  The motion strength that the detector reports is always
    between 0 and 1, whatever the probes return, correlations outside
    [[0, 1]] and failed probes included. *)
Theorem motion_strength_range (env : probes) (duration : Q) :
  let '(_, _, motion_strength) := find_clean_motion_segment env duration in
  0 <= motion_strength /\ motion_strength <= 1.
Proof.
  unfold find_clean_motion_segment, fallback_segment.
  destruct (first_frame_ok env); cbn [negb]; [|split; lra].
  match goal with |- context [end_scan env (?e, ?s) ?times] =>
    pose proof (end_scan_strength env times e s ltac:(lra) ltac:(lra)) as H;
    destruct (end_scan env (e, s) times) as [me md] end.
  destruct (cleanup_ok env); [exact H | split; lra].
Qed.

Section Environment.
Variable path_exists : string -> bool.
Variable ffprobe_duration : string -> option Q.
Variable video_probes : string -> probes.

(** A kept item named an existing file and had a numeric [t0]. *)
Lemma refine_or_drop_kept (item new_item : gmap string jval) :
  (refine_or_drop path_exists ffprobe_duration video_probes) item = Some new_item ->
  exists video_path t0,
    item !! "path" = Some (JStr video_path)
    /\ item !! "t0" = Some (JNum t0)
    /\ video_path <> "" /\ path_exists video_path = true
    /\ new_item
       = (refine_item ffprobe_duration video_probes item video_path t0).1.
Proof.
  unfold refine_or_drop.
  destruct (item !! "path") as [[| | |video_path| |]|]; try discriminate.
  destruct (item !! "t0") as [[| |t0| | |]|]; try discriminate.
  destruct (Py.truthy video_path) eqn:Et; [|discriminate].
  destruct (path_exists video_path) eqn:Ee; [|discriminate].
  cbn [andb]. intros H. injection H as <-.
  exists video_path, t0. repeat split; auto.
  intros ->. discriminate.
Qed.

(** The fields of a kept item after the refinement. *)
Lemma refine_or_drop_fields (item new_item : gmap string jval) :
  (refine_or_drop path_exists ffprobe_duration video_probes) item = Some new_item ->
  exists video_path t0 start_trim clean_duration motion_strength,
    item !! "path" = Some (JStr video_path)
    /\ path_exists video_path = true
    /\ find_clean_motion_segment (video_probes video_path)
         (get_video_duration ffprobe_duration video_path)
       = (start_trim, clean_duration, motion_strength)
    /\ new_item !! "path" = Some (JStr video_path)
    /\ new_item !! "t0" = Some (JNum t0)
    /\ new_item !! "t1" = Some (JNum (t0 + clean_duration))
    /\ new_item !! "start_trim" = Some (JNum start_trim)
    /\ new_item !! "clean_duration" = Some (JNum clean_duration)
    /\ new_item !! "original_duration"
       = Some (JNum (get_video_duration ffprobe_duration video_path)).
Proof.
  intros H.
  destruct (refine_or_drop_kept _ _ H)
    as (video_path & t0 & Hp & Ht & _ & He & ->).
  pose proof (RefineFacts.refine_item_fields path_exists ffprobe_duration
                video_probes
                item video_path t0) as Hf.
  cbv zeta in Hf.
  destruct (find_clean_motion_segment _ _) as [[s c] m] eqn:Eseg.
  destruct Hf as (Ho & Hs & Hc & _ & H1 & Hother).
  exists video_path, t0, s, c, m.
  split; [exact Hp|]. split; [exact He|]. split; [exact Eseg|].
  split; [rewrite Hother; [exact Hp|]; intros Hin;
          repeat (apply elem_of_cons in Hin as [Hin | Hin]; [discriminate|]);
          inversion Hin|].
  split; [rewrite Hother; [exact Ht|]; intros Hin;
          repeat (apply elem_of_cons in Hin as [Hin | Hin]; [discriminate|]);
          inversion Hin|].
  repeat split; assumption.
Qed.


(** X17.  On a manifest with at least one item, all of them well
    formed, the pass writes a manifest whose items are the refined copies
    of the items that name an existing file, in their original order;
    every top-level key other than [loop_detection], the transitions
    among them, is written as it was read; and the pass returns normally
    exactly when at least one item is kept. *)
Theorem refinement_pass_result (manifest_data : manifest) :
  items manifest_data <> [] ->
  Forall (well_formed path_exists) (items manifest_data) ->
  exists written,
    (process_smart_manifest_with_loop_detection path_exists ffprobe_duration
       video_probes manifest_data = Returned written
     \/ process_smart_manifest_with_loop_detection path_exists ffprobe_duration
       video_probes manifest_data = RaisedAfterWrite written)
    /\ items written = omap (refine_or_drop path_exists ffprobe_duration video_probes) (items manifest_data)
    /\ (forall k, k <> "loop_detection" ->
          others written !! k = others manifest_data !! k)
    /\ (process_smart_manifest_with_loop_detection path_exists ffprobe_duration
       video_probes manifest_data = Returned written
        <-> omap (refine_or_drop path_exists ffprobe_duration video_probes) (items manifest_data) <> []).
Proof.
  intros Hne Hwf. unfold process_smart_manifest_with_loop_detection.
  destruct (items manifest_data) as [|item items] eqn:Eitems;
    [contradiction|].
  destruct (RefineFacts.process_items_total path_exists ffprobe_duration
              video_probes _ Hwf ([], 0.0)) as [[out saved] Hrun].
  rewrite Hrun.
  pose proof (RefineFacts.process_items_order _ _ _ _ _ _ _ Hrun) as Hout.
  cbn [fst app] in Hout. subst out.
  generalize (omap (refine_or_drop path_exists ffprobe_duration video_probes)
                (item :: items)).
  intros kept.
  exists {| items := kept;
            others :=
              <["loop_detection" :=
                  JObj [("total_clips", JNum (Py.of_nat (length kept)));
                        ("total_time_saved", JNum saved);
                        ("trimming_method", JStr "start_and_end")] ]>
                (others manifest_data) |}.
  split; [destruct kept; [right | left]; reflexivity|].
  split; [reflexivity|]. split.
  - intros k Hk. cbn [others]. now rewrite lookup_insert_ne.
  - destruct kept; split; try discriminate; congruence.
Qed.


(** X19.  The video made from the written manifest takes the kept clips
    in their order and cuts each one to the segment that the detector
    found for it: the trim starts at the detected start and lasts the
    detected clean duration. *)
Theorem trimmed_video_uses_detected_segments (manifest_data written : manifest) :
  process_smart_manifest_with_loop_detection path_exists ffprobe_duration
       video_probes manifest_data = Returned written ->
  exists plan,
    create_trimmed_video written = Some plan
    /\ Forall2 (fun item entry =>
                  exists video_path start_trim clean_duration motion_strength,
                    item !! "path" = Some (JStr video_path)
                    /\ path_exists video_path = true
                    /\ find_clean_motion_segment (video_probes video_path)
                         (get_video_duration ffprobe_duration video_path)
                       = (start_trim, clean_duration, motion_strength)
                    /\ entry = (Some (JStr video_path), JNum start_trim,
                                JNum clean_duration))
               (filter (fun item => is_Some ((refine_or_drop path_exists ffprobe_duration video_probes) item))
                       (items manifest_data))
               plan.
Proof.
  unfold process_smart_manifest_with_loop_detection.
  destruct (items manifest_data) as [|item items] eqn:Eitems;
    [discriminate|].
  destruct (process_items _ _ _ (item :: items) ([], 0.0))
    as [[out saved]|] eqn:Hrun; [|discriminate].
  pose proof (RefineFacts.process_items_order _ _ _ _ _ _ _ Hrun) as Hout.
  cbn [fst app] in Hout.
  destruct out as [|o out'] eqn:Eout; [discriminate|].
  intros H. injection H as <-.
  unfold create_trimmed_video. cbn [LoopTrimmer.items].
  eexists. split; [reflexivity|]. rewrite Hout. clear.
  induction (item :: items) as [|it its IH]; [constructor|].
  rewrite filter_cons.
  change (omap (refine_or_drop path_exists ffprobe_duration video_probes) (it :: its))
    with (match (refine_or_drop path_exists ffprobe_duration video_probes) it with
          | Some y => y :: omap (refine_or_drop path_exists ffprobe_duration video_probes) its
          | None => omap (refine_or_drop path_exists ffprobe_duration video_probes) its
          end).
  destruct ((refine_or_drop path_exists ffprobe_duration video_probes) it) as [new_item|] eqn:Ek.
  - rewrite decide_True by eauto. rewrite fmap_cons.
    constructor; [|exact IH].
    destruct (refine_or_drop_fields _ _ Ek)
      as (vp & t0 & s & c & m & Hp & He & Eseg & Hnp & _ & _ & Hs & Hc & _).
    exists vp, s, c, m. rewrite Hnp, Hs, Hc. repeat split; assumption.
  - rewrite decide_False by (intros [? ?]; discriminate). exact IH.
Qed.

End Environment.

Lemma refinement_pass_result_witness :
  exists written,
    process_smart_manifest_with_loop_detection only_a_exists (fun _ => None)
      (fun _ => still_probes) manifest_of_two = Returned written
    /\ length (items written) = 1%nat
    /\ others written !! "transitions"
       = Some (JList [JStr "gone-to-a"]).
Proof.
  destruct (refinement_pass_result only_a_exists (fun _ => None)
              (fun _ => still_probes) manifest_of_two)
    as (written & Hrun & Hitems & Hothers & Hret).
  - discriminate.
  - apply Forall_cons. split; [|apply Forall_cons; split; [|apply Forall_nil]].
    + vm_compute. intros _. eexists. reflexivity.
    + vm_compute. intros _. eexists. reflexivity.
    + exact I.
  - assert (Hkept : length (omap (refine_or_drop only_a_exists (fun _ => None)
                                    (fun _ => still_probes))
                                 (items manifest_of_two)) = 1%nat)
      by (vm_compute; reflexivity).
    exists written. split.
    { apply Hret. intros Hnil. rewrite Hnil in Hkept. discriminate. }
    split; [rewrite Hitems; exact Hkept|].
    rewrite Hothers by discriminate. reflexivity.
Defined.


Lemma trimmed_video_uses_detected_segments_witness :
  exists written plan,
    process_smart_manifest_with_loop_detection only_a_exists (fun _ => None)
      (fun _ => still_probes) manifest_of_two = Returned written
    /\ create_trimmed_video written = Some plan
    /\ length plan = 1%nat.
Proof.
  destruct (process_smart_manifest_with_loop_detection only_a_exists
              (fun _ => None) (fun _ => still_probes) manifest_of_two)
    as [| |written|written] eqn:E; try (vm_compute in E; discriminate).
  destruct (trimmed_video_uses_detected_segments only_a_exists (fun _ => None)
              (fun _ => still_probes) manifest_of_two written E)
    as (plan & Hplan & Hall).
  exists written, plan. split; [reflexivity|]. split; [exact Hplan|].
  apply Forall2_length in Hall. rewrite <- Hall. reflexivity.
Defined.

End PassFacts.

(** ** Which records have times *)

Module ResolveFacts.
Import Json Verbose Scenario.

Lemma first_some_None {A} (l : list (option A)) :
  first_some l = None <-> Forall (fun o => o = None) l.
Proof.
  induction l as [|[x|] l IH]; cbn.
  - split; [constructor | reflexivity].
  - split; [discriminate|].
    intros H. apply Forall_cons in H as [H _]. discriminate.
  - rewrite IH. split; [now constructor|].
    intros H. now apply Forall_cons in H as [_ H].
Qed.

Lemma get_elem_of {A} (k : string) (kv : list (string * A)) (v : A) :
  get k kv = Some v -> exists k', (k', v) ∈ kv.
Proof.
  induction kv as [|[k' v'] kv IH]; cbn; [discriminate|].
  destruct (String.eqb k k').
  - intros H. injection H as <-. exists k'. left.
  - intros H. destruct (IH H) as (k'' & Hin). exists k''. now right.
Qed.

(** The values of an object, each parsed. *)
Lemma parse_time_obj (kv : list (string * jval)) :
  parse_time (JObj kv)
  = parse_time_dict ((fun p => (p.1, parse_time p.2)) <$> kv).
Proof.
  cbn [parse_time]. f_equal.
  induction kv as [|[k x] kv IH]; [reflexivity|]. now rewrite IH.
Qed.

(** An object resolves to no time exactly when none of its values does. *)
Lemma parse_time_object_None (kv : list (string * jval)) :
  parse_time (JObj kv) = None
  <-> Forall (fun p => parse_time p.2 = None) kv.
Proof.
  rewrite parse_time_obj. unfold parse_time_dict.
  set (pv := (fun p : string * jval => (p.1, parse_time p.2)) <$> kv).
  assert (Hvals : first_some pv.*2 = None
                  <-> Forall (fun p => parse_time p.2 = None) kv).
  { rewrite first_some_None. unfold pv.
    rewrite <- list_fmap_compose, Forall_fmap. reflexivity. }
  split.
  - intros H. apply Hvals.
    destruct (first_some ((fun k => mjoin (get k pv)) <$> time_keys))
      as [out|] eqn:Ekeys; [discriminate|].
    destruct pv as [|[k o] [|p pv']] eqn:Epv; try exact H.
    cbn. now rewrite H.
  - intros H. apply Hvals in H.
    assert (Hkeys : first_some ((fun k => mjoin (get k pv)) <$> time_keys)
                    = None).
    { apply first_some_None, Forall_fmap, Forall_forall. intros k _. cbn.
      destruct (get k pv) as [o|] eqn:Eg; [|reflexivity].
      destruct (get_elem_of _ _ _ Eg) as (k' & Hin).
      rewrite first_some_None, Forall_fmap, Forall_forall in H.
      exact (H _ Hin). }
    rewrite Hkeys. destruct pv as [|[k o] [|p pv']]; try exact H.
    cbn in H. now destruct o.
Qed.

(** X20.  An object resolves to a time exactly when one of its values
    does: whatever its keys are, [parse_time] gives up on an object only
    if it gives up on every value of it. *)
Theorem parse_time_object_unresolved (kv : list (string * jval)) :
  parse_time (JObj kv) = None
  <-> Forall (fun p => parse_time p.2 = None) kv.
Proof. apply parse_time_object_None. Qed.

(** The values of the normalised dictionary are values of the record. *)
Lemma normalise_values (raw : list (string * jval)) (k : string) (v : jval) :
  normalise raw !! k = Some v -> exists k', (k', v) ∈ raw.
Proof.
  unfold normalise.
  assert (Hgen : forall (m0 : gmap string jval),
            foldl (fun norm '(k, v) => <[norm_key k := v]> norm) m0 raw !! k
            = Some v ->
            m0 !! k = Some v \/ exists k', (k', v) ∈ raw).
  { induction raw as [|[k0 v0] raw IH]; intros m0 H; [now left|].
    cbn [foldl] in H. destruct (IH _ H) as [Hm | (k' & Hin)].
    - destruct (decide (norm_key k0 = k)) as [<- | Hne].
      + rewrite lookup_insert_eq in Hm. injection Hm as <-.
        right. exists k0. left.
      + rewrite lookup_insert_ne in Hm by exact Hne. now left.
    - right. exists k'. now right. }
  intros H. destruct (Hgen ∅ H) as [Hm | Hin]; [|exact Hin].
  rewrite lookup_empty in Hm. discriminate.
Qed.

Lemma pull_nested_None which alt literal (cont : jval) :
  parse_time cont = None -> pull_nested which alt literal cont = None.
Proof.
  destruct cont as [| | | | |kv]; try reflexivity.
  intros H. apply parse_time_object_None in H. cbn [pull_nested].
  rewrite Forall_forall in H.
  assert (Hkeys : first_some ((fun k => parse_time_at k kv) <$>
                                [which; alt; literal; "start"; "end"; "time";
                                 "timestamp"]) = None).
  { apply first_some_None, Forall_fmap, Forall_forall. intros k _. cbn.
    unfold parse_time_at. destruct (get k kv) as [v|] eqn:Eg; [|reflexivity].
    destruct (get_elem_of _ _ _ Eg) as (k' & Hin). exact (H _ Hin). }
  rewrite Hkeys. apply first_some_None, Forall_fmap, Forall_forall.
  intros [k v] Hin. exact (H _ Hin).
Qed.

(** A time of a record is missing exactly when no top-level value of the
    record resolves to a time. *)
Lemma pull_time_any_None (raw : list (string * jval)) (which : string) :
  pull_time_any raw (normalise raw) which = None
  <-> Forall (fun p => parse_time p.2 = None) raw.
Proof.
  unfold pull_time_any. rewrite first_some_None, !Forall_app. split.
  - intros (_ & _ & H). rewrite Forall_fmap in H.
    eapply Forall_impl; [exact H|]. now intros [k v].
  - intros H. rewrite Forall_forall in H. split; [|split].
    + repeat constructor.
      * destruct (normalise raw !! which) as [v|] eqn:E; [|reflexivity].
        destruct (normalise_values _ _ _ E) as (k' & Hin). exact (H _ Hin).
      * destruct (normalise raw !! _) as [v|] eqn:E; [|reflexivity].
        destruct (normalise_values _ _ _ E) as (k' & Hin). exact (H _ Hin).
      * unfold parse_time_at. destruct (get _ raw) as [v|] eqn:E;
          [|reflexivity].
        destruct (get_elem_of _ _ _ E) as (k' & Hin). exact (H _ Hin).
    + apply Forall_fmap, Forall_forall. intros cont_key _. cbn.
      destruct (get cont_key raw) as [cont|] eqn:E; [|reflexivity].
      destruct (get_elem_of _ _ _ E) as (k' & Hin). cbn.
      apply pull_nested_None. exact (H _ Hin).
    + apply Forall_fmap, Forall_forall. intros [k v] Hin. exact (H _ Hin).
Qed.

(** X21.  Every record that [load_items] builds has both of its times or
    neither: the start and the end are looked for in the same values, so
    one is missing exactly when the other is, and that is when no
    top-level value of the metadata object resolves to a time. *)
Theorem loaded_item_times_together
    (py_str : jval -> string) (join_videos_in : string -> string)
    (files : list (string * option (list (string * jval)))) :
  Forall (fun it => t0 it = None <-> t1 it = None)
         (load_items py_str join_videos_in files).1.
Proof.
  rewrite load_items_records.
  induction files as [|[jp [raw|]] files IH]; cbn [load_loop].
  - constructor.
  - destruct (load_loop py_str join_videos_in files) as [its probs].
    cbn [fst] in *. constructor; [|exact IH]. cbn [t0 t1].
    now rewrite !pull_time_any_None.
  - destruct (load_loop py_str join_videos_in files) as [its probs].
    exact IH.
Qed.

Lemma parse_time_object_unresolved_witness :
  parse_time (JObj [("note", JStr "intro"); ("tags", JList [])]) = None.
Proof.
  apply parse_time_object_unresolved. repeat constructor.
Defined.

End ResolveFacts.

(** ** Key names and wrapped values *)

Module KeyFacts.
Import Json Scenario.

(** What the two replacements and the lowering do to one character. *)
Lemma lower_as_map (s : string) :
  Py.lower s = Verbose.map_chars Py.lower_char s.
Proof. induction s as [|c s IH]; cbn; [reflexivity | now rewrite IH]. Qed.

Lemma map_chars_compose (f g : ascii -> ascii) (s : string) :
  Verbose.map_chars f (Verbose.map_chars g s)
  = Verbose.map_chars (fun c => f (g c)) s.
Proof. induction s as [|c s IH]; cbn; [reflexivity | now rewrite IH]. Qed.

Lemma map_chars_ext (f g : ascii -> ascii) (s : string) :
  (forall c, f c = g c) -> Verbose.map_chars f s = Verbose.map_chars g s.
Proof.
  intros H. induction s as [|c s IH]; cbn; [reflexivity|]. now rewrite H, IH.
Qed.

Lemma normal_char_idempotent (c : ascii) :
  let f := fun c => Py.lower_char
                      (Verbose.replace_char " " "_"
                         (Verbose.replace_char "-" "_" c)) in
  f (f c) = f c.
Proof.
  destruct c as [[] [] [] [] [] [] [] []]; reflexivity.
Qed.

Lemma verbose_norm_key_idempotent (k : string) :
  Verbose.norm_key (Verbose.norm_key k) = Verbose.norm_key k.
Proof.
  unfold Verbose.norm_key. rewrite !lower_as_map, !map_chars_compose.
  apply map_chars_ext. intros c. apply normal_char_idempotent.
Qed.

(** X22.  Normalising a key twice is normalising it once, in both
    normalizers: the normal form of a key is its own normal form. *)
Theorem norm_key_idempotent (k : string) :
  Verbose.norm_key (Verbose.norm_key k) = Verbose.norm_key k
  /\ Assemble.norm_key (Assemble.norm_key k) = Assemble.norm_key k.
Proof.
  split; [apply verbose_norm_key_idempotent|].
  unfold Assemble.norm_key.
  pose proof (verbose_norm_key_idempotent k) as Hidem.
  unfold Verbose.norm_key in Hidem.
  set (kl := Py.lower (Verbose.map_chars (Verbose.replace_char " " "_")
                         (Verbose.map_chars (Verbose.replace_char "-" "_") k)))
    in *.
  destruct (bool_decide (kl ∈ ["emb_end"; "embend"; "end_emb"; "end"]))
    eqn:E1; [reflexivity|].
  destruct (bool_decide (kl ∈ ["emb_start"; "embstart"; "start_emb"; "start";
                               "t0"])) eqn:E2; [reflexivity|].
  destruct (bool_decide (kl ∈ ["fps"; "frame_rate"; "framerate"]))
    eqn:E3; [reflexivity|].
  destruct (bool_decide (kl ∈ ["frames"; "n_frames"; "frame_count"]))
    eqn:E4; [reflexivity|].
  destruct (bool_decide (kl ∈ ["duration"; "duration_s"; "secs"; "seconds"]))
    eqn:E5; [reflexivity|].
  destruct (bool_decide (kl ∈ ["path"; "file"; "filepath"; "file_path"]))
    eqn:E6; [reflexivity|].
  rewrite Hidem, E1, E2, E3, E4, E5, E6. reflexivity.
Qed.

(** X23.  A value wrapped in a single-key object, whatever the key, or
    put first in a list resolves as the value itself, in [parse_time] and
    in [coerce_float]. *)
Theorem wrappers_are_transparent (k : string) (v : jval) (rest : list jval)
    (f : option Q) :
  Verbose.parse_time (JObj [(k, v)]) = Verbose.parse_time v
  /\ Verbose.parse_time (JList (v :: rest)) = Verbose.parse_time v
  /\ Assemble.coerce_float f (JObj [(k, v)]) = Assemble.coerce_float f v
  /\ Assemble.coerce_float f (JList (v :: rest)) = Assemble.coerce_float f v.
Proof.
  split; [apply TimeFacts.parse_time_single_key|].
  split; [reflexivity|]. split; [|reflexivity].
  cbn [Assemble.coerce_float]. unfold Assemble.coerce_float_dict.
  destruct (TimeFacts.first_some_single_key Assemble.float_keys k
              (Assemble.coerce_float f v)) as [-> | ->].
  - reflexivity.
  - now destruct (Assemble.coerce_float f v).
Qed.

End KeyFacts.

(** ** Loading in [sequence_and_assemble.py] *)

Module LoadFacts.
Import Json Assemble Scenario.

Section Environment.
Variable py_str : jval -> string.

(** Every file goes to the items or to the problems. *)
Lemma load_loop_count (files : list (string * option (list (string * jval)))) :
  (length (load_loop py_str files).1 + length (load_loop py_str files).2
   = length files)%nat.
Proof.
  induction files as [|[jp raw] files IH]; [reflexivity|].
  cbn [load_loop]. destruct (load_loop py_str files) as [items problems].
  cbn [fst snd] in IH.
  destruct raw as [raw|]; [destruct (load_one py_str raw)|]; cbn; lia.
Qed.

(** A file that fails to parse or to load is among the problems. *)
Lemma load_loop_problem files jp raw :
  (jp, raw) ∈ files ->
  (raw = None \/ exists obj miss, raw = Some obj
                                  /\ load_one py_str obj = inr miss) ->
  jp ∈ (load_loop py_str files).2.
Proof.
  intros Hin Hbad. induction files as [|[jp' raw'] files IH]; [inversion Hin|].
  cbn [load_loop]. destruct (load_loop py_str files) as [items problems].
  cbn [snd] in IH.
  apply elem_of_cons in Hin as [Heq | Hin].
  - injection Heq as <- <-.
    destruct Hbad as [-> | (obj & miss & -> & ->)]; left.
  - specialize (IH Hin).
    destruct raw' as [obj|]; [destruct (load_one py_str obj)|]; cbn;
      try (right; exact IH); exact IH.
Qed.

(** X24.  [load_meta_files] loads all the files or none: it returns
    items only when every file gave one, in which case there are as many
    items as files; a single file that does not parse, or lacks a path, a
    start or an end, ends the run with the list of problems; and the
    message for a batch with nothing valid is never reached. *)
Theorem load_meta_files_all_or_nothing
    (files : list (string * option (list (string * jval)))) :
  load_meta_files py_str files <> ExitAllInvalid
  /\ (forall items, load_meta_files py_str files = Items items ->
        length items = length files /\ files <> [])
  /\ (forall jp raw,
        (jp, raw) ∈ files ->
        (raw = None \/ exists obj miss, raw = Some obj
                                        /\ load_one py_str obj = inr miss) ->
        exists listed more,
          load_meta_files py_str files = ExitProblems listed more
          /\ listed <> []).
Proof.
  unfold load_meta_files.
  pose proof (load_loop_count files) as Hcount.
  pose proof (load_loop_problem files) as Hproblem.
  destruct files as [|file files'].
  { split; [discriminate|]. split; [discriminate|].
    intros jp raw Hin. inversion Hin. }
  destruct (load_loop py_str (file :: files')) as [items problems].
  cbn [fst snd] in Hcount, Hproblem.
  destruct problems as [|p problems].
  - destruct items as [|it items]; [cbn in Hcount; lia|].
    split; [discriminate|]. split.
    + intros its H. injection H as <-. split; [|discriminate].
      rewrite <- Hcount. cbn. lia.
    + intros jp raw Hin Hbad. specialize (Hproblem jp raw Hin Hbad).
      inversion Hproblem.
  - split; [discriminate|]. split; [discriminate|].
    intros jp raw _ _. eexists _, _. split; [reflexivity|]. discriminate.
Qed.

End Environment.

Lemma load_meta_files_all_or_nothing_witness :
  exists listed more,
    load_meta_files sample_str
      [("a.json", Some [("path", JStr "a.mp4"); ("start", JNum 0);
                        ("duration", JNum 2)]);
       ("b.json", None)]
    = ExitProblems listed more
    /\ listed <> [].
Proof.
  apply (proj2 (proj2 (load_meta_files_all_or_nothing sample_str _))
           "b.json" None).
  - right. left.
  - left. reflexivity.
Defined.

End LoadFacts.

(** ** The groups of the clock pattern *)

Module ClockFacts.
Import Json Verbose Scenario.

Lemma re_minutes_hours (s m r : string) :
  re_minutes s = Some (m, r) -> re_hours s = Some (m, r).
Proof.
  unfold re_minutes, re_hours.
  destruct (span_digits s) as [[|c d] [|c' r']]; try discriminate.
  destruct (Ascii.eqb c' ":") eqn:E.
  - apply Ascii.eqb_eq in E. subst c'.
    destruct (Nat.leb (String.length d) 1); [|discriminate].
    intros H. injection H as <- <-. reflexivity.
  - destruct c' as [[] [] [] [] [] [] [] []]; try discriminate.
Qed.

Lemma re_tail_seconds (s : string) (s_ : string) :
  re_seconds s = Some s_ -> is_Some (re_tail s).
Proof.
  intros H. unfold re_tail. rewrite H.
  destruct (re_minutes s) as [[m r]|]; [|now eexists].
  destruct (re_seconds r); now eexists.
Qed.

(** X25.  The minutes group of [TIME_RE] never matches on its own:
    whenever the pattern captures minutes it has captured hours as well,
    so a clock string with a single colon is always read as hours and
    seconds. *)
Theorem minutes_group_needs_hours (s : string)
    (h m_ : option string) (s_ : string) :
  TIME_RE s = Some (h, m_, s_) -> is_Some m_ -> is_Some h.
Proof.
  unfold TIME_RE. intros H [m Hm]. subst m_.
  destruct (re_hours s) as [[hh r]|] eqn:Eh.
  - destruct (re_tail r) as [[m' s']|] eqn:Et.
    + injection H as <- _ _. now eexists.
    + exfalso. unfold re_tail in H.
      destruct (re_minutes s) as [[m0 r0]|] eqn:Em.
      * apply re_minutes_hours in Em. rewrite Eh in Em.
        injection Em as <- <-.
        destruct (re_seconds r) as [sec|] eqn:Es.
        -- destruct (re_tail_seconds r sec Es) as [x Hx]. congruence.
        -- destruct (re_seconds s); discriminate.
      * destruct (re_seconds s); discriminate.
  - exfalso. unfold re_tail in H.
    destruct (re_minutes s) as [[m0 r0]|] eqn:Em.
    + apply re_minutes_hours in Em. congruence.
    + destruct (re_seconds s); discriminate.
Qed.

Lemma minutes_group_needs_hours_witness :
  is_Some (Some "1" : option string).
Proof.
  apply (minutes_group_needs_hours "1:02:03.5" (Some "1") (Some "02") "03.5").
  - reflexivity.
  - now eexists.
Defined.

End ClockFacts.

(** ** Metadata made by [make_meta_from_videos.py] *)

Module MakeMetaFacts.
Import Json Verbose Scenario.

(** The two times that the normalizer reads from a written object. *)
Lemma meta_object_times rnd dur file_name stem t :
  let raw := MakeMeta.meta_object rnd dur file_name stem t in
  pull_time_any raw (normalise raw) "emb_start" = Some t
  /\ pull_time_any raw (normalise raw) "emb_end" = Some (rnd (t + dur)).
Proof. split; reflexivity. Qed.

Section Environment.
Variable rnd : Q -> Q.
Variable dur : Q.
Variable force : bool.
Variable meta_path : string -> string.
Variable meta_exists : string -> bool.
Variable py_str : jval -> string.
Variable join_videos_in : string -> string.

(** The [k]-th write of the loop is for one of the videos and starts
    after [k] more additions of the duration to the running time. *)
Lemma write_metas_lookup (videos : list (string * string)) :
  forall t jp_exists k w,
    MakeMeta.write_metas rnd dur force meta_path t jp_exists videos !! k
    = Some w ->
    exists file_name stem,
      (file_name, stem) ∈ videos
      /\ w = (meta_path stem,
              MakeMeta.meta_object rnd dur file_name stem
                (Nat.iter k (fun t => rnd (t + dur)) t)).
Proof.
  induction videos as [|[file_name stem] videos IH]; intros t ex k w;
    cbn [MakeMeta.write_metas]; [discriminate|].
  destruct (ex (meta_path stem) && negb force).
  - intros H. destruct (IH _ _ _ _ H) as (f & st & Hin & Hw).
    exists f, st. split; [now apply elem_of_cons; right | exact Hw].
  - destruct k as [|k]; cbn [lookup list_lookup].
    + intros H. injection H as <-. exists file_name, stem.
      split; [now apply elem_of_cons; left | reflexivity].
    + intros H. destruct (IH _ _ _ _ H) as (f & st & Hin & Hw).
      exists f, st. split; [now apply elem_of_cons; right|].
      rewrite Hw, Nat.iter_succ_r. reflexivity.
Qed.

(** A batch of written objects loads with the written times. *)
Lemma load_written (written : list (string * list (string * jval)))
    (files : list (string * option (list (string * jval)))) :
  (forall k w, written !! k = Some w ->
     exists file_name stem,
       w.2 = MakeMeta.meta_object rnd dur file_name stem
               (Py.running rnd dur k)) ->
  Forall (fun file => exists obj, file.2 = Some obj /\ obj ∈ written.*2)
         files ->
  let items := (load_items py_str join_videos_in files).1 in
  meta <$> items = files.*1
  /\ Forall (fun it => exists k,
                (k < length written)%nat
                /\ t0 it = Some (Py.running rnd dur k)
                /\ t1 it = Some (rnd (Py.running rnd dur k + dur)))
            items.
Proof.
  intros Hwritten Hfiles. cbv zeta. rewrite load_items_records.
  induction Hfiles as [|[jp raw] files (obj & Hraw & Hobj) _ IH].
  - split; [reflexivity | constructor].
  - cbn in Hraw. subst raw. cbn [load_loop].
    destruct (load_loop py_str join_videos_in files) as [its probs].
    cbn [fst] in *. destruct IH as [Hmeta Htimes]. split.
    + rewrite !fmap_cons, Hmeta. reflexivity.
    + constructor; [|exact Htimes].
      apply list_elem_of_fmap in Hobj as (w & -> & Hw).
      apply list_elem_of_lookup in Hw as (k & Hk).
      destruct (Hwritten k w Hk) as (file_name & stem & ->).
      exists k. cbn [t0 t1].
      destruct (meta_object_times rnd dur file_name stem
                  (Py.running rnd dur k)) as [-> ->].
      split; [now apply lookup_lt_Some in Hk|]. split; reflexivity.
Qed.

(** X26.  [make_meta_from_videos.py] writes a contiguous timeline, and the
    normalizer reads it back.  The [k]-th file written is for one of the
    videos and spans the running time [t_k] to [t_k + dur], where
    [t_0 = 0.0] and [t_(k+1) = t_k + dur] in the arithmetic of the script,
    so that each window starts where the one before ends.  A batch of
    files that hold written objects, in any order, is loaded with exactly
    those times, every record with both of them, and so the sequential
    fallback leaves the batch as loaded. *)
Theorem written_metadata_keeps_its_times
    (path_name : string -> string) (DEFAULT_DUR : Q)
    (videos : list (string * string))
    (files : list (string * option (list (string * jval)))) :
  let written := MakeMeta.main rnd dur force meta_path meta_exists videos in
  let items := (load_items py_str join_videos_in files).1 in
  Forall (fun file => exists obj, file.2 = Some obj /\ obj ∈ written.*2)
         files ->
  (forall k w, written !! k = Some w ->
     exists file_name stem,
       (file_name, stem) ∈ videos
       /\ w = (meta_path stem,
               [("file", JStr file_name);
                ("start", JObj [("seconds", JNum (Py.running rnd dur k))]);
                ("end", JObj [("seconds",
                               JNum (rnd (Py.running rnd dur k + dur)))]);
                ("base", JStr stem)]))
  /\ meta <$> items = files.*1
  /\ Forall (fun it => exists k,
                (k < length written)%nat
                /\ t0 it = Some (Py.running rnd dur k)
                /\ t1 it = Some (rnd (Py.running rnd dur k + dur)))
            items
  /\ Rounded.apply_sequential_fallback rnd path_name DEFAULT_DUR items
     = (items, false).
Proof.
  cbv zeta. unfold MakeMeta.main. intros Hfiles.
  assert (Hwritten : forall k w,
    MakeMeta.write_metas rnd dur force meta_path (rnd 0.0) meta_exists videos
      !! k = Some w ->
    exists file_name stem,
      (file_name, stem) ∈ videos
      /\ w = (meta_path stem,
              MakeMeta.meta_object rnd dur file_name stem
                (Py.running rnd dur k))).
  { intros k w Hk. exact (write_metas_lookup _ _ _ _ _ Hk). }
  split; [exact Hwritten|].
  assert (Hobjects : forall k w,
    MakeMeta.write_metas rnd dur force meta_path (rnd 0.0) meta_exists videos
      !! k = Some w ->
    exists file_name stem,
      w.2 = MakeMeta.meta_object rnd dur file_name stem
              (Py.running rnd dur k)).
  { intros k w Hk. destruct (Hwritten k w Hk) as (f & st & _ & ->).
    now exists f, st. }
  destruct (load_written _ files Hobjects Hfiles) as [Hmeta Htimes].
  cbv zeta in *. split; [exact Hmeta|]. split; [exact Htimes|].
  unfold Rounded.apply_sequential_fallback.
  destruct (existsb lacks_time _) eqn:E; [|reflexivity].
  apply existsb_exists in E as (it & Hin & Hlack).
  apply list_elem_of_In in Hin.
  rewrite Forall_forall in Htimes.
  destruct (Htimes it Hin) as (k & _ & Ha & Hb).
  unfold lacks_time in Hlack. rewrite Ha, Hb in Hlack. discriminate.
Qed.

End Environment.

Lemma written_metadata_keeps_its_times_witness :
  (MakeMeta.main Binary64.round 1.1 false (fun stem => stem +:+ ".json")
     (fun _ => false) [("a.mov", "a"); ("a.mp4", "a"); ("b.mp4", "b")]).*1
  = ["a.json"; "b.json"]
  /\ Forall (fun it => exists k,
                (k < 2)%nat
                /\ t0 it = Some (Py.running Binary64.round 1.1 k)
                /\ t1 it = Some (Binary64.round
                                   (Py.running Binary64.round 1.1 k + 1.1)))
       (load_items sample_str sample_join
          ((fun w => (w.1, Some w.2))
             <$> reverse
                   (MakeMeta.main Binary64.round 1.1 false
                      (fun stem => stem +:+ ".json") (fun _ => false)
                      [("a.mov", "a"); ("a.mp4", "a"); ("b.mp4", "b")]))).1.
Proof.
  split; [reflexivity|].
  apply (written_metadata_keeps_its_times Binary64.round 1.1 false
           (fun stem => stem +:+ ".json") (fun _ => false)
           sample_str sample_join sample_name 2.0
           [("a.mov", "a"); ("a.mp4", "a"); ("b.mp4", "b")]).
  repeat constructor; eexists; (split; [reflexivity|]);
    apply list_elem_of_In; vm_compute; tauto.
Defined.

End MakeMetaFacts.


(** ** Margins and the trim mode of the stitcher *)

Module MarginFacts.
Import Json Scenario.

Section Environment.
Variable LEAD TAIL MIN_DUR : Q.

(** What a kept item looks like. *)
Lemma refine_one_kept (it kept : gmap string jval) :
  Margins.refine_one LEAD TAIL MIN_DUR it = Some (Some kept) ->
  exists v0 v1 t0 t1,
    it !! "t0" = Some v0 /\ it !! "t1" = Some v1
    /\ Stitch.to_float v0 = Some t0 /\ Stitch.to_float v1 = Some t1
    /\ MIN_DUR <= (t1 - TAIL) - (t0 + LEAD)
    /\ kept = <["clip_end" := JNum (t1 - TAIL)]>
                (<["clip_start" := JNum (t0 + LEAD)]> it).
Proof.
  unfold Margins.refine_one.
  destruct (it !! "t0") as [v0|]; [|destruct (it !! "t1") as [[]|]; discriminate].
  destruct (it !! "t1") as [v1|]; [|destruct v0; discriminate].
  assert (Hbody :
    (t0 ← Stitch.to_float v0; t1 ← Stitch.to_float v1;
     if Qle_bool MIN_DUR (t1 - TAIL - (t0 + LEAD))
     then Some (Some (<["clip_end" := JNum (t1 - TAIL)]>
                        (<["clip_start" := JNum (t0 + LEAD)]> it)))
     else Some None) = Some (Some kept) ->
    exists v0' v1' t0 t1,
      Some v0 = Some v0' /\ Some v1 = Some v1'
      /\ Stitch.to_float v0' = Some t0 /\ Stitch.to_float v1' = Some t1
      /\ MIN_DUR <= (t1 - TAIL) - (t0 + LEAD)
      /\ kept = <["clip_end" := JNum (t1 - TAIL)]>
                  (<["clip_start" := JNum (t0 + LEAD)]> it)).
  { destruct (Stitch.to_float v0) as [t0|] eqn:F0; [|discriminate].
    destruct (Stitch.to_float v1) as [t1|] eqn:F1; [|discriminate].
    cbn [mbind option_bind].
    destruct (Qle_bool MIN_DUR _) eqn:E; [|discriminate].
    intros H. injection H as <-. apply Qle_bool_iff in E.
    exists v0, v1, t0, t1. do 2 (split; [reflexivity|]).
    split; [exact F0|]. split; [exact F1|].
    split; [exact E | reflexivity]. }
  destruct v0, v1; try discriminate; exact Hbody.
Qed.

Lemma refine_spec (items : list (gmap string jval)) : forall refined,
  Margins.refine LEAD TAIL MIN_DUR items = Some refined ->
  Forall (fun kept =>
            exists it, it ∈ items
                       /\ Margins.refine_one LEAD TAIL MIN_DUR it
                          = Some (Some kept)) refined
  /\ sublist ((fun it => it !! "path") <$> refined)
             ((fun it => it !! "path") <$> items).
Proof.
  induction items as [|it items IH]; intros refined H.
  - injection H as <-. split; constructor.
  - cbn [Margins.refine] in H.
    destruct (Margins.refine_one LEAD TAIL MIN_DUR it) as [kept|] eqn:Ek;
      [|discriminate].
    cbn [mbind option_bind] in H.
    destruct (Margins.refine LEAD TAIL MIN_DUR items) as [rest|];
      [|discriminate].
    cbn [mbind option_bind] in H. injection H as <-.
    destruct (IH rest eq_refl) as [Hall Hsub].
    assert (Hall' : Forall (fun kept =>
              exists it', it' ∈ it :: items
                          /\ Margins.refine_one LEAD TAIL MIN_DUR it'
                             = Some (Some kept)) rest).
    { eapply Forall_impl; [exact Hall|]. intros k (it' & Hin & Hk).
      exists it'. split; [now right | exact Hk]. }
    destruct kept as [k|].
    + split.
      * constructor; [|exact Hall']. exists it. split; [left | exact Ek].
      * rewrite !fmap_cons.
        destruct (refine_one_kept _ _ Ek) as (? & ? & ? & ? & _ & _ & _ & _ & _ & ->).
        rewrite !lookup_insert_ne by discriminate. now constructor.
    + split; [exact Hall'|]. rewrite fmap_cons. now constructor.
Qed.

(** X27.  [refine_manifest_margins.py] keeps the order of the items and
    every item that it keeps has [clip_start = t0 + LEAD] and
    [clip_end = t1 - TAIL], at least [MIN_DUR] apart, its other fields
    untouched. *)
Theorem refined_items_have_margins
    (items refined : list (gmap string jval)) :
  Margins.refine LEAD TAIL MIN_DUR items = Some refined ->
  sublist ((fun it => it !! "path") <$> refined)
          ((fun it => it !! "path") <$> items)
  /\ Forall (fun kept =>
              exists it v0 v1 t0 t1,
                it ∈ items
                /\ it !! "t0" = Some v0 /\ Stitch.to_float v0 = Some t0
                /\ it !! "t1" = Some v1 /\ Stitch.to_float v1 = Some t1
                /\ kept !! "clip_start" = Some (JNum (t0 + LEAD))
                /\ kept !! "clip_end" = Some (JNum (t1 - TAIL))
                /\ MIN_DUR <= (t1 - TAIL) - (t0 + LEAD)
                /\ forall k, k <> "clip_start" -> k <> "clip_end" ->
                     kept !! k = it !! k)
            refined.
Proof.
  intros H. destruct (refine_spec _ _ H) as [Hall Hsub].
  split; [exact Hsub|].
  eapply Forall_impl; [exact Hall|]. intros kept (it & Hin & Hk).
  destruct (refine_one_kept _ _ Hk)
    as (v0 & v1 & t0 & t1 & H0 & H1 & F0 & F1 & Hmin & ->).
  exists it, v0, v1, t0, t1.
  split; [exact Hin|]. split; [exact H0|]. split; [exact F0|].
  split; [exact H1|]. split; [exact F1|].
  split; [now rewrite lookup_insert_ne, lookup_insert_eq|].
  split; [now rewrite lookup_insert_eq|]. split; [exact Hmin|].
  intros k Hs He. now rewrite !lookup_insert_ne.
Qed.

Lemma refined_has_margins (items refined : list (gmap string jval)) :
  Margins.refine LEAD TAIL MIN_DUR items = Some refined ->
  Forall (Margins.has_margins MIN_DUR) refined.
Proof.
  intros H. destruct (refine_spec _ _ H) as [Hall _].
  eapply Forall_impl; [exact Hall|]. intros kept (it & _ & Hk).
  destruct (refine_one_kept _ _ Hk)
    as (v0 & v1 & t0 & t1 & _ & _ & _ & _ & Hmin & ->).
  exists (t0 + LEAD), (t1 - TAIL).
  split; [now rewrite lookup_insert_ne, lookup_insert_eq|].
  split; [now rewrite lookup_insert_eq | exact Hmin].
Qed.

Variable py_str : jval -> string.
Variable path_exists : string -> bool.
Variable exists_raw : jval -> option bool.

(** On strings, [str] is the identity and both existence checks look at
    the same path. *)
Hypothesis py_str_string : forall p, py_str (JStr p) = p.
Hypothesis exists_raw_string :
  forall p, exists_raw (JStr p) = Some (path_exists p).

Lemma listed_paths_cons (it : gmap string jval) (rest : list (gmap string jval)) :
  Stitch.listed_paths py_str (it :: rest)
  = match (if Stitch.truthy (it !! "path") then py_str <$> it !! "path"
           else None) with
    | Some p => p :: Stitch.listed_paths py_str rest
    | None => Stitch.listed_paths py_str rest
    end.
Proof. reflexivity. Qed.

(** With margins on every item and every listed file in place, the loop
    of the trim mode goes through. *)
Lemma trim_loop_margins (items : list (gmap string jval)) :
  0 < MIN_DUR ->
  Forall (Margins.has_margins MIN_DUR) items ->
  Forall (Margins.path_is_string) items ->
  Forall (fun p => path_exists p = true) (Stitch.listed_paths py_str items) ->
  exists inputs,
    Stitch.trim_loop py_str exists_raw items = Stitch.TrimInputs inputs
    /\ inputs.*1 = Stitch.listed_paths py_str items
    /\ Forall (fun input => exists start dur,
                  input.2 = Some (start, dur) /\ MIN_DUR <= dur) inputs.
Proof.
  intros Hmin Hall. induction Hall as [|it items Hit _ IH];
    intros Hstr Hexist.
  - exists []. repeat split; constructor.
  - apply Forall_cons in Hstr as [Hs Hstr].
    rewrite listed_paths_cons in Hexist |- *. cbn [Stitch.trim_loop].
    destruct (Stitch.truthy (it !! "path")) eqn:Et; cbn [negb].
    + destruct (Hs Et) as (p & Ep). rewrite Ep in Hexist |- *. cbn in Hexist.
      apply Forall_cons in Hexist as [Hhere Hrest].
      cbn [default fmap option_fmap option_map id].
      rewrite py_str_string in Hhere |- *.
      rewrite exists_raw_string, Hhere.
      destruct Hit as (start & end_ & -> & -> & Hdur).
      cbn [default Stitch.to_float id].
      assert (E : Qle_bool (end_ - start) 0 = false).
      { apply not_true_iff_false. intros Hle. apply Qle_bool_iff in Hle. lra. }
      rewrite E.
      destruct (IH Hstr Hrest) as (inputs & -> & Hpaths & Hdurs).
      eexists. split; [reflexivity|]. split.
      * rewrite fmap_cons, Hpaths. reflexivity.
      * constructor; [|exact Hdurs]. now exists start, (end_ - start).
    + exact (IH Hstr Hexist).
Qed.

(** X28.  A manifest refined by [refine_manifest_margins.py] with a
    positive minimum duration, in which every path that is set is a
    string, goes through the trim mode of the stitcher whenever it goes
    through its file checks: no item is rejected for an invalid clip
    range, the inputs are the files of the concat list in the same order,
    and each one is trimmed to a duration of at least the minimum. *)
Theorem refined_manifest_trims (items refined : list (gmap string jval))
    (files : list string) :
  0 < MIN_DUR ->
  Margins.refine LEAD TAIL MIN_DUR items = Some refined ->
  Forall Margins.path_is_string refined ->
  Stitch.main py_str path_exists refined = Stitch.Concat files ->
  exists inputs,
    Stitch.main_trim py_str path_exists exists_raw refined
    = Stitch.TrimInputs inputs
    /\ inputs.*1 = files
    /\ Forall (fun input => exists start dur,
                  input.2 = Some (start, dur) /\ MIN_DUR <= dur) inputs.
Proof.
  intros Hmin Hrefine Hstr Hmain.
  destruct (PlaybackFacts.concat_list_sound py_str path_exists _ _ Hmain)
    as (sorted_items & Hsort & -> & _ & Hexist).
  destruct (PlaybackFacts.sort_items_sorted _ _ Hsort) as (Hperm & _).
  pose proof (refined_has_margins _ _ Hrefine) as Hmargins.
  rewrite Hperm in Hmargins, Hstr.
  unfold Stitch.main_trim. rewrite Hmain, Hsort.
  exact (trim_loop_margins sorted_items Hmin Hmargins Hstr Hexist).
Qed.

End Environment.

Lemma refined_items_have_margins_witness :
  Margins.refine 0.3 0.3 1.0 two_takes = Some [refined_take]
  /\ sublist ((fun it => it !! "path") <$> [refined_take])
             ((fun it => it !! "path") <$> two_takes).
Proof.
  assert (E : Margins.refine 0.3 0.3 1.0 two_takes = Some [refined_take])
    by (vm_compute; reflexivity).
  split; [exact E|].
  exact (proj1 (refined_items_have_margins 0.3 0.3 1.0 _ _ E)).
Defined.

Lemma refined_manifest_trims_witness :
  exists inputs,
    Stitch.main_trim sample_str (fun _ => true) sample_exists_raw
      [refined_take]
    = Stitch.TrimInputs inputs
    /\ inputs.*1 = ["a.mp4"]
    /\ Forall (fun input => exists start dur,
                  input.2 = Some (start, dur) /\ 1.0 <= dur) inputs.
Proof.
  apply (refined_manifest_trims 0.3 0.3 1.0 sample_str (fun _ => true)
           sample_exists_raw (fun p => eq_refl) (fun p => eq_refl)
           two_takes [refined_take] ["a.mp4"]).
  - reflexivity.
  - vm_compute; reflexivity.
  - constructor; [|constructor]. intros _. exists "a.mp4". reflexivity.
  - vm_compute; reflexivity.
Defined.

End MarginFacts.
